(** * Mixo-Ads campaign sync: retry, rate limiting, token lifecycle, sync worker

    A shallow embedding of the TypeScript sources
    [utils/RetryStrategy], [utils/ErrorHandler], [api/RateLimiter],
    [api/ApiClient], [auth/TokenManager], [sync/CampaignWorker] and
    [sync/SyncOrchestrator], followed by the properties established
    about them.

    Conventions.
    - Millisecond and second quantities are JavaScript numbers that hold
      integers in every caller (literals, [parseInt], [Date.now],
      [Math.floor], [Math.ceil], [Math.round]); they are modelled by [Z].
      Where the source can produce the not-a-number value the type
      [number] adds [NaN].
    - [Math.random()] is a value [r] with [0 <= r < 1]; it is modelled by a
      rational, and the arithmetic on it is exact.
    - An [async] function is cut at its [await]s: every piece between two
      suspension points is one atomic transition of a state machine, which
      is how a single-threaded event loop runs it. *)

From Stdlib Require Import ZArith QArith Qround String Ascii List Bool Lia Lqa DecimalString.
Import ListNotations.
Open Scope Z_scope.
Set Warnings "-register-all".

(* ------------------------------------------------------------------ *)
(** ** JavaScript values used by the sources *)

Module Js.

(** A JavaScript number that is an integer or NaN. *)
Inductive number : Type :=
| Int (z : Z)
| NaN.

Definition number_eqb (a b : number) : bool :=
  match a, b with
  | Int x, Int y => x =? y
  | NaN, NaN => true
  | _, _ => false
  end.

(** The outcome of awaiting a promise, or of a call that may throw. *)
Inductive Outcome (E T : Type) : Type :=
| Returned (v : T)
| Thrown (e : E).
Arguments Returned {E T} v.
Arguments Thrown {E T} e.

(** [Math.round] on an exact value: the nearest integer, ties upwards. *)
Definition Math_round (x : Q) : Z := Qfloor (x + (1 # 2)).

(** [Math.max(0, x)] on an exact value. *)
Definition Math_max0 (x : Q) : Q := if Qle_bool 0 x then x else 0%Q.

(** Template-literal rendering of an integer. *)
Definition show (z : Z) : string := NilZero.string_of_int (Z.to_int z).

(** [hay.includes(needle)]. *)
Fixpoint includes (hay needle : string) : bool :=
  if String.prefix needle hay then true
  else match hay with
       | EmptyString => false
       | String _ rest => includes rest needle
       end.

(** [a || b] on strings: the empty string is falsy. *)
Definition or_string (a b : string) : string :=
  match a with
  | EmptyString => b
  | _ => a
  end.

End Js.
Import Js.

(* ------------------------------------------------------------------ *)
(** ** types.ts *)

Inductive ErrorCode : Type :=
| AUTH_FAILED | TOKEN_EXPIRED | INVALID_CREDENTIALS
| RATE_LIMIT_EXCEEDED | SERVICE_UNAVAILABLE | TIMEOUT | NETWORK_ERROR | API_ERROR
| DATABASE_ERROR | CONNECTION_ERROR | QUERY_ERROR
| SYNC_FAILED | FETCH_FAILED | MAX_RETRIES_EXCEEDED
| VALIDATION_ERROR | CONFIG_ERROR.

Definition ErrorCode_eqb (a b : ErrorCode) : bool :=
  match a, b with
  | AUTH_FAILED, AUTH_FAILED | TOKEN_EXPIRED, TOKEN_EXPIRED
  | INVALID_CREDENTIALS, INVALID_CREDENTIALS
  | RATE_LIMIT_EXCEEDED, RATE_LIMIT_EXCEEDED
  | SERVICE_UNAVAILABLE, SERVICE_UNAVAILABLE | TIMEOUT, TIMEOUT
  | NETWORK_ERROR, NETWORK_ERROR | API_ERROR, API_ERROR
  | DATABASE_ERROR, DATABASE_ERROR | CONNECTION_ERROR, CONNECTION_ERROR
  | QUERY_ERROR, QUERY_ERROR | SYNC_FAILED, SYNC_FAILED
  | FETCH_FAILED, FETCH_FAILED | MAX_RETRIES_EXCEEDED, MAX_RETRIES_EXCEEDED
  | VALIDATION_ERROR, VALIDATION_ERROR | CONFIG_ERROR, CONFIG_ERROR => true
  | _, _ => false
  end.

(** A value of a [Record<string, unknown>] context object. *)
Inductive CtxValue : Type :=
| CtxNum (z : Z)
| CtxStr (s : string).

Definition Context : Type := list (string * CtxValue).

(** A thrown value: a plain [Error] (it has a message and no [code]
    property), or an [AppError] (any of its subclasses, told apart by
    [name]) with the fields of [ErrorDetails]. *)
Inductive Error : Type :=
| PlainError (message : string)
| AppError (name : string) (code : ErrorCode) (message : string)
    (statusCode : option Z) (retryAfter : option number)
    (originalError : option Error) (context : option Context)
    (isRetryable : bool).

Definition message_of (e : Error) : string :=
  match e with
  | PlainError m => m
  | AppError _ _ m _ _ _ _ _ => m
  end.

Record RetryOptions : Type := {
  maxAttempts : Z;
  baseDelay : Z;
  jitter : Z;
  maxDelay : Z;
  retryableErrors : list ErrorCode
}.

(** [Partial<RetryOptions>]. *)
Record PartialRetryOptions : Type := {
  p_maxAttempts : option Z;
  p_baseDelay : option Z;
  p_jitter : option Z;
  p_maxDelay : option Z;
  p_retryableErrors : option (list ErrorCode)
}.

(* ------------------------------------------------------------------ *)
(** ** utils/ErrorHandler.ts *)

Module ErrorHandler.

Definition AuthError (message : string) (originalError : option Error) : Error :=
  AppError "AuthError" AUTH_FAILED message (Some 401) None originalError None true.

Definition TokenExpiredError (message : string) : Error :=
  AppError "TokenExpiredError" TOKEN_EXPIRED message (Some 401) None None None true.

Definition RateLimitError (retryAfter : number) (message : string) : Error :=
  AppError "RateLimitError" RATE_LIMIT_EXCEEDED message (Some 429)
    (Some retryAfter) None None true.

Definition ServiceUnavailableError (message : string) (retryAfter : option number) : Error :=
  AppError "ServiceUnavailableError" SERVICE_UNAVAILABLE message (Some 503)
    retryAfter None None true.

Definition TimeoutError (message : string) (context : option Context) : Error :=
  AppError "TimeoutError" TIMEOUT message None None None context true.

Definition NetworkError (message : string) (originalError : option Error) : Error :=
  AppError "NetworkError" NETWORK_ERROR message None None originalError None true.

Definition ApiError (message : string) (statusCode : option Z)
    (originalError : option Error) (context : option Context) : Error :=
  AppError "ApiError" API_ERROR message statusCode None originalError context false.

Definition MaxRetriesExceededError (message : string) (attempts : Z)
    (lastError : option Error) : Error :=
  AppError "MaxRetriesExceededError" MAX_RETRIES_EXCEEDED message None None
    lastError (Some [("attempts"%string, CtxNum attempts)]) false.

Definition isRetryableError (error : Error) : bool :=
  match error with
  | AppError _ _ _ _ _ _ _ isRetryable => isRetryable
  | PlainError message =>
      if includes message "ECONNREFUSED"
         || includes message "ENOTFOUND"
         || includes message "ETIMEDOUT"
      then true
      else false
  end.

Definition getRetryAfter (error : Error) : option number :=
  match error with
  | AppError _ _ _ _ retryAfter _ _ _ => retryAfter
  | PlainError _ => None
  end.

Definition isErrorCode (error : Error) (code : ErrorCode) : bool :=
  match error with
  | AppError _ c _ _ _ _ _ _ => ErrorCode_eqb c code
  | PlainError _ => false
  end.

End ErrorHandler.

(* ------------------------------------------------------------------ *)
(** ** utils/RetryStrategy.ts *)

Module RetryStrategy.
Import ErrorHandler.

Definition DEFAULT_RETRY_OPTIONS : RetryOptions := {|
  maxAttempts := 5;
  baseDelay := 1000;
  jitter := 250;
  maxDelay := 16000;
  retryableErrors :=
    [SERVICE_UNAVAILABLE; TIMEOUT; NETWORK_ERROR; RATE_LIMIT_EXCEEDED; TOKEN_EXPIRED]
|}.

(** [{ ...DEFAULT_RETRY_OPTIONS, ...options }]. *)
Definition merge_options (options : PartialRetryOptions) : RetryOptions := {|
  maxAttempts := match p_maxAttempts options with Some v => v | None => maxAttempts DEFAULT_RETRY_OPTIONS end;
  baseDelay := match p_baseDelay options with Some v => v | None => baseDelay DEFAULT_RETRY_OPTIONS end;
  jitter := match p_jitter options with Some v => v | None => jitter DEFAULT_RETRY_OPTIONS end;
  maxDelay := match p_maxDelay options with Some v => v | None => maxDelay DEFAULT_RETRY_OPTIONS end;
  retryableErrors :=
    match p_retryableErrors options with Some v => v | None => retryableErrors DEFAULT_RETRY_OPTIONS end
|}.

(** [Math.random() * jitter * 2 - jitter] for the draw [r]. *)
Definition jitterAmount (r : Q) (jitter : Z) : Q :=
  (r * inject_Z jitter * 2 - inject_Z jitter)%Q.

(** The value of [baseDelay * Math.pow(2, attempt)]: an integer, or one of
    the values a double has beside the finite ones. *)
Inductive Exponential : Type :=
| Finite (z : Z)
| PlusInfinity
| MinusInfinity
| NotANumber.

(** [Math.pow(2, attempt)] is the exact power up to [attempt = 1023] and
    [Infinity] from 1024 on. *)
Definition Math_pow2 (attempt : nat) : Exponential :=
  if Z.of_nat attempt <? 1024 then Finite (2 ^ Z.of_nat attempt) else PlusInfinity.

(** [a * x]: an integer times [Infinity] is [Infinity] with the sign of
    the integer, and [0 * Infinity] is NaN.  A finite product is taken
    exactly; where the double overflows instead, the steps after it give
    the same result for every [maxDelay] and [jitter] a double holds. *)
Definition times (a : Z) (x : Exponential) : Exponential :=
  match x with
  | Finite z => Finite (a * z)
  | PlusInfinity =>
      if a =? 0 then NotANumber else if 0 <? a then PlusInfinity else MinusInfinity
  | MinusInfinity =>
      if a =? 0 then NotANumber else if 0 <? a then MinusInfinity else PlusInfinity
  | NotANumber => NotANumber
  end.

(** [calculateDelay]; [r] is the value [Math.random()] returns. *)
Definition calculateDelay (r : Q) (attempt : nat) (baseDelay jitter maxDelay : Z) : number :=
  let exponentialDelay := times baseDelay (Math_pow2 attempt) in
  let jitterAmount := jitterAmount r jitter in
  match exponentialDelay with
  | Finite e =>
      let cappedDelay := Z.min e maxDelay in
      let finalDelay := Math_max0 (inject_Z cappedDelay + jitterAmount)%Q in
      Int (Math_round finalDelay)
  | PlusInfinity =>
      (* [Math.min(Infinity, maxDelay)] is [maxDelay] *)
      let cappedDelay := maxDelay in
      let finalDelay := Math_max0 (inject_Z cappedDelay + jitterAmount)%Q in
      Int (Math_round finalDelay)
  | MinusInfinity =>
      (* the minimum and the sum are [-Infinity]; [Math.max(0, -Infinity)] is 0 *)
      Int 0
  | NotANumber =>
      (* NaN goes through [Math.min], [+], [Math.max] and [Math.round] *)
      NaN
  end.

Definition shouldRetry (error : Error) (attempt maxAttempts : Z)
    (retryableErrors : list ErrorCode) : bool :=
  if attempt >=? maxAttempts then false
  else if negb (isRetryableError error) then false
  else match error with
       | AppError _ code _ _ _ _ _ _ =>
           if (0 <? Z.of_nat (length retryableErrors))
           then existsb (ErrorCode_eqb code) retryableErrors
           else true
       | PlainError _ => true
       end.

(** [getRetryDelay]; [r] is the value [Math.random()] returns in the branch
    taken (each branch draws exactly once). *)
Definition getRetryDelay (r : Q) (error : Error) (attempt : nat) (options : RetryOptions) : number :=
  match getRetryAfter error with
  | Some (Int retryAfter) =>
      let delayMs := retryAfter * 1000 in
      Int (Math_round (inject_Z delayMs + jitterAmount r (jitter options))%Q)
  | Some NaN => NaN
  | None =>
      if isErrorCode error SERVICE_UNAVAILABLE then
        calculateDelay r attempt (baseDelay options) (jitter options) (maxDelay options)
      else if isErrorCode error TIMEOUT then
        calculateDelay r attempt (baseDelay options) (jitter options) (maxDelay options)
      else
        calculateDelay r attempt (baseDelay options) (jitter options) (maxDelay options)
  end.

(** What a run of [withRetry] does: how it settles, the delays it slept
    for, in order, and how many times it invoked the operation. *)
Record RetryRun (T : Type) : Type := {
  outcome : Outcome Error T;
  sleeps : list number;
  invocations : nat
}.
Arguments outcome {T} _.
Arguments sleeps {T} _.
Arguments invocations {T} _.

Section WithRetry.
Context {T : Type}.
(** [fn k] is how the [k]-th invocation of the wrapped operation settles
    (counting from 0); [rnd k] is the [k]-th value of [Math.random()]. *)
Variable fn : nat -> Outcome Error T.
Variable rnd : nat -> Q.
Variable opts : RetryOptions.

(** The [while (attempt < opts.maxAttempts)] loop of [withRetry] and the
    statement after it.  [attempt] and [lastError] are the loop variables;
    [fuel] bounds the number of iterations. *)
Fixpoint retryLoop (fuel : nat) (attempt : nat) (lastError : option Error)
    (slept : list number) : option (RetryRun T) :=
  if Z.of_nat attempt <? maxAttempts opts then
    match fuel with
    | O => None
    | S fuel' =>
        match fn attempt with
        | Returned result =>
            Some {| outcome := Returned result; sleeps := slept; invocations := S attempt |}
        | Thrown error =>
            let attempt' := S attempt in
            if negb (shouldRetry error (Z.of_nat attempt') (maxAttempts opts)
                       (retryableErrors opts))
            then Some {| outcome := Thrown error; sleeps := slept; invocations := attempt' |}
            else
              let delay := getRetryDelay (rnd attempt) error (attempt' - 1) opts in
              retryLoop fuel' attempt' (Some error) (slept ++ [delay])
        end
    end
  else
    Some {| outcome :=
              Thrown (MaxRetriesExceededError
                        ("Operation failed after " ++ show (maxAttempts opts) ++ " attempts")
                        (maxAttempts opts) lastError);
            sleeps := slept;
            invocations := attempt |}.

End WithRetry.

(** The body of [withRetry] once [opts] is built. *)
Definition withRetry_body {T : Type} (fn : nat -> Outcome Error T) (rnd : nat -> Q)
    (opts : RetryOptions) : option (RetryRun T) :=
  retryLoop fn rnd opts (Z.to_nat (maxAttempts opts)) 0 None [].

(** [withRetry(fn, options)]. *)
Definition withRetry {T : Type} (fn : nat -> Outcome Error T) (rnd : nat -> Q)
    (options : PartialRetryOptions) : option (RetryRun T) :=
  let opts := merge_options options in
  withRetry_body fn rnd opts.

End RetryStrategy.

(* ------------------------------------------------------------------ *)
(** ** api/ApiClient.ts *)

Module ApiClient.
Import ErrorHandler RetryStrategy.

(** The decoded JSON body, with the members the client reads from it. *)
Record JsonBody (T : Type) : Type := {
  value : T;
  error_message : string;   (* json.error?.message, empty when absent *)
  message : string;         (* json.message, empty when absent *)
  stringified : string      (* JSON.stringify(json) *)
}.
Arguments value {T} _.
Arguments error_message {T} _.
Arguments message {T} _.
Arguments stringified {T} _.

(** The [Response] of the injected transport. *)
Record Response (T : Type) : Type := {
  ok : bool;
  status : Z;
  statusText : string;
  headers_get : string -> option string;
  json : Outcome Error (JsonBody T);
  text : Outcome Error string
}.
Arguments ok {T} _.
Arguments status {T} _.
Arguments statusText {T} _.
Arguments headers_get {T} _.
Arguments json {T} _.
Arguments text {T} _.

(** *** [parseInt(s, 10)] *)

Definition is_space (c : ascii) : bool :=
  let n := nat_of_ascii c in
  (Nat.eqb n 32 || Nat.eqb n 9 || Nat.eqb n 10 || Nat.eqb n 11
   || Nat.eqb n 12 || Nat.eqb n 13)%bool.

Definition digit_of (c : ascii) : option Z :=
  let n := Z.of_nat (nat_of_ascii c) in
  if (48 <=? n) && (n <=? 57) then Some (n - 48) else None.

Fixpoint skip_spaces (s : string) : string :=
  match s with
  | String c rest => if is_space c then skip_spaces rest else s
  | EmptyString => s
  end.

(** The value of the longest prefix of decimal digits, if there is one. *)
Fixpoint digits (s : string) (acc : option Z) : option Z :=
  match s with
  | String c rest =>
      match digit_of c with
      | Some d => digits rest (Some (10 * match acc with Some a => a | None => 0 end + d))
      | None => acc
      end
  | EmptyString => acc
  end.

Definition parseInt (s : string) : number :=
  let s1 := skip_spaces s in
  let '(sign, s2) :=
    match s1 with
    | String "-"%char rest => (-1, rest)
    | String "+"%char rest => (1, rest)
    | _ => (1, s1)
    end in
  match digits s2 None with
  | Some v => Int (sign * v)
  | None => NaN
  end.

Section Client.
Context {T : Type}.
(** [new Date(s).getTime()]: the platform's date parser.  The [Date]
    constructor does not throw on a string it cannot read; it yields an
    invalid date whose time value is NaN. *)
Variable Date_getTime : string -> number.

(** [getRetryAfter(response)] at clock reading [now]. *)
Definition getRetryAfter (now : Z) (response : Response T) : number :=
  match headers_get response "retry-after" with
  | None => Int 60
  | Some EmptyString => Int 60
  | Some retryAfter =>
      match parseInt retryAfter with
      | Int seconds => Int seconds
      | NaN =>
          match Date_getTime retryAfter with
          | Int time =>
              let secondsUntil := (inject_Z (Z.max 0 (time - now)) / 1000)%Q in
              Int (Qceiling secondsUntil)
          | NaN => NaN
          end
      end
  end.

Definition getErrorBody (response : Response T) : string :=
  let contentType := headers_get response "content-type" in
  let isJson :=
    match contentType with
    | Some ct => includes ct "application/json"
    | None => false
    end in
  if isJson then
    match json response with
    | Returned j => or_string (or_string (error_message j) (message j)) (stringified j)
    | Thrown _ => statusText response
    end
  else
    match text response with
    | Returned t => t
    | Thrown _ => statusText response
    end.

Definition handleResponse (now : Z) (response : Response T) (url : string) : Outcome Error T :=
  if ok response then
    match json response with
    | Returned data => Returned (value data)
    | Thrown error =>
        Thrown (ApiError ("Failed to parse response: " ++ message_of error)
                  (Some (status response)) (Some error) None)
    end
  else
    let errorBody := getErrorBody response in
    if status response =? 401 then
      Thrown (TokenExpiredError "Authentication token expired")
    else if status response =? 429 then
      let retryAfter := getRetryAfter now response in
      Thrown (RateLimitError retryAfter (or_string errorBody "Rate limit exceeded"))
    else if status response =? 503 then
      let retryAfter := getRetryAfter now response in
      Thrown (ServiceUnavailableError
                (or_string errorBody "Service temporarily unavailable")
                (Some retryAfter))
    else
      Thrown (ApiError
                (or_string errorBody
                   ("HTTP " ++ show (status response) ++ ": " ++ statusText response))
                (Some (status response)) None
                (Some [("url"%string, CtxStr url); ("status"%string, CtxNum (status response))])).

(** One attempt, [executeRequest]: [token] is how [tokenManager.getToken()]
    settles and [fetched] how the transport call raced against the deadline
    settles.  Failures of those two are rewritten by the [catch]; what
    [handleResponse] throws is returned as a promise from inside the [try]
    and is not. *)
Definition executeRequest {Tok : Type} (now : Z) (url : string)
    (token : Outcome Error Tok) (fetched : Outcome Error (Response T)) : Outcome Error T :=
  let transform (error : Error) : Outcome Error T :=
    if includes (message_of error) "timeout" then
      Thrown (TimeoutError (message_of error) (Some [("url"%string, CtxStr url)]))
    else if includes (message_of error) "fetch failed"
            || includes (message_of error) "network" then
      Thrown (NetworkError ("Network error: " ++ message_of error) (Some error))
    else Thrown error in
  match token with
  | Thrown error => transform error
  | Returned _ =>
      match fetched with
      | Thrown error => transform error
      | Returned response => handleResponse now response url
      end
  end.

(** The retry policy [request] passes to [withRetry]. *)
Definition request_options : PartialRetryOptions := {|
  p_maxAttempts := Some 5;
  p_baseDelay := Some 1000;
  p_jitter := Some 250;
  p_maxDelay := Some 16000;
  p_retryableErrors := Some []
|}.

(** [request]: [attemptOutcome k] is how the [k]-th pass through the rate
    limiter and [executeRequest] settles. *)
Definition request (attemptOutcome : nat -> Outcome Error T) (rnd : nat -> Q)
    : option (RetryRun T) :=
  withRetry attemptOutcome rnd request_options.

End Client.

End ApiClient.

(* ------------------------------------------------------------------ *)
(** ** api/RateLimiter.ts *)

Module RateLimiter.

Record RateLimitConfig : Type := {
  maxRequests : Z;
  windowMs : Z
}.

Record RateLimitInfo : Type := {
  remaining : Z;
  resetAt : Z;
  total : Z
}.

(** A queued caller.  [id] stands for the closures [execute], [resolve]
    and [reject] of the caller it belongs to. *)
Record QueuedRequest : Type := {
  id : nat;
  priority : Z;
  timestamp : Z
}.

Record RateLimitState : Type := {
  requests : list Z;
  queue : list QueuedRequest
}.

(** Where the activation of [processQueue] is suspended, if there is one. *)
Inductive Drain : Type :=
| NotSuspended
| AwaitingReset (wake : Z)                  (* in the [setTimeout] of [waitForReset] *)
| AwaitingWork (request : QueuedRequest).  (* in [await request.execute()] *)

(** The object: its fields, the suspended drain, the clock reading of the
    last transition, and a log of the works started (request id, time). *)
Record RateLimiter : Type := {
  config : RateLimitConfig;
  state : RateLimitState;
  processing : bool;
  drain : Drain;
  clock : Z;
  started : list (nat * Z)
}.

Definition create (cfg : RateLimitConfig) : RateLimiter := {|
  config := cfg;
  state := {| requests := []; queue := [] |};
  processing := false;
  drain := NotSuspended;
  clock := 0;
  started := []
|}.

Definition set_requests (rs : list Z) (l : RateLimiter) : RateLimiter := {|
  config := config l;
  state := {| requests := rs; queue := queue (state l) |};
  processing := processing l;
  drain := drain l;
  clock := clock l;
  started := started l
|}.

Definition set_queue (q : list QueuedRequest) (l : RateLimiter) : RateLimiter := {|
  config := config l;
  state := {| requests := requests (state l); queue := q |};
  processing := processing l;
  drain := drain l;
  clock := clock l;
  started := started l
|}.

Definition set_drain (p : bool) (d : Drain) (l : RateLimiter) : RateLimiter := {|
  config := config l;
  state := state l;
  processing := p;
  drain := d;
  clock := clock l;
  started := started l
|}.

Definition log_start (i : nat) (now : Z) (l : RateLimiter) : RateLimiter := {|
  config := config l;
  state := state l;
  processing := processing l;
  drain := drain l;
  clock := clock l;
  started := started l ++ [(i, now)]
|}.

Definition set_clock (now : Z) (l : RateLimiter) : RateLimiter := {|
  config := config l;
  state := state l;
  processing := processing l;
  drain := drain l;
  clock := now;
  started := started l
|}.

(** [cleanOldRequests] at clock reading [now]. *)
Definition cleanOldRequests (now : Z) (l : RateLimiter) : RateLimiter :=
  let cutoff := now - windowMs (config l) in
  set_requests (filter (fun timestamp => cutoff <? timestamp) (requests (state l))) l.

Definition canMakeRequest (now : Z) (l : RateLimiter) : bool * RateLimiter :=
  let l1 := cleanOldRequests now l in
  (Z.of_nat (length (requests (state l1))) <? maxRequests (config l1), l1).

Definition recordRequest (now : Z) (l : RateLimiter) : RateLimiter :=
  set_requests (requests (state l) ++ [now]) l.

Definition getInfo (now : Z) (l : RateLimiter) : RateLimitInfo * RateLimiter :=
  let l1 := cleanOldRequests now l in
  let remaining :=
    Z.max 0 (maxRequests (config l1) - Z.of_nat (length (requests (state l1)))) in
  let oldestRequest :=
    match requests (state l1) with
    | t :: _ => if t =? 0 then now else t    (* [requests[0] || Date.now()] *)
    | [] => now
    end in
  let resetAt := oldestRequest + windowMs (config l1) in
  ({| remaining := remaining; resetAt := resetAt; total := maxRequests (config l1) |}, l1).

Definition getQueueLength (l : RateLimiter) : Z :=
  Z.of_nat (length (queue (state l))).

(** [waitForReset] up to its [await]: the time to sleep for, or [None]
    when it returns without sleeping. *)
Definition waitForReset (now : Z) (l : RateLimiter) : option Z * RateLimiter :=
  let '(info, l1) := getInfo now l in
  if 0 <? remaining info then (None, l1)
  else
    let waitTime := Z.max 0 (resetAt info - now) in
    if 0 <? waitTime then (Some waitTime, l1) else (None, l1).

(** The comparator given to [queue.sort]. *)
Definition compareRequests (a b : QueuedRequest) : Z :=
  if negb (priority a =? priority b) then priority b - priority a
  else timestamp a - timestamp b.

(** [Array.prototype.sort], which is stable. *)
Fixpoint insert_by {A : Type} (cmp : A -> A -> Z) (x : A) (l : list A) : list A :=
  match l with
  | [] => [x]
  | y :: l' => if cmp x y <=? 0 then x :: y :: l' else y :: insert_by cmp x l'
  end.

Definition sort_by {A : Type} (cmp : A -> A -> Z) (l : list A) : list A :=
  fold_right (insert_by cmp) [] l.

(** The pieces of [processQueue].  [processQueue_shift] is the part of the
    loop body from [queue.shift()] to the [await] on the work. *)
Definition processQueue_shift (now : Z) (l : RateLimiter) : RateLimiter :=
  match queue (state l) with
  | [] => set_drain false NotSuspended l          (* [break], then [processing = false] *)
  | request :: rest =>
      let l1 := set_queue rest l in
      let l2 := recordRequest now l1 in
      set_drain (processing l2) (AwaitingWork request) (log_start (id request) now l2)
  end.

(** From the loop test to the next suspension. *)
Definition processQueue_loop (now : Z) (l : RateLimiter) : RateLimiter :=
  match queue (state l) with
  | [] => set_drain false NotSuspended l
  | _ :: _ =>
      let '(can, l1) := canMakeRequest now l in
      if negb can then
        match waitForReset now l1 with
        | (Some waitTime, l2) => set_drain (processing l2) (AwaitingReset (now + waitTime)) l2
        | (None, l2) => processQueue_shift now l2
        end
      else processQueue_shift now l1
  end.

Definition processQueue (now : Z) (l : RateLimiter) : RateLimiter :=
  if processing l then l
  else processQueue_loop now (set_drain true (drain l) l).

Definition queueRequest (now : Z) (i : nat) (prio : Z) (l : RateLimiter) : RateLimiter :=
  let request := {| id := i; priority := prio; timestamp := now |} in
  let l1 := set_queue (sort_by compareRequests (queue (state l) ++ [request])) l in
  if negb (processing l1) then processQueue now l1 else l1.

(** [execute(fn, priority)] up to the point where the work is started or
    the caller is parked in the queue. *)
Definition execute (now : Z) (i : nat) (prio : Z) (l : RateLimiter) : RateLimiter :=
  let '(can, l1) := canMakeRequest now l in
  if can then log_start i now (recordRequest now l1)
  else queueRequest now i prio l1.

(** What the event loop can deliver to the limiter. *)
Inductive Event : Type :=
| Execute (now : Z) (i : nat) (prio : Z)   (* a caller invokes [execute] *)
| TimerFires (now : Z)                     (* the timer of [waitForReset] *)
| WorkSettles (now : Z).                   (* the awaited work of the drain *)

Definition time_of (e : Event) : Z :=
  match e with
  | Execute now _ _ => now
  | TimerFires now => now
  | WorkSettles now => now
  end.

(** One transition; [None] when the event cannot happen in this state:
    the clock does not go back, a timer does not fire before it is due,
    and only a suspended drain is resumed. *)
Definition step (l : RateLimiter) (e : Event) : option RateLimiter :=
  if time_of e <? clock l then None
  else
    let l0 := set_clock (time_of e) l in
    match e with
    | Execute now i prio => Some (execute now i prio l0)
    | TimerFires now =>
        match drain l0 with
        | AwaitingReset wake =>
            if wake <=? now then Some (processQueue_shift now l0) else None
        | _ => None
        end
    | WorkSettles now =>
        match drain l0 with
        | AwaitingWork _ => Some (processQueue_loop now l0)
        | _ => None
        end
    end.

Fixpoint run (l : RateLimiter) (trace : list Event) : option RateLimiter :=
  match trace with
  | [] => Some l
  | e :: rest =>
      match step l e with
      | Some l' => run l' rest
      | None => None
      end
  end.

(** The states the limiter built from [cfg] can be in. *)
Definition reachable (cfg : RateLimitConfig) (l : RateLimiter) : Prop :=
  exists trace, run (create cfg) trace = Some l.

(** The admission timestamps that survive pruning at [now], and their
    number. *)
Definition survivors (now : Z) (l : RateLimiter) : list Z :=
  requests (state (cleanOldRequests now l)).

Definition active_count (now : Z) (l : RateLimiter) : Z :=
  Z.of_nat (length (survivors now l)).

(** The sliding window itself, stated without the pruning: an admission
    at [timestamp] is inside the window at [now] when less than the window
    duration has passed since. *)
Definition inside_window (window now timestamp : Z) : bool :=
  now - timestamp <? window.

(** How many of [timestamps] are inside the window at [now]. *)
Fixpoint count_inside_window (window now : Z) (timestamps : list Z) : Z :=
  match timestamps with
  | [] => 0
  | timestamp :: rest =>
      (if inside_window window now timestamp then 1 else 0)
      + count_inside_window window now rest
  end.

(** Every element is at most every later one. *)
Fixpoint ascending (ts : list Z) : Prop :=
  match ts with
  | [] => True
  | t :: rest => (forall u, In u rest -> t <= u) /\ ascending rest
  end.

(** What holds of the limiter built from [cfg] in all its states: the
    configuration is the one given, and the timestamps are in the order
    they were recorded in, none later than the clock. *)
Definition well_formed (cfg : RateLimitConfig) (l : RateLimiter) : Prop :=
  config l = cfg
  /\ ascending (requests (state l))
  /\ (forall t, In t (requests (state l)) -> t <= clock l).

End RateLimiter.

(* ------------------------------------------------------------------ *)
(** ** auth/TokenManager.ts *)

Module TokenManager.
Import ErrorHandler RetryStrategy.

Record Token : Type := {
  access_token : string;
  token_type : string;
  expires_in : Z;
  issued_at : Z
}.

Record AuthResponse : Type := {
  r_access_token : string;
  r_token_type : string;
  r_expires_in : Z
}.

Definition TOKEN_REFRESH_BUFFER_SECONDS : Z := 300.

(** [TokenRefreshState]; the promise is named by the activation of
    [acquireToken] that it belongs to. *)
Record TokenRefreshState : Type := {
  isRefreshing : bool;
  promise : option nat
}.

(** An activation of [acquireToken] that has not settled.  [byRefresh]
    tells whether [refreshToken] started it (and runs its [finally] when it
    settles) or [getToken] called [acquireToken] directly. *)
Record Acquisition : Type := {
  acq : nat;
  byRefresh : bool
}.

(** What a call hands to its caller: the token at once, or the promise of
    an acquisition. *)
Inductive Reply : Type :=
| Ready (t : Token)
| Awaits (k : nat).

(** The object with the bookkeeping of the event loop: the acquisitions in
    flight (each issued its POST to the authentication endpoint when it was
    started), the replies given to callers and the acquisitions settled. *)
Record TokenManager : Type := {
  token : option Token;
  refreshState : TokenRefreshState;
  inflight : list Acquisition;
  fresh : nat;
  replies : list (nat * Reply);
  settled : list (nat * Outcome Error Token)
}.

Definition create : TokenManager := {|
  token := None;
  refreshState := {| isRefreshing := false; promise := None |};
  inflight := [];
  fresh := 0%nat;
  replies := [];
  settled := []
|}.

Definition isTokenExpired (nowMs : Z) (m : TokenManager) : bool :=
  match token m with
  | None => true
  | Some t =>
      let now := nowMs / 1000 in
      let expiryTime := issued_at t + expires_in t in
      now >=? expiryTime
  end.

Definition needsRefresh (nowMs : Z) (m : TokenManager) : bool :=
  match token m with
  | None => true
  | Some t =>
      let now := nowMs / 1000 in
      let expiryTime := issued_at t + expires_in t in
      let refreshTime := expiryTime - TOKEN_REFRESH_BUFFER_SECONDS in
      now >=? refreshTime
  end.

Definition isTokenValid (nowMs : Z) (m : TokenManager) : bool :=
  match token m with
  | None => false
  | Some _ => negb (isTokenExpired nowMs m)
  end.

Definition clearToken (m : TokenManager) : TokenManager := {|
  token := None;
  refreshState := refreshState m;
  inflight := inflight m;
  fresh := fresh m;
  replies := replies m;
  settled := settled m
|}.

(** The outcome of the POST as [authenticateWithApi] sees it. *)
Inductive AuthFetch : Type :=
| AuthOk (r : AuthResponse)
| AuthNotOk (status : Z) (errorText : string)
| AuthThrows (error : Error).

Definition isAuthError (error : Error) : bool :=
  match error with
  | AppError name _ _ _ _ _ _ _ => String.eqb name "AuthError"
  | PlainError _ => false
  end.

(** [authenticateWithApi]; [nowMs] is the clock when the response is read. *)
Definition authenticateWithApi (response : AuthFetch) (nowMs : Z) : Outcome Error Token :=
  match response with
  | AuthOk authResponse =>
      Returned {| access_token := r_access_token authResponse;
                  token_type := r_token_type authResponse;
                  expires_in := r_expires_in authResponse;
                  issued_at := nowMs / 1000 |}
  | AuthNotOk status errorText =>
      Thrown (AuthError ("Authentication failed: " ++ show status ++ " " ++ errorText) None)
  | AuthThrows error =>
      if isAuthError error then Thrown error
      else Thrown (AuthError ("Network error during authentication: " ++ message_of error)
                     (Some error))
  end.

(** The retry policy [acquireToken] passes to [withRetry]. *)
Definition acquire_options : PartialRetryOptions := {|
  p_maxAttempts := Some 3;
  p_baseDelay := Some 1000;
  p_jitter := Some 250;
  p_maxDelay := Some 5000;
  p_retryableErrors := Some []
|}.

(** [acquireToken], first part: the activation is created and its POST
    issued. *)
Definition acquireToken_start (viaRefresh : bool) (m : TokenManager) : nat * TokenManager :=
  let k := fresh m in
  (k, {| token := token m;
         refreshState := refreshState m;
         inflight := inflight m ++ [{| acq := k; byRefresh := viaRefresh |}];
         fresh := S k;
         replies := replies m;
         settled := settled m |}).

(** [acquireToken], second part: [withRetry] has settled with [attempt]. *)
Definition acquireToken_finish (attempt : Outcome Error Token) (m : TokenManager)
    : Outcome Error Token * TokenManager :=
  match attempt with
  | Returned t =>
      (Returned t,
       {| token := Some t;
          refreshState := refreshState m;
          inflight := inflight m;
          fresh := fresh m;
          replies := replies m;
          settled := settled m |})
  | Thrown error =>
      (Thrown (AuthError "Failed to authenticate with API" (Some error)), m)
  end.

(** [refreshToken] up to its [await]. *)
Definition refreshToken (m : TokenManager) : Reply * TokenManager :=
  match isRefreshing (refreshState m), promise (refreshState m) with
  | true, Some p => (Awaits p, m)
  | _, _ =>
      let '(k, m1) := acquireToken_start true m in
      (Awaits k,
       {| token := token m1;
          refreshState := {| isRefreshing := true; promise := Some k |};
          inflight := inflight m1;
          fresh := fresh m1;
          replies := replies m1;
          settled := settled m1 |})
  end.

(** The [finally] of [refreshToken]. *)
Definition refreshToken_finally (m : TokenManager) : TokenManager := {|
  token := token m;
  refreshState := {| isRefreshing := false; promise := None |};
  inflight := inflight m;
  fresh := fresh m;
  replies := replies m;
  settled := settled m
|}.

(** [getToken] up to the point where it returns or awaits. *)
Definition getToken (nowMs : Z) (m : TokenManager) : Reply * TokenManager :=
  match isRefreshing (refreshState m), promise (refreshState m) with
  | true, Some p => (Awaits p, m)
  | _, _ =>
      match token m with
      | None =>
          let '(k, m1) := acquireToken_start false m in (Awaits k, m1)
      | Some t =>
          if isTokenExpired nowMs m then refreshToken m
          else if needsRefresh nowMs m then refreshToken m
          else (Ready t, m)
      end
  end.

Definition add_reply (caller : nat) (r : Reply) (m : TokenManager) : TokenManager := {|
  token := token m;
  refreshState := refreshState m;
  inflight := inflight m;
  fresh := fresh m;
  replies := replies m ++ [(caller, r)];
  settled := settled m
|}.

Definition find_acquisition (k : nat) (m : TokenManager) : option Acquisition :=
  find (fun a => Nat.eqb (acq a) k) (inflight m).

(** The activation [k] settles: [withRetry] finished with [attempt]. *)
Definition settle (k : nat) (attempt : Outcome Error Token) (m : TokenManager)
    : option TokenManager :=
  match find_acquisition k m with
  | None => None
  | Some a =>
      let '(result, m1) := acquireToken_finish attempt m in
      let m2 := if byRefresh a then refreshToken_finally m1 else m1 in
      Some {| token := token m2;
              refreshState := refreshState m2;
              inflight := filter (fun b => negb (Nat.eqb (acq b) k)) (inflight m2);
              fresh := fresh m2;
              replies := replies m2;
              settled := settled m2 ++ [(k, result)] |}
  end.

(** What the event loop can deliver to the manager.  In [Settles],
    [script j] is the outcome of the [j]-th POST of the activation with the
    clock at that moment, and [rnd] the values of [Math.random()]. *)
Inductive Event : Type :=
| GetToken (caller : nat) (nowMs : Z)
| RefreshToken (caller : nat)
| Settles (k : nat) (script : nat -> AuthFetch * Z) (rnd : nat -> Q).

(** How [withRetry(() => this.authenticateWithApi(), ...)] settles. *)
Definition acquisition_attempt (script : nat -> AuthFetch * Z) (rnd : nat -> Q)
    : option (Outcome Error Token) :=
  option_map outcome
    (withRetry (fun j => authenticateWithApi (fst (script j)) (snd (script j)))
       rnd acquire_options).

Definition step (m : TokenManager) (e : Event) : option TokenManager :=
  match e with
  | GetToken caller nowMs =>
      let '(r, m1) := getToken nowMs m in Some (add_reply caller r m1)
  | RefreshToken caller =>
      let '(r, m1) := refreshToken m in Some (add_reply caller r m1)
  | Settles k script rnd =>
      match acquisition_attempt script rnd with
      | Some attempt => settle k attempt m
      | None => None
      end
  end.

Fixpoint run (m : TokenManager) (trace : list Event) : option TokenManager :=
  match trace with
  | [] => Some m
  | e :: rest =>
      match step m e with
      | Some m' => run m' rest
      | None => None
      end
  end.

(** What the caller ends up with, once the promise it awaits has settled. *)
Definition received (caller : nat) (m : TokenManager) : option (Outcome Error Token) :=
  match find (fun p => Nat.eqb (fst p) caller) (replies m) with
  | Some (_, Ready t) => Some (Returned t)
  | Some (_, Awaits k) =>
      option_map snd (find (fun p => Nat.eqb (fst p) k) (settled m))
  | None => None
  end.

End TokenManager.

(* ------------------------------------------------------------------ *)
(** ** sync/CampaignWorker.ts and sync/SyncOrchestrator.ts *)

Record Campaign : Type := {
  c_id : string;
  c_name : string
}.

Record SyncResult : Type := {
  campaignId : string;
  success : bool;
  error : option Error;
  retries : Z;
  duration : Z
}.

Record Failure : Type := {
  f_campaignId : string;
  f_error : string
}.

Record SyncReport : Type := {
  startTime : Z;
  endTime : Z;
  rep_duration : Z;
  totalCampaigns : Z;
  successCount : Z;
  failureCount : Z;
  retryCount : Z;
  results : list SyncResult;
  failures : list Failure
}.

Module CampaignWorker.

Section Worker.
(** The world the injected functions act on, with the clock. *)
Variable World : Type.
Variable Date_now : World -> Z * World.

(** An [async] computation: it settles and leaves a world behind. *)
Definition Async (A : Type) : Type := World -> Outcome Error A * World.

Definition ret {A : Type} (a : A) : Async A := fun w => (Returned a, w).

Definition bind {A B : Type} (m : Async A) (k : A -> Async B) : Async B :=
  fun w =>
    match m w with
    | (Returned a, w') => k a w'
    | (Thrown e, w') => (Thrown e, w')
    end.

(** [try { body } catch (error) { handler }]. *)
Definition try_catch {A : Type} (body : Async A) (handler : Error -> Async A) : Async A :=
  fun w =>
    match body w with
    | (Returned a, w') => (Returned a, w')
    | (Thrown e, w') => handler e w'
    end.

Definition now : Async Z := fun w => let '(t, w') := Date_now w in (Returned t, w').

Notation "x <- m ;; k" := (bind m (fun x => k))
  (at level 61, m at next level, right associativity).

(** [SyncWorkerDependencies]. *)
Variable syncCampaignFn : string -> Async unit.
Variable saveCampaignFn : Campaign -> Async unit.

Definition syncCampaign (campaign : Campaign) : Async SyncResult :=
  startTime <- now ;;
  let retries := 0 in
  try_catch
    (_ <- syncCampaignFn (c_id campaign) ;;
     _ <- saveCampaignFn campaign ;;
     t <- now ;;
     let duration := t - startTime in
     ret {| campaignId := c_id campaign;
            success := true;
            error := None;
            retries := retries;
            duration := duration |})
    (fun err =>
       t <- now ;;
       let duration := t - startTime in
       ret {| campaignId := c_id campaign;
              success := false;
              error := Some err;
              retries := retries;
              duration := duration |}).

(** [syncCampaigns]: the [for] loop that pushes each result. *)
Fixpoint syncCampaigns_from (campaigns : list Campaign) (acc : list SyncResult)
    : Async (list SyncResult) :=
  match campaigns with
  | [] => ret acc
  | campaign :: rest =>
      result <- syncCampaign campaign ;;
      syncCampaigns_from rest (acc ++ [result])
  end.

Definition syncCampaigns (campaigns : list Campaign) : Async (list SyncResult) :=
  syncCampaigns_from campaigns [].

End Worker.

End CampaignWorker.

Module SyncOrchestrator.

Definition generateReport (startTime endTime totalCampaigns : Z)
    (results : list SyncResult) : SyncReport :=
  let duration := endTime - startTime in
  let successCount := Z.of_nat (length (filter (fun r => success r) results)) in
  let failureCount := Z.of_nat (length (filter (fun r => negb (success r)) results)) in
  let retryCount := fold_left (fun sum r => sum + retries r) results 0 in
  let failures :=
    map (fun r => {| f_campaignId := campaignId r;
                     f_error := or_string
                                  (match error r with
                                   | Some e => message_of e
                                   | None => EmptyString
                                   end)
                                  "Unknown error" |})
        (filter (fun r => negb (success r)) results) in
  {| startTime := startTime;
     endTime := endTime;
     rep_duration := duration;
     totalCampaigns := totalCampaigns;
     successCount := successCount;
     failureCount := failureCount;
     retryCount := retryCount;
     results := results;
     failures := failures |}.

End SyncOrchestrator.

(* ------------------------------------------------------------------ *)
(** ** Stubbed collaborators used in the scenarios *)

Module Stubs.
Import ErrorHandler RetryStrategy ApiClient.

(** A failing response that carries the given [Retry-After] header and an
    empty body. *)
Definition response_with_retry_after (st : Z) (header : option string) : Response unit := {|
  ok := false;
  status := st;
  statusText := "";
  headers_get := fun name => if String.eqb name "retry-after" then header else None;
  json := Thrown (PlainError "Unexpected end of JSON input");
  text := Returned ""%string
|}.

Definition response_200 : Response unit := {|
  ok := true;
  status := 200;
  statusText := "OK";
  headers_get := fun _ => None;
  json := Returned {| value := tt; error_message := ""; message := ""; stringified := "{}" |};
  text := Returned "{}"%string
|}.

(** The transport that answers 503 without [Retry-After] four times and
    then 200. *)
Definition four_503_then_200 (k : nat) : Response unit :=
  if (k <? 4)%nat then response_with_retry_after 503 None else response_200.

(** The policy [base = 100, jitter = 0, max = 1600] with five attempts. *)
Definition policy_100_0_1600 : PartialRetryOptions := {|
  p_maxAttempts := Some 5;
  p_baseDelay := Some 100;
  p_jitter := Some 0;
  p_maxDelay := Some 1600;
  p_retryableErrors := Some []
|}.

(** Authentication endpoints: one that answers with a token of the given
    access string at second [at], one that always answers 500. *)
Definition endpoint_grants (access : string) (at_s : Z)
    : nat -> TokenManager.AuthFetch * Z :=
  fun _ => (TokenManager.AuthOk
              {| TokenManager.r_access_token := access;
                 TokenManager.r_token_type := "Bearer";
                 TokenManager.r_expires_in := 3600 |},
            at_s * 1000).

Definition endpoint_down (at_s : Z) : nat -> TokenManager.AuthFetch * Z :=
  fun _ => (TokenManager.AuthNotOk 500 "Internal Server Error", at_s * 1000).

Definition token_of (access : string) (at_s : Z) : TokenManager.Token := {|
  TokenManager.access_token := access;
  TokenManager.token_type := "Bearer";
  TokenManager.expires_in := 3600;
  TokenManager.issued_at := at_s
|}.

(** What [acquireToken] throws when the endpoint is down. *)
Definition endpoint_down_error : Error :=
  AuthError "Failed to authenticate with API"
    (Some (AuthError "Authentication failed: 500 Internal Server Error" None)).

End Stubs.

(* ------------------------------------------------------------------ *)
(** ** utils/helpers.ts *)

Module Helpers.

(** [array.slice(start, end)]: a negative index counts from the end, and
    both are clamped to the array. *)
Definition slice {T : Type} (array : list T) (start stop : Z) : list T :=
  let len := Z.of_nat (length array) in
  let from := if start <? 0 then Z.max (len + start) 0 else Z.min start len in
  let to := if stop <? 0 then Z.max (len + stop) 0 else Z.min stop len in
  firstn (Z.to_nat (to - from)) (skipn (Z.to_nat from) array).

(** The [for (let i = 0; i < array.length; i += size)] loop of [chunk];
    [fuel] bounds the number of iterations. *)
Fixpoint chunk_loop {T : Type} (fuel : nat) (array : list T) (size i : Z)
    (chunks : list (list T)) : option (list (list T)) :=
  if i <? Z.of_nat (length array) then
    match fuel with
    | O => None
    | S fuel' => chunk_loop fuel' array size (i + size) (chunks ++ [slice array i (i + size)])
    end
  else Some chunks.

(** [chunk(array, size)], run for at most [fuel] iterations. *)
Definition chunk {T : Type} (fuel : nat) (array : list T) (size : Z) : option (list (list T)) :=
  chunk_loop fuel array size 0 [].

Definition clamp (value min max : Z) : Z := Z.min (Z.max value min) max.

Definition percentage (value total : Z) : Z :=
  if total =? 0 then 0
  else Math_round (inject_Z value / inject_Z total * 100)%Q.

(** [str.substring(0, n)]: a negative [n] counts as 0. *)
Definition substring0 (n : Z) (str : string) : string :=
  String.substring 0 (Z.to_nat n) str.

Definition truncate (str : string) (maxLength : Z) (suffix : string) : string :=
  if Z.of_nat (String.length str) <=? maxLength then str
  else substring0 (maxLength - Z.of_nat (String.length suffix)) str ++ suffix.

(** What a run of [retryWithDelay] does. *)
Record DelayRun (T : Type) : Type := {
  d_outcome : Outcome Error T;
  d_sleeps : list Z;
  d_invocations : nat
}.
Arguments d_outcome {T} _.
Arguments d_sleeps {T} _.
Arguments d_invocations {T} _.

(** [retryWithDelay(fn, retries, delayMs)] for an integer [retries];
    [fn k] is how the [k]-th invocation settles.  [budget] is
    [max(retries, 0)], the number of times the function may still call
    itself, and [k] the number of invocations made so far. *)
Fixpoint retryWithDelay_from {T : Type} (fn : nat -> Outcome Error T) (delayMs : Z)
    (budget k : nat) (slept : list Z) : DelayRun T :=
  match fn k with
  | Returned v => {| d_outcome := Returned v; d_sleeps := slept; d_invocations := S k |}
  | Thrown error =>
      match budget with
      | O => {| d_outcome := Thrown error; d_sleeps := slept; d_invocations := S k |}
      | S budget' => retryWithDelay_from fn delayMs budget' (S k) (slept ++ [delayMs])
      end
  end.

Definition retryWithDelay {T : Type} (fn : nat -> Outcome Error T) (retries delayMs : Z)
    : DelayRun T :=
  retryWithDelay_from fn delayMs (Z.to_nat retries) 0 [].

End Helpers.

(* ------------------------------------------------------------------ *)
(** ** utils/RetryStrategy.ts: the manual retry context *)

Module RetryContexts.
Import ErrorHandler RetryStrategy.

Record RetryContext : Type := {
  attempt : nat;
  ctx_maxAttempts : Z;
  lastError : Error;
  nextDelay : number
}.

Definition createRetryContext (maxAttempts : Z) (lastError : Error) : RetryContext := {|
  attempt := 0;
  ctx_maxAttempts := maxAttempts;
  lastError := lastError;
  nextDelay := Int 0
|}.

(** [updateRetryContext]; [r] is the value [Math.random()] returns. *)
Definition updateRetryContext (r : Q) (context : RetryContext) (error : Error)
    (options : RetryOptions) : RetryContext :=
  let nextAttempt := S (attempt context) in
  let nextDelay := getRetryDelay r error nextAttempt options in
  {| attempt := nextAttempt;
     ctx_maxAttempts := ctx_maxAttempts context;
     lastError := error;
     nextDelay := nextDelay |}.

Definition shouldContinueRetry (context : RetryContext) (retryableErrors : list ErrorCode)
    : bool :=
  shouldRetry (lastError context) (Z.of_nat (attempt context)) (ctx_maxAttempts context)
    retryableErrors.

(** The context after one update per failure in [failures] (each with its
    own draw), starting from [context]. *)
Fixpoint update_all (context : RetryContext) (failures : list (Q * Error))
    (options : RetryOptions) : RetryContext :=
  match failures with
  | [] => context
  | (r, error) :: rest => update_all (updateRetryContext r context error options) rest options
  end.

End RetryContexts.

(* ------------------------------------------------------------------ *)
(** ** api/RateLimiter.ts: notions used to state its properties *)

Module RateLimiterViews.
Import RateLimiter.

(** [a] is not sorted after [b] by the comparator of [queueRequest]. *)
Definition precedes (a b : QueuedRequest) : Prop := compareRequests a b <= 0.

(** Every queued request precedes the ones behind it. *)
Fixpoint ordered (q : list QueuedRequest) : Prop :=
  match q with
  | [] => True
  | a :: rest => (forall b, In b rest -> precedes a b) /\ ordered rest
  end.

(** Along [trace] from [l], every timer of the drain fires at a moment at
    which the limiter can admit a request. *)
Fixpoint timers_find_slot (l : RateLimiter) (trace : list Event) : Prop :=
  match trace with
  | [] => True
  | e :: rest =>
      match e with
      | TimerFires now => fst (canMakeRequest now l) = true
      | _ => True
      end
      /\ match step l e with
         | Some l' => timers_find_slot l' rest
         | None => True
         end
  end.

End RateLimiterViews.

(* ------------------------------------------------------------------ *)
(** ** auth/TokenManager.ts: the expiry accessors *)

Module TokenExpiry.
Import TokenManager.

(** [getExpiryTime], as the time value of the [Date] it returns. *)
Definition getExpiryTime (m : TokenManager) : option Z :=
  match token m with
  | None => None
  | Some t =>
      let expiryTimestamp := (issued_at t + expires_in t) * 1000 in
      Some expiryTimestamp
  end.

Definition getTimeUntilExpiry (nowMs : Z) (m : TokenManager) : option Z :=
  match getExpiryTime m with
  | None => None
  | Some expiryTime => Some (expiryTime - nowMs)
  end.

(** The events that are calls of [getToken] or [refreshToken]. *)
Definition is_call (e : Event) : Prop :=
  match e with
  | GetToken _ _ | RefreshToken _ => True
  | Settles _ _ _ => False
  end.

Definition caller_of (e : Event) : nat :=
  match e with
  | GetToken caller _ | RefreshToken caller => caller
  | Settles k _ _ => k
  end.

End TokenExpiry.

(* ------------------------------------------------------------------ *)
(** ** sync/ConcurrencyQueue.ts *)

Module ConcurrencyQueue.

(** A queued task.  [id] stands for the closure to run and the promise to
    settle; [arrival] is the position of the [add] call that queued it,
    kept to tell in which order tasks arrived. *)
Record QueueTask : Type := {
  id : nat;
  priority : Z;
  arrival : nat
}.

Record QueueStats : Type := {
  pending : Z;
  active : Z;
  completed : Z;
  failed : Z
}.

(** The object, with the bookkeeping of the event loop: the tasks started
    and not yet settled, the tasks started so far in the order they were
    started, and the number of [add] calls. *)
Record ConcurrencyQueue : Type := {
  maxConcurrent : Z;
  queue : list QueueTask;
  active_count : Z;
  stats : QueueStats;
  running : list QueueTask;
  startOrder : list QueueTask;
  arrivals : nat
}.

(** The constructor, which rejects a bound below 1. *)
Definition create (maxConcurrent : Z) : Outcome Error ConcurrencyQueue :=
  if maxConcurrent <? 1 then Thrown (PlainError "maxConcurrent must be at least 1")
  else Returned {| maxConcurrent := maxConcurrent;
                   queue := [];
                   active_count := 0;
                   stats := {| pending := 0; active := 0; completed := 0; failed := 0 |};
                   running := [];
                   startOrder := [];
                   arrivals := 0 |}.

(** The comparator of [sortQueue]. *)
Definition comparePriority (a b : QueueTask) : Z := priority b - priority a.

(** [processNext], which calls itself after each task it starts: the
    queue left, the new [active], the new [stats] and the tasks started,
    in order. *)
Fixpoint processNext_go (maxConcurrent : Z) (q : list QueueTask) (act : Z)
    (st : QueueStats) (started : list QueueTask)
    : list QueueTask * Z * QueueStats * list QueueTask :=
  match q with
  | [] => (q, act, st, started)
  | task :: rest =>
      if act >=? maxConcurrent then (q, act, st, started)
      else
        let act' := act + 1 in
        let st' := {| pending := Z.of_nat (length rest);
                      active := act';
                      completed := completed st;
                      failed := failed st |} in
        processNext_go maxConcurrent rest act' st' (started ++ [task])
  end.

Definition processNext (c : ConcurrencyQueue) : ConcurrencyQueue :=
  let '(q, act, st, started) :=
    processNext_go (maxConcurrent c) (queue c) (active_count c) (stats c) [] in
  {| maxConcurrent := maxConcurrent c;
     queue := q;
     active_count := act;
     stats := st;
     running := running c ++ started;
     startOrder := startOrder c ++ started;
     arrivals := arrivals c |}.

(** [add(task, priority)] up to the point where it returns its promise. *)
Definition add (i : nat) (prio : Z) (c : ConcurrencyQueue) : ConcurrencyQueue :=
  let task := {| id := i; priority := prio; arrival := arrivals c |} in
  let q := RateLimiter.sort_by comparePriority (queue c ++ [task]) in
  processNext
    {| maxConcurrent := maxConcurrent c;
       queue := q;
       active_count := active_count c;
       stats := {| pending := Z.of_nat (length q);
                   active := active (stats c);
                   completed := completed (stats c);
                   failed := failed (stats c) |};
       running := running c;
       startOrder := startOrder c;
       arrivals := S (arrivals c) |}.

(** The first element that satisfies [f] is taken out. *)
Fixpoint remove_first {A : Type} (f : A -> bool) (l : list A) : list A :=
  match l with
  | [] => []
  | x :: rest => if f x then rest else x :: remove_first f rest
  end.

(** The wrapped task of [add] after its [await]: the counter for the way
    the task settled, then the [finally]. *)
Definition finish (i : nat) (succeeded : bool) (c : ConcurrencyQueue) : ConcurrencyQueue :=
  let st := stats c in
  let st1 := if succeeded
             then {| pending := pending st; active := active st;
                     completed := completed st + 1; failed := failed st |}
             else {| pending := pending st; active := active st;
                     completed := completed st; failed := failed st + 1 |} in
  let act := active_count c - 1 in
  processNext
    {| maxConcurrent := maxConcurrent c;
       queue := queue c;
       active_count := act;
       stats := {| pending := pending st1; active := act;
                   completed := completed st1; failed := failed st1 |};
       running := remove_first (fun t => Nat.eqb (id t) i) (running c);
       startOrder := startOrder c;
       arrivals := arrivals c |}.

Definition clear (c : ConcurrencyQueue) : ConcurrencyQueue :=
  {| maxConcurrent := maxConcurrent c;
     queue := [];
     active_count := active_count c;
     stats := {| pending := 0; active := active (stats c);
                 completed := completed (stats c); failed := failed (stats c) |};
     running := running c;
     startOrder := startOrder c;
     arrivals := arrivals c |}.

Definition getStats (c : ConcurrencyQueue) : QueueStats := stats c.
Definition getQueueLength (c : ConcurrencyQueue) : Z := Z.of_nat (length (queue c)).
Definition getActiveCount (c : ConcurrencyQueue) : Z := active_count c.
Definition isIdle (c : ConcurrencyQueue) : bool :=
  (active_count c =? 0) && (Z.of_nat (length (queue c)) =? 0).

(** What the event loop can deliver to the queue: a call of [add], the
    settling of a task that was started, a call of [clear].  Tasks are
    asynchronous: a task that is started does not call back into the queue
    before [processNext] has returned. *)
Inductive Event : Type :=
| Add (i : nat) (prio : Z)
| Finishes (i : nat) (succeeded : bool)
| Clear.

Definition step (c : ConcurrencyQueue) (e : Event) : option ConcurrencyQueue :=
  match e with
  | Add i prio => Some (add i prio c)
  | Finishes i succeeded =>
      if existsb (fun t => Nat.eqb (id t) i) (running c)
      then Some (finish i succeeded c)
      else None
  | Clear => Some (clear c)
  end.

Fixpoint run (c : ConcurrencyQueue) (trace : list Event) : option ConcurrencyQueue :=
  match trace with
  | [] => Some c
  | e :: rest =>
      match step c e with
      | Some c' => run c' rest
      | None => None
      end
  end.

(** The states of a queue constructed with the bound [n]. *)
Definition reachable (n : Z) (c : ConcurrencyQueue) : Prop :=
  exists c0 trace, create n = Returned c0 /\ run c0 trace = Some c.

(** The order of the queue: a task is ahead of every task of lower
    priority, and of every task of its own priority that arrived later. *)
Fixpoint in_line (q : list QueueTask) : Prop :=
  match q with
  | [] => True
  | a :: rest =>
      (forall b, In b rest ->
         priority b < priority a
         \/ (priority b = priority a /\ (arrival a < arrival b)%nat))
      /\ in_line rest
  end.

(** What holds in every state of the queue. *)
Record invariant (c : ConcurrencyQueue) : Prop := {
  inv_bound : 1 <= maxConcurrent c;
  inv_running : active_count c = Z.of_nat (length (running c));
  inv_active : active_count c <= maxConcurrent c;
  inv_stats_active : active (stats c) = active_count c;
  inv_stats_pending : pending (stats c) = Z.of_nat (length (queue c));
  inv_busy : queue c = [] \/ active_count c = maxConcurrent c;
  inv_settled : 0 <= completed (stats c) /\ 0 <= failed (stats c);
  inv_started :
    completed (stats c) + failed (stats c) + active_count c
    = Z.of_nat (length (startOrder c));
  inv_line : in_line (queue c);
  inv_arrivals : forall t, In t (queue c) -> (arrival t < arrivals c)%nat
}.

End ConcurrencyQueue.

(* ------------------------------------------------------------------ *)
(** ** api/CampaignService.ts *)

Module CampaignService.

(** [PaginatedResponse<Campaign>]. *)
Record Page : Type := {
  data : list Campaign;
  has_more : bool;
  total : Z
}.

Record SyncResponse : Type := {
  s_success : bool;
  s_campaign_id : string;
  s_synced_at : string;
  s_message : string     (* empty when absent *)
}.

(** The [while (hasMore)] loop of [fetchAllCampaigns]; [fetch p] is how
    [fetchCampaignsPage(p, perPage)] settles and [fuel] bounds the number
    of iterations. *)
Fixpoint fetchAll_loop (fuel : nat) (fetch : Z -> Outcome Error Page)
    (currentPage : Z) (allCampaigns : list Campaign)
    : option (Outcome Error (list Campaign)) :=
  match fuel with
  | O => None
  | S fuel' =>
      match fetch currentPage with
      | Thrown error => Some (Thrown error)
      | Returned response =>
          let allCampaigns' := allCampaigns ++ data response in
          if has_more response
          then fetchAll_loop fuel' fetch (currentPage + 1) allCampaigns'
          else Some (Returned allCampaigns')
      end
  end.

(** [fetchAllCampaigns], run for at most [fuel] pages. *)
Definition fetchAllCampaigns (fuel : nat) (fetch : Z -> Outcome Error Page)
    : option (Outcome Error (list Campaign)) :=
  fetchAll_loop fuel fetch 1 [].

(** [syncCampaign]; [posted] is how the POST through the client settles. *)
Definition syncCampaign (posted : Outcome Error SyncResponse) (campaignId : string)
    : Outcome Error SyncResponse :=
  match posted with
  | Thrown error => Thrown error
  | Returned response =>
      if negb (s_success response)
      then Thrown (PlainError (or_string (s_message response)
                                 ("Failed to sync campaign " ++ campaignId)))
      else Returned response
  end.

(** The pages [first], [first + 1], ..., [first + count - 1]. *)
Fixpoint page_numbers (first : Z) (count : nat) : list Z :=
  match count with
  | O => []
  | S count' => first :: page_numbers (first + 1) count'
  end.

(** The campaigns of the given pages, in page order. *)
Definition campaigns_of (fetch : Z -> Outcome Error Page) (pages : list Z) : list Campaign :=
  flat_map (fun p => match fetch p with
                     | Returned response => data response
                     | Thrown _ => []
                     end) pages.

End CampaignService.

(* ------------------------------------------------------------------ *)
(** ** config.ts *)

Module Config.
Import ApiClient.

Inductive LogLevel : Type := DEBUG | INFO | WARN | ERROR.

Inductive LogFormat : Type := text_format | json_format.

Record ApiConfig : Type := {
  baseUrl : string;
  email : string;
  api_password : string;
  fetchTimeout : Z;
  syncTimeout : Z
}.

Record SyncConfig : Type := {
  maxConcurrent : Z;
  pageSize : Z
}.

Record RetryConfig : Type := {
  retry_maxAttempts : Z;
  retry_baseDelay : Z;
  retry_jitter : Z;
  retry_maxDelay : Z
}.

Record RateLimitSettings : Type := {
  rl_maxRequests : Z;
  rl_windowMs : Z
}.

Record DatabaseConfig : Type := {
  host : string;
  port : Z;
  database : string;
  user : string;
  db_password : string;
  db_max : Z;
  idleTimeoutMillis : Z;
  connectionTimeoutMillis : Z
}.

Record LoggingConfig : Type := {
  level : LogLevel;
  format : LogFormat
}.

Record Config : Type := {
  api : ApiConfig;
  sync : SyncConfig;
  retry : RetryConfig;
  rateLimit : RateLimitSettings;
  db : DatabaseConfig;
  logging : LoggingConfig
}.

Definition ConfigError (message : string) (context : option Context) : Error :=
  AppError "ConfigError" CONFIG_ERROR message None None None context false.

Definition isConfigError (error : Error) : bool :=
  match error with
  | AppError name _ _ _ _ _ _ _ => String.eqb name "ConfigError"
  | PlainError _ => false
  end.

(** Sequencing of calls that may throw. *)
Definition andThen {A B : Type} (m : Outcome Error A) (k : A -> Outcome Error B)
    : Outcome Error B :=
  match m with
  | Returned a => k a
  | Thrown e => Thrown e
  end.

Notation "x <- m ;; k" := (andThen m (fun x => k))
  (at level 61, m at next level, right associativity).

Section Loader.
(** [process.env]. *)
Variable env : string -> option string.
(** Whether [new URL(s)] accepts [s]; whether the e-mail pattern matches
    [s]; [s.toUpperCase()]. *)
Variable URL_accepts : string -> bool.
Variable emailRegex_test : string -> bool.
Variable toUpperCase : string -> string.

Definition getEnvVar (key : string) (defaultValue : option string) : Outcome Error string :=
  match env key with
  | None =>
      match defaultValue with
      | Some d => Returned d
      | None => Thrown (ConfigError ("Missing required environment variable: " ++ key) None)
      end
  | Some value => Returned value
  end.

Definition getEnvNumber (key : string) (defaultValue : Z) : Outcome Error Z :=
  match env key with
  | None => Returned defaultValue
  | Some value =>
      match parseInt value with
      | NaN => Thrown (ConfigError ("Invalid number for " ++ key ++ ": " ++ value) None)
      | Int parsed => Returned parsed
      end
  end.

Definition getLogLevel (value : string) : Outcome Error LogLevel :=
  let upperValue := toUpperCase value in
  if String.eqb upperValue "DEBUG" then Returned DEBUG
  else if String.eqb upperValue "INFO" then Returned INFO
  else if String.eqb upperValue "WARN" then Returned WARN
  else if String.eqb upperValue "ERROR" then Returned ERROR
  else Thrown (ConfigError ("Invalid log level: " ++ value
                            ++ ". Must be one of: DEBUG, INFO, WARN, ERROR") None).

Definition validateUrl (url name : string) : Outcome Error string :=
  if URL_accepts url then Returned url
  else Thrown (ConfigError ("Invalid URL for " ++ name ++ ": " ++ url) None).

Definition validateEmail (email : string) : Outcome Error string :=
  if negb (emailRegex_test email)
  then Thrown (ConfigError ("Invalid email format: " ++ email) None)
  else Returned email.

Definition validatePositive (value : Z) (name : string) : Outcome Error Z :=
  if value <=? 0
  then Thrown (ConfigError (name ++ " must be positive: " ++ show value) None)
  else Returned value.

(** A number read from the environment and required to be positive. *)
Definition positiveEnv (key : string) (defaultValue : Z) : Outcome Error Z :=
  n <- getEnvNumber key defaultValue ;; validatePositive n key.

(** The body of the [try] of [loadConfig]. *)
Definition loadConfig_body : Outcome Error Config :=
  url <- getEnvVar "AD_PLATFORM_API_URL" None ;;
  baseUrl' <- validateUrl url "AD_PLATFORM_API_URL" ;;
  mail <- getEnvVar "API_EMAIL" None ;;
  email' <- validateEmail mail ;;
  password <- getEnvVar "API_PASSWORD" None ;;
  fetchTimeout' <- positiveEnv "FETCH_TIMEOUT_MS" 3000 ;;
  syncTimeout' <- positiveEnv "SYNC_TIMEOUT_MS" 10000 ;;
  maxConcurrent' <- positiveEnv "MAX_CONCURRENT_SYNCS" 3 ;;
  pageSize' <- positiveEnv "PAGE_SIZE" 10 ;;
  maxAttempts' <- positiveEnv "MAX_RETRY_ATTEMPTS" 5 ;;
  baseDelay' <- positiveEnv "BASE_RETRY_DELAY_MS" 1000 ;;
  jitter' <- getEnvNumber "RETRY_JITTER_MS" 250 ;;
  maxDelay' <- positiveEnv "MAX_RETRY_DELAY_MS" 16000 ;;
  maxRequests' <- positiveEnv "RATE_LIMIT_MAX_REQUESTS" 10 ;;
  windowMs' <- positiveEnv "RATE_LIMIT_WINDOW_MS" 60000 ;;
  dbHost <- getEnvVar "DB_HOST" (Some "localhost"%string) ;;
  dbPort <- positiveEnv "DB_PORT" 5432 ;;
  dbName <- getEnvVar "DB_NAME" (Some "mixoads"%string) ;;
  dbUser <- getEnvVar "DB_USER" (Some "postgres"%string) ;;
  dbPassword <- getEnvVar "DB_PASSWORD" (Some "postgres"%string) ;;
  dbMax <- positiveEnv "DB_MAX_CONNECTIONS" 10 ;;
  idle <- positiveEnv "DB_IDLE_TIMEOUT_MS" 30000 ;;
  connectionTimeout <- positiveEnv "DB_CONNECTION_TIMEOUT_MS" 2000 ;;
  levelText <- getEnvVar "LOG_LEVEL" (Some "INFO"%string) ;;
  logLevel <- getLogLevel levelText ;;
  formatText <- getEnvVar "LOG_FORMAT" (Some "text"%string) ;;
  let config := {|
    api := {| baseUrl := baseUrl'; email := email'; api_password := password;
              fetchTimeout := fetchTimeout'; syncTimeout := syncTimeout' |};
    sync := {| maxConcurrent := maxConcurrent'; pageSize := pageSize' |};
    retry := {| retry_maxAttempts := maxAttempts'; retry_baseDelay := baseDelay';
                retry_jitter := jitter'; retry_maxDelay := maxDelay' |};
    rateLimit := {| rl_maxRequests := maxRequests'; rl_windowMs := windowMs' |};
    db := {| host := dbHost; port := dbPort; database := dbName; user := dbUser;
             db_password := dbPassword; db_max := dbMax; idleTimeoutMillis := idle;
             connectionTimeoutMillis := connectionTimeout |};
    logging := {| level := logLevel;
                  format := if String.eqb formatText "json" then json_format
                            else text_format |}
  |} in
  if 10 <? maxConcurrent (sync config)
  then Thrown (ConfigError "MAX_CONCURRENT_SYNCS cannot exceed 10" None)
  else if 20 <? retry_maxAttempts (retry config)
  then Thrown (ConfigError "MAX_RETRY_ATTEMPTS cannot exceed 20" None)
  else if retry_maxDelay (retry config) <? retry_baseDelay (retry config)
  then Thrown (ConfigError "BASE_RETRY_DELAY_MS cannot exceed MAX_RETRY_DELAY_MS" None)
  else Returned config.

(** [loadConfig]: the [catch] lets a [ConfigError] through and wraps any
    other error in one. *)
Definition loadConfig : Outcome Error Config :=
  match loadConfig_body with
  | Returned config => Returned config
  | Thrown error =>
      if isConfigError error then Thrown error
      else Thrown (ConfigError ("Failed to load configuration: " ++ message_of error) None)
  end.

End Loader.

(** [validateConfig]: the first of the required settings that is empty
    is reported. *)
Definition validateConfig (config : Config) : Outcome Error unit :=
  let required := [
    ("api.baseUrl"%string, baseUrl (api config));
    ("api.email"%string, email (api config));
    ("api.password"%string, api_password (api config));
    ("database.host"%string, host (db config));
    ("database.database"%string, database (db config));
    ("database.user"%string, user (db config));
    ("database.password"%string, db_password (db config))
  ] in
  match find (fun entry => String.eqb (snd entry) EmptyString) required with
  | Some (path, _) => Thrown (ConfigError ("Missing required configuration: " ++ path) None)
  | None => Returned tt
  end.

(** An environment with one more assignment. *)
Definition set_env (key value : string) (env : string -> option string)
    : string -> option string :=
  fun k => if String.eqb k key then Some value else env k.

End Config.

(* ------------------------------------------------------------------ *)
(** ** Concrete inputs used to instantiate the properties *)

Module Fixtures.
Import ErrorHandler RetryStrategy.

(** An operation that times out at every invocation, and one that fails
    twice with a retryable error before it returns. *)
Definition always_times_out : nat -> Outcome Error unit :=
  fun _ => Thrown (TimeoutError "Request timeout after 5000ms" None).

Definition third_time_lucky : nat -> Outcome Error Z :=
  fun k => if (k <? 2)%nat then Thrown (TimeoutError "Request timeout after 5000ms" None)
           else Returned 42.

Definition not_found : nat -> Outcome Error unit :=
  fun _ => Thrown (ApiError "HTTP 404: Not Found" (Some 404) None None).

Definition no_jitter_draw : nat -> Q := fun _ => (1 # 2)%Q.

Definition no_attempts : RetryOptions := {|
  maxAttempts := 0;
  baseDelay := 1000;
  jitter := 250;
  maxDelay := 16000;
  retryableErrors := []
|}.

(** A limiter of capacity 1 with a window of one second, after a request
    admitted at 5000 and two requests queued at 5010 and 5020, the second
    with priority 5. *)
Definition small_limiter : RateLimiter.RateLimitConfig :=
  {| RateLimiter.maxRequests := 1; RateLimiter.windowMs := 1000 |}.

Definition limiter_trace : list RateLimiter.Event :=
  [RateLimiter.Execute 5000 1 0; RateLimiter.Execute 5010 2 0; RateLimiter.Execute 5020 3 5].

Definition limiter_with_queue : RateLimiter.RateLimiter :=
  RateLimiter.execute 5020 3 5
    (RateLimiter.set_clock 5020
       (RateLimiter.execute 5010 2 0
          (RateLimiter.set_clock 5010
             (RateLimiter.execute 5000 1 0
                (RateLimiter.set_clock 5000 (RateLimiter.create small_limiter)))))).

Definition limiter_after_one : RateLimiter.RateLimiter :=
  RateLimiter.execute 5000 1 0
    (RateLimiter.set_clock 5000 (RateLimiter.create small_limiter)).

(** A trace in which the drain wakes at 6000 and finds the slot free. *)
Definition undisturbed_trace : list RateLimiter.Event :=
  [RateLimiter.Execute 5000 1 0; RateLimiter.Execute 5010 2 0;
   RateLimiter.TimerFires 6000; RateLimiter.WorkSettles 6050].

(** A token manager with a refresh in flight, and one with an acquisition
    started by [getToken]. *)
Definition manager_refreshing : TokenManager.TokenManager :=
  snd (TokenManager.refreshToken TokenManager.create).


Definition manager_with_token : TokenManager.TokenManager := {|
  TokenManager.token := Some (Stubs.token_of "token-A" 0);
  TokenManager.refreshState :=
    {| TokenManager.isRefreshing := false; TokenManager.promise := None |};
  TokenManager.inflight := [];
  TokenManager.fresh := 1;
  TokenManager.replies := [];
  TokenManager.settled := []
|}.

(** A concurrency queue of bound 2 after four [add] calls, the last with
    priority 5. *)
Definition queue_of_two : ConcurrencyQueue.ConcurrencyQueue := {|
  ConcurrencyQueue.maxConcurrent := 2;
  ConcurrencyQueue.queue := [];
  ConcurrencyQueue.active_count := 0;
  ConcurrencyQueue.stats :=
    {| ConcurrencyQueue.pending := 0; ConcurrencyQueue.active := 0;
       ConcurrencyQueue.completed := 0; ConcurrencyQueue.failed := 0 |};
  ConcurrencyQueue.running := [];
  ConcurrencyQueue.startOrder := [];
  ConcurrencyQueue.arrivals := 0
|}.

Definition queue_trace : list ConcurrencyQueue.Event :=
  [ConcurrencyQueue.Add 1 0; ConcurrencyQueue.Add 2 0;
   ConcurrencyQueue.Add 3 0; ConcurrencyQueue.Add 4 5].

Definition busy_queue : ConcurrencyQueue.ConcurrencyQueue :=
  ConcurrencyQueue.add 4 5
    (ConcurrencyQueue.add 3 0
       (ConcurrencyQueue.add 2 0 (ConcurrencyQueue.add 1 0 queue_of_two))).

(** A server with three pages of one campaign each, and one that always
    announces more. *)
Definition campaign_number (p : Z) : Campaign :=
  {| c_id := "campaign_" ++ show p; c_name := "Campaign " ++ show p |}.

Definition three_pages : Z -> Outcome Error CampaignService.Page :=
  fun p => Returned {| CampaignService.data := [campaign_number p];
                       CampaignService.has_more := p <? 3;
                       CampaignService.total := 3 |}.

Definition endless_pages : Z -> Outcome Error CampaignService.Page :=
  fun p => Returned {| CampaignService.data := [campaign_number p];
                       CampaignService.has_more := true;
                       CampaignService.total := 1000 |}.

(** An environment that sets the three required variables. *)
Definition minimal_env : string -> option string :=
  Config.set_env "AD_PLATFORM_API_URL" "http://localhost:3001"
    (Config.set_env "API_EMAIL" "admin@mixoads.com"
       (Config.set_env "API_PASSWORD" "secret" (fun _ => None))).

Definition accept_all : string -> bool := fun _ => true.

Definition same_text : string -> string := fun s => s.

(** An API that answers every sync call with [success: false]. *)
Definition refusing_post : string -> unit -> Outcome Error CampaignService.SyncResponse * unit :=
  fun campaignId w =>
    (Returned {| CampaignService.s_success := false;
                 CampaignService.s_campaign_id := campaignId;
                 CampaignService.s_synced_at := "";
                 CampaignService.s_message := "Campaign is archived" |}, w).

End Fixtures.

(* ================================================================== *)
(** * Properties *)

Section RoundingFacts.

Lemma Math_round_Z (z : Z) : Math_round (inject_Z z) = z.
Proof.
  unfold Math_round, Qfloor, inject_Z, Qplus. simpl.
  replace (z * 2 + 1) with (1 + z * 2) by lia.
  rewrite Z.div_add by lia. reflexivity.
Qed.

Lemma Math_round_mono (x y : Q) : (x <= y)%Q -> Math_round x <= Math_round y.
Proof.
  intros Hxy. unfold Math_round. apply Qfloor_resp_le.
  apply Qplus_le_compat; [exact Hxy | apply Qle_refl].
Qed.




End RoundingFacts.

(* ------------------------------------------------------------------ *)
(** ** Retry engine *)

Section RetryFacts.
Import ErrorHandler RetryStrategy.


Lemma jitterAmount_0 (r : Q) : (jitterAmount r 0 == 0)%Q.
Proof. unfold jitterAmount. simpl. ring. Qed.

Lemma Math_round_no_jitter (r : Q) (z : Z) :
  Math_round (inject_Z z + jitterAmount r 0) = z.
Proof.
  rewrite <- (Math_round_Z z) at 2. unfold Math_round.
  apply Qfloor_comp. rewrite jitterAmount_0. ring.
Qed.

(** Below attempt 1024 the power is finite, and [calculateDelay] is the
    rounded, clamped sum of the capped exponential and the jitter. *)
Lemma calculateDelay_finite (r : Q) (a : nat) (base jit maxd : Z) :
  Z.of_nat a < 1024 ->
  calculateDelay r a base jit maxd
  = Int (Math_round (Math_max0 (inject_Z (Z.min (base * 2 ^ Z.of_nat a) maxd)
                                + jitterAmount r jit))).
Proof.
  intros Ha. unfold calculateDelay, Math_pow2.
  destruct (Z.ltb_spec (Z.of_nat a) 1024) as [_ | Hge]; [reflexivity | lia].
Qed.

(** Without jitter [calculateDelay] is the capped exponential itself,
    provided it is not negative. *)
Lemma calculateDelay_no_jitter (r : Q) (a : nat) (base maxd : Z) :
  Z.of_nat a < 1024 ->
  0 <= Z.min (base * 2 ^ Z.of_nat a) maxd ->
  calculateDelay r a base 0 maxd = Int (Z.min (base * 2 ^ Z.of_nat a) maxd).
Proof.
  intros Ha Hc. rewrite (calculateDelay_finite r a base 0 maxd Ha). f_equal.
  set (c := Z.min (base * 2 ^ Z.of_nat a) maxd) in *.
  rewrite <- (Math_round_Z c) at 2. unfold Math_round.
  apply Qfloor_comp.
  assert (E : (Math_max0 (inject_Z c + jitterAmount r 0) == inject_Z c)%Q).
  { unfold Math_max0.
    destruct (Qle_bool 0 (inject_Z c + jitterAmount r 0)) eqn:B.
    - rewrite jitterAmount_0. ring.
    - exfalso. assert (Hle : (0 <= inject_Z c + jitterAmount r 0)%Q).
      { rewrite jitterAmount_0. rewrite Qplus_0_r.
        change (inject_Z 0 <= inject_Z c)%Q. rewrite <- Zle_Qle. exact Hc. }
      apply Qle_bool_iff in Hle. congruence. }
  rewrite E. reflexivity.
Qed.

End RetryFacts.

Section DelayBand.
Import ErrorHandler RetryStrategy.




End DelayBand.

Section HintDelay.
Import ErrorHandler RetryStrategy.

(** With a server hint of [h] seconds the delay is the rounding of
    [h * 1000] plus the jitter component, whatever the attempt index. *)
Lemma getRetryDelay_with_hint (r : Q) (e : Error) (h : Z) (a : nat) (opts : RetryOptions) :
  getRetryAfter e = Some (Int h) ->
  getRetryDelay r e a opts
  = Int (Math_round (inject_Z (h * 1000) + jitterAmount r (jitter opts))).
Proof.
  intros E. unfold getRetryDelay. rewrite E. reflexivity.
Qed.

(** C2.  The delay for an error with a hint is the rounding of
    [hint * 1000 + jitter component] at every attempt index, and it is not
    clamped at zero: a [RateLimitError] with hint 0, the default jitter of
    250 ms and the draw 0 gives a delay of -250 ms. *)
Theorem getRetryDelay_hint_not_clamped :
  (forall (r : Q) (h : Z) (msg : string) (a : nat) (opts : RetryOptions),
      getRetryDelay r (RateLimitError (Int h) msg) a opts
      = Int (Math_round (inject_Z (h * 1000) + jitterAmount r (jitter opts))))
  /\ (forall a : nat,
        getRetryDelay 0 (RateLimitError (Int 0) "Rate limit exceeded") a
          DEFAULT_RETRY_OPTIONS = Int (-250)).
Proof.
  split.
  - intros r h msg a opts. apply getRetryDelay_with_hint. reflexivity.
  - intros a. reflexivity.
Qed.

End HintDelay.

Section RetryLoop.
Import ErrorHandler RetryStrategy.
Context {T : Type}.
Variable fn : nat -> Outcome Error T.
Variable rnd : nat -> Q.
Variable opts : RetryOptions.

(** The loop of [withRetry] settles: the fuel it is started with suffices. *)
Lemma retryLoop_total (fuel attempt : nat) (lastError : option Error) (slept : list number) :
  (Z.to_nat (maxAttempts opts) - attempt <= fuel)%nat ->
  exists run, retryLoop fn rnd opts fuel attempt lastError slept = Some run.
Proof.
  revert attempt lastError slept.
  induction fuel as [| fuel IH]; intros attempt lastError slept Hfuel; simpl.
  - destruct (Z.of_nat attempt <? maxAttempts opts) eqn:Hlt.
    + apply Z.ltb_lt in Hlt. lia.
    + eexists. reflexivity.
  - destruct (Z.of_nat attempt <? maxAttempts opts) eqn:Hlt; [| eexists; reflexivity].
    destruct (fn attempt) as [v | e]; [eexists; reflexivity |].
    destruct (negb _); [eexists; reflexivity |].
    apply IH. lia.
Qed.

Lemma withRetry_body_total : exists run, withRetry_body fn rnd opts = Some run.
Proof. unfold withRetry_body. apply retryLoop_total. lia. Qed.

(** One iteration of the loop, as the source has it. *)
Lemma retryLoop_step (fuel attempt : nat) (lastError : option Error) (slept : list number) :
  retryLoop fn rnd opts (S fuel) attempt lastError slept
  = if Z.of_nat attempt <? maxAttempts opts then
      match fn attempt with
      | Returned result =>
          Some {| outcome := Returned result; sleeps := slept; invocations := S attempt |}
      | Thrown error =>
          if negb (shouldRetry error (Z.of_nat (S attempt)) (maxAttempts opts)
                     (retryableErrors opts))
          then Some {| outcome := Thrown error; sleeps := slept; invocations := S attempt |}
          else retryLoop fn rnd opts fuel (S attempt) (Some error)
                 (slept ++ [getRetryDelay (rnd attempt) error (S attempt - 1) opts])
      end
    else
      Some {| outcome :=
                Thrown (MaxRetriesExceededError
                          ("Operation failed after " ++ show (maxAttempts opts) ++ " attempts")
                          (maxAttempts opts) lastError);
              sleeps := slept;
              invocations := attempt |}.
Proof. reflexivity. Qed.

(** When every invocation fails, and every failure but the last allowed
    one is retried, the loop stops inside its [catch] at the last allowed
    invocation and rethrows the error of that invocation. *)
Lemma retryLoop_exhausted (n : nat) (errs : nat -> Error) :
  maxAttempts opts = Z.of_nat (S n) ->
  (forall k, fn k = Thrown (errs k)) ->
  (forall k, (k < n)%nat ->
     shouldRetry (errs k) (Z.of_nat (S k)) (maxAttempts opts) (retryableErrors opts) = true) ->
  forall (d attempt fuel : nat) (lastError : option Error) (slept : list number),
    (attempt + d = n)%nat -> (d < fuel)%nat ->
    exists run,
      retryLoop fn rnd opts fuel attempt lastError slept = Some run
      /\ outcome run = Thrown (errs n)
      /\ invocations run = S n.
Proof.
  intros Hmax Hfn Hretry.
  induction d as [| d IH]; intros attempt fuel lastError slept Hsum Hfuel.
  - destruct fuel as [| fuel]; [lia |]. rewrite retryLoop_step.
    assert (attempt = n) by lia. subst attempt.
    replace (Z.of_nat n <? maxAttempts opts) with true
      by (symmetry; apply Z.ltb_lt; lia).
    rewrite Hfn.
    assert (Hstop : shouldRetry (errs n) (Z.of_nat (S n)) (maxAttempts opts)
                      (retryableErrors opts) = false).
    { unfold shouldRetry.
      replace (Z.of_nat (S n) >=? maxAttempts opts) with true; [reflexivity |].
      symmetry. apply Z.geb_le. lia. }
    rewrite Hstop. cbn [negb]. eexists. repeat split.
  - destruct fuel as [| fuel]; [lia |]. rewrite retryLoop_step.
    replace (Z.of_nat attempt <? maxAttempts opts) with true
      by (symmetry; apply Z.ltb_lt; lia).
    rewrite Hfn. rewrite (Hretry attempt) by lia. cbn [negb].
    apply IH; lia.
Qed.

(** Entered below the ceiling, the loop settles the way some invocation
    of the operation settled: it never reaches the statement after the
    loop. *)
Lemma retryLoop_settles_as_fn (fuel attempt : nat) (lastError : option Error)
    (slept : list number) (run : RetryRun T) :
  Z.of_nat attempt < maxAttempts opts ->
  retryLoop fn rnd opts fuel attempt lastError slept = Some run ->
  exists k, fn k = outcome run.
Proof.
  revert attempt lastError slept.
  induction fuel as [| fuel IH]; intros attempt lastError slept Hlt.
  - simpl. apply Z.ltb_lt in Hlt. rewrite Hlt. discriminate.
  - rewrite retryLoop_step. pose proof Hlt as Hb. apply Z.ltb_lt in Hb. rewrite Hb.
    destruct (fn attempt) as [v | e] eqn:Hfn.
    + intros E. inversion E. exists attempt. exact Hfn.
    + destruct (shouldRetry e (Z.of_nat (S attempt)) (maxAttempts opts)
                  (retryableErrors opts)) eqn:Hretry; cbn [negb].
      * apply IH. unfold shouldRetry in Hretry.
        destruct (Z.of_nat (S attempt) >=? maxAttempts opts) eqn:Hge; [discriminate |].
        rewrite Z.geb_leb in Hge. apply Z.leb_gt in Hge. exact Hge.
      * intros E. inversion E. exists attempt. exact Hfn.
Qed.

Lemma withRetry_body_settles_as_fn (run : RetryRun T) :
  1 <= maxAttempts opts ->
  withRetry_body fn rnd opts = Some run ->
  exists k, fn k = outcome run.
Proof.
  intros Hmax. unfold withRetry_body.
  apply retryLoop_settles_as_fn. simpl. lia.
Qed.

End RetryLoop.

Section Exhaustion.
Import ErrorHandler RetryStrategy.

(** C1.  When the attempt ceiling is reached without success (each of the
    [maxAttempts] invocations fails, every failure before the last being
    one the engine retries), [withRetry] invokes the operation exactly
    [maxAttempts] times and surfaces the error of the last invocation
    itself, not a [MaxRetriesExceededError] around it. *)
Theorem withRetry_ceiling_surfaces_last_error
    (T : Type) (fn : nat -> Outcome Error T) (rnd : nat -> Q)
    (opts : RetryOptions) (n : nat) (errs : nat -> Error) :
  maxAttempts opts = Z.of_nat (S n) ->
  (forall k, fn k = Thrown (errs k)) ->
  (forall k, (k < n)%nat ->
     shouldRetry (errs k) (Z.of_nat (S k)) (maxAttempts opts) (retryableErrors opts) = true) ->
  exists run,
    withRetry_body fn rnd opts = Some run
    /\ outcome run = Thrown (errs n)
    /\ invocations run = S n.
Proof.
  intros Hmax Hfn Hretry. unfold withRetry_body.
  apply (retryLoop_exhausted fn rnd opts n errs Hmax Hfn Hretry n 0%nat); lia.
Qed.

Lemma withRetry_ceiling_surfaces_last_error_witness :
  exists run,
    withRetry_body (T := unit)
      (fun _ => Thrown (TimeoutError "Request timeout after 5000ms" None))
      (fun _ => 0%Q) DEFAULT_RETRY_OPTIONS = Some run
    /\ outcome run = Thrown (TimeoutError "Request timeout after 5000ms" None)
    /\ invocations run = 5%nat.
Proof.
  apply (withRetry_ceiling_surfaces_last_error unit
           (fun _ => Thrown (TimeoutError "Request timeout after 5000ms" None))
           (fun _ => 0%Q) DEFAULT_RETRY_OPTIONS 4
           (fun _ => TimeoutError "Request timeout after 5000ms" None)).
  - reflexivity.
  - intros k. reflexivity.
  - intros k Hk.
    destruct k as [| [| [| [| k]]]]; try reflexivity. lia.
Defined.

End Exhaustion.

(* ------------------------------------------------------------------ *)
(** ** Request pipeline *)

Section RetryAfterHeader.
Import ErrorHandler RetryStrategy ApiClient Stubs.

Lemma getRetryAfter_absent (getTime : string -> number) (now st : Z) :
  getRetryAfter getTime now (response_with_retry_after st None) = Int 60.
Proof. reflexivity. Qed.

Lemma getRetryAfter_seconds (getTime : string -> number) (now st : Z) :
  getRetryAfter getTime now (response_with_retry_after st (Some "120"%string)) = Int 120.
Proof. reflexivity. Qed.

Lemma getRetryAfter_date (getTime : string -> number) (now st : Z) (h : string) (time : Z) :
  h <> EmptyString -> parseInt h = NaN -> getTime h = Int time ->
  getRetryAfter getTime now (response_with_retry_after st (Some h))
  = Int (Qceiling (inject_Z (Z.max 0 (time - now)) / 1000)).
Proof.
  intros Hne Hp Hd. unfold getRetryAfter. simpl.
  destruct h as [| c h']; [congruence |]. rewrite Hp, Hd. reflexivity.
Qed.

(** C6.  A [Retry-After] header that is neither a number nor a date the
    platform can read (here the text [soon]) makes [getRetryAfter] return
    NaN, for a 429 as for a 503: the date branch does not throw, so the
    fallback of 60 in its [catch] is never taken. *)
Theorem getRetryAfter_unparsable_is_NaN (getTime : string -> number) (now : Z) :
  getTime "soon"%string = NaN ->
  getRetryAfter getTime now (response_with_retry_after 429 (Some "soon"%string)) = NaN
  /\ getRetryAfter getTime now (response_with_retry_after 503 (Some "soon"%string)) = NaN
  /\ getRetryAfter getTime now (response_with_retry_after 429 (Some "soon"%string)) <> Int 60.
Proof.
  intros Hd. unfold getRetryAfter. simpl. rewrite Hd.
  repeat split. discriminate.
Qed.

Lemma getRetryAfter_unparsable_is_NaN_witness :
  getRetryAfter (fun _ => NaN) 0 (response_with_retry_after 429 (Some "soon"%string)) = NaN
  /\ getRetryAfter (fun _ => NaN) 0 (response_with_retry_after 503 (Some "soon"%string)) = NaN
  /\ getRetryAfter (fun _ => NaN) 0 (response_with_retry_after 429 (Some "soon"%string))
     <> Int 60.
Proof.
  apply (getRetryAfter_unparsable_is_NaN (fun _ => NaN) 0). reflexivity.
Defined.

End RetryAfterHeader.

Section Backoff503.
Import ErrorHandler RetryStrategy ApiClient Stubs.

Lemma getRetryDelay_hint_no_jitter (r : Q) (e : Error) (h : Z) (a : nat) (opts : RetryOptions) :
  ErrorHandler.getRetryAfter e = Some (Int h) -> jitter opts = 0 ->
  getRetryDelay r e a opts = Int (h * 1000).
Proof.
  intros E J. rewrite (getRetryDelay_with_hint r e h a opts E), J.
  rewrite Math_round_no_jitter. reflexivity.
Qed.

(** A 503 answered without [Retry-After] is thrown with the default hint
    of 60 seconds. *)
Lemma handleResponse_503_carries_default (getTime : string -> number) (now : Z) (url : string) :
  handleResponse getTime now (response_with_retry_after 503 None) url
  = Thrown (ServiceUnavailableError "Service temporarily unavailable" (Some (Int 60))).
Proof. reflexivity. Qed.

(** The exponential series is what [getRetryDelay] gives for a
    [ServiceUnavailableError] that carries no hint. *)
Lemma getRetryDelay_503_without_hint (r : Q) :
  map (fun a => getRetryDelay r (ServiceUnavailableError "Service temporarily unavailable" None)
                  a (merge_options policy_100_0_1600))
      [0; 1; 2; 3]%nat
  = [Int 100; Int 200; Int 400; Int 800].
Proof.
  unfold getRetryDelay.
  cbn [ErrorHandler.getRetryAfter ServiceUnavailableError isErrorCode ErrorCode_eqb map].
  cbn [merge_options policy_100_0_1600 p_baseDelay p_jitter p_maxDelay baseDelay jitter maxDelay].
  rewrite !calculateDelay_no_jitter by (first [reflexivity | vm_compute; discriminate]).
  reflexivity.
Qed.

(** C9.  With the policy [base = 100, jitter = 0, max = 1600], four 503
    responses without [Retry-After] followed by a 200 make [withRetry]
    sleep 60000 ms before each of the four retries (the default hint of 60
    seconds that the 503 branch attaches), whatever [Math.random()]
    returns; the request then succeeds at the fifth invocation. *)
Theorem retry_on_503_sleeps_default_hint
    (getTime : string -> number) (now : Z) (rnd : nat -> Q) :
  exists run,
    withRetry (fun k => handleResponse getTime now (four_503_then_200 k) "/api/campaigns")
      rnd policy_100_0_1600 = Some run
    /\ sleeps run = [Int 60000; Int 60000; Int 60000; Int 60000]
    /\ outcome run = Returned tt
    /\ invocations run = 5%nat.
Proof.
  unfold withRetry, withRetry_body.
  set (opts := merge_options policy_100_0_1600).
  change (Z.to_nat (maxAttempts opts)) with 5%nat.
  assert (D : forall r a,
             getRetryDelay r
               (ServiceUnavailableError "Service temporarily unavailable" (Some (Int 60)))
               a opts = Int 60000).
  { intros r a. apply (getRetryDelay_hint_no_jitter r _ 60 a opts); reflexivity. }
  do 5 (rewrite retryLoop_step;
        cbn [four_503_then_200 Nat.ltb Nat.leb];
        try rewrite handleResponse_503_carries_default;
        change (maxAttempts opts) with 5;
        cbn [Z.ltb Z.of_nat Pos.of_succ_nat Pos.succ Z.compare Pos.compare Pos.compare_cont
             shouldRetry Z.geb isRetryableError ServiceUnavailableError negb
             retryableErrors opts merge_options policy_100_0_1600 p_retryableErrors length];
        try rewrite D; cbn [app]).
  eexists. repeat split.
Qed.

End Backoff503.

(* ------------------------------------------------------------------ *)
(** ** Rate limiter *)

Section LimiterInvariant.
Import RateLimiter.

Lemma ascending_filter (f : Z -> bool) (ts : list Z) :
  ascending ts -> ascending (filter f ts).
Proof.
  induction ts as [| t rest IH]; simpl; [trivial |].
  intros [Hhd Htl]. destruct (f t); simpl.
  - split; [| apply IH; exact Htl].
    intros u Hu. apply filter_In in Hu. apply Hhd. tauto.
  - apply IH. exact Htl.
Qed.

Lemma ascending_snoc (ts : list Z) (now : Z) :
  ascending ts -> (forall t, In t ts -> t <= now) -> ascending (ts ++ [now]).
Proof.
  induction ts as [| t rest IH]; simpl; intros Hasc Hle.
  - split; [intros u [] | trivial].
  - destruct Hasc as [Hhd Htl]. split.
    + intros u Hu. apply in_app_or in Hu. destruct Hu as [Hu | [Hu | []]].
      * apply Hhd. exact Hu.
      * subst u. apply Hle. left. reflexivity.
    + apply IH; [exact Htl |]. intros u Hu. apply Hle. right. exact Hu.
Qed.

(** The head of an ascending list is its least element. *)
Lemma ascending_head_least (t : Z) (rest : list Z) (u : Z) :
  ascending (t :: rest) -> In u (t :: rest) -> t <= u.
Proof.
  simpl. intros [Hhd _] [Hu | Hu]; [lia | apply Hhd; exact Hu].
Qed.

Variable cfg : RateLimitConfig.

Lemma wf_cleanOldRequests (now : Z) (l : RateLimiter) :
  well_formed cfg l -> well_formed cfg (cleanOldRequests now l).
Proof.
  intros (Hc & Ha & Hb). unfold well_formed, cleanOldRequests. simpl.
  repeat split; [exact Hc | apply ascending_filter; exact Ha |].
  intros t Ht. apply filter_In in Ht. apply Hb. tauto.
Qed.

Lemma wf_recordRequest (l : RateLimiter) :
  well_formed cfg l -> well_formed cfg (recordRequest (clock l) l).
Proof.
  intros (Hc & Ha & Hb). unfold well_formed, recordRequest. simpl.
  repeat split; [exact Hc | apply ascending_snoc; assumption |].
  intros t Ht. apply in_app_or in Ht. destruct Ht as [Ht | [Ht | []]].
  - apply Hb. exact Ht.
  - lia.
Qed.

Lemma wf_set_queue (q : list QueuedRequest) (l : RateLimiter) :
  well_formed cfg l -> well_formed cfg (set_queue q l).
Proof. intros H. exact H. Qed.

Lemma wf_set_drain (p : bool) (d : Drain) (l : RateLimiter) :
  well_formed cfg l -> well_formed cfg (set_drain p d l).
Proof. intros H. exact H. Qed.

Lemma wf_log_start (i : nat) (now : Z) (l : RateLimiter) :
  well_formed cfg l -> well_formed cfg (log_start i now l).
Proof. intros H. exact H. Qed.

Lemma wf_set_clock (now : Z) (l : RateLimiter) :
  clock l <= now -> well_formed cfg l -> well_formed cfg (set_clock now l).
Proof.
  intros Hnow (Hc & Ha & Hb). unfold well_formed. simpl.
  repeat split; [exact Hc | exact Ha |].
  intros t Ht. specialize (Hb t Ht). lia.
Qed.

Lemma wf_processQueue_shift (l : RateLimiter) :
  well_formed cfg l -> well_formed cfg (processQueue_shift (clock l) l).
Proof.
  intros H. unfold processQueue_shift.
  destruct (queue (state l)) as [| request rest].
  - apply wf_set_drain. exact H.
  - apply wf_set_drain, wf_log_start.
    apply (wf_recordRequest (set_queue rest l)). apply wf_set_queue. exact H.
Qed.

Lemma clock_cleanOldRequests (now : Z) (l : RateLimiter) :
  clock (cleanOldRequests now l) = clock l.
Proof. reflexivity. Qed.

Lemma wf_processQueue_loop (l : RateLimiter) :
  well_formed cfg l -> well_formed cfg (processQueue_loop (clock l) l).
Proof.
  intros H. unfold processQueue_loop.
  destruct (queue (state l)) as [| request rest].
  - apply wf_set_drain. exact H.
  - unfold canMakeRequest.
    set (l1 := cleanOldRequests (clock l) l).
    assert (H1 : well_formed cfg l1) by (apply wf_cleanOldRequests; exact H).
    destruct (Z.of_nat (length (requests (state l1))) <? maxRequests (config l1)); cbn [negb].
    + apply (wf_processQueue_shift l1). exact H1.
    + unfold waitForReset, getInfo.
      set (l2 := cleanOldRequests (clock l) l1).
      assert (H2 : well_formed cfg l2) by (apply wf_cleanOldRequests; exact H1).
      cbn [remaining resetAt].
      destruct (0 <? Z.max 0 _).
      * apply (wf_processQueue_shift l2). exact H2.
      * destruct (0 <? Z.max 0 _).
        -- apply wf_set_drain. exact H2.
        -- apply (wf_processQueue_shift l2). exact H2.
Qed.

Lemma wf_execute (i : nat) (prio : Z) (l : RateLimiter) :
  well_formed cfg l -> well_formed cfg (execute (clock l) i prio l).
Proof.
  intros H. unfold execute, canMakeRequest.
  set (l1 := cleanOldRequests (clock l) l).
  assert (H1 : well_formed cfg l1) by (apply wf_cleanOldRequests; exact H).
  destruct (Z.of_nat (length (requests (state l1))) <? maxRequests (config l1)).
  - apply wf_log_start. apply (wf_recordRequest l1). exact H1.
  - unfold queueRequest.
    set (l2 := set_queue _ l1).
    assert (H2 : well_formed cfg l2) by (apply wf_set_queue; exact H1).
    destruct (processing l2) eqn:P; cbn [negb]; [exact H2 |].
    unfold processQueue. rewrite P.
    apply (wf_processQueue_loop (set_drain true (drain l2) l2)).
    apply wf_set_drain. exact H2.
Qed.

Lemma wf_step (l l' : RateLimiter) (e : Event) :
  well_formed cfg l -> step l e = Some l' -> well_formed cfg l'.
Proof.
  intros H. unfold step.
  destruct (time_of e <? clock l) eqn:Hclock; [discriminate |].
  apply Z.ltb_ge in Hclock.
  set (l0 := set_clock (time_of e) l).
  assert (H0 : well_formed cfg l0) by (apply wf_set_clock; assumption).
  destruct e as [now i prio | now | now]; simpl in l0 |- *.
  - intros E. inversion E. apply (wf_execute i prio l0). exact H0.
  - destruct (drain l) as [| wake | request]; try discriminate.
    destruct (wake <=? now); [| discriminate].
    intros E. inversion E. apply (wf_processQueue_shift l0). exact H0.
  - destruct (drain l) as [| wake | request]; try discriminate.
    intros E. inversion E. apply (wf_processQueue_loop l0). exact H0.
Qed.

Lemma wf_run (trace : list Event) (l l' : RateLimiter) :
  well_formed cfg l -> run l trace = Some l' -> well_formed cfg l'.
Proof.
  revert l. induction trace as [| e rest IH]; simpl; intros l H E.
  - inversion E. subst. exact H.
  - destruct (step l e) as [l1 |] eqn:S; [| discriminate].
    apply (IH l1); [apply (wf_step l l1 e); assumption | exact E].
Qed.

Lemma wf_reachable (l : RateLimiter) : reachable cfg l -> well_formed cfg l.
Proof.
  intros [trace E]. apply (wf_run trace (create cfg) l); [| exact E].
  unfold well_formed, create. simpl. repeat split. intros t [].
Qed.

End LimiterInvariant.

Section LimiterSnapshot.
Import RateLimiter.

(** At a limiter that has recorded nothing, [getInfo] does not report the
    current time as the reset instant but the current time plus the
    window.  And in the state the limiter reaches when its drain admits a
    request over the capacity (capacity 1, two timestamps in the window),
    [remaining] is 0 and not the capacity minus the count. *)
Lemma getInfo_empty_resetAt_counterexample :
  let l := create {| maxRequests := 10; windowMs := 60000 |} in
  (requests (state l) = []
   /\ resetAt (fst (getInfo 5000 l)) = 65000
   /\ resetAt (fst (getInfo 5000 l)) <> 5000)
  /\ (exists l',
        run (create {| maxRequests := 1; windowMs := 1000 |})
          [Execute 5000 1%nat 0; Execute 5010 2%nat 0; Execute 6000 3%nat 0; TimerFires 6001]
          = Some l'
        /\ active_count 6001 l' = 2
        /\ remaining (fst (getInfo 6001 l')) = 0
        /\ remaining (fst (getInfo 6001 l')) <> 1 - active_count 6001 l').
Proof.
  split.
  - vm_compute. repeat split. discriminate.
  - eexists. split; [vm_compute; reflexivity |].
    vm_compute. repeat split. discriminate.
Qed.

(** Pruning keeps exactly the timestamps inside the window. *)
Lemma pruned_inside_window (window now : Z) (timestamps : list Z) (t : Z) :
  In t (filter (fun timestamp => now - window <? timestamp) timestamps)
  <-> In t timestamps /\ inside_window window now t = true.
Proof.
  rewrite filter_In. unfold inside_window.
  split; intros [Hin Ht]; (split; [exact Hin |]).
  - apply Z.ltb_lt in Ht. apply Z.ltb_lt. lia.
  - apply Z.ltb_lt in Ht. apply Z.ltb_lt. lia.
Qed.

Lemma pruned_count (window now : Z) (timestamps : list Z) :
  Z.of_nat (length (filter (fun timestamp => now - window <? timestamp) timestamps))
  = count_inside_window window now timestamps.
Proof.
  induction timestamps as [| t rest IH]; [reflexivity |].
  cbn [filter count_inside_window]. unfold inside_window at 1.
  destruct (Z.ltb_spec (now - window) t) as [H | H];
    destruct (Z.ltb_spec (now - t) window) as [H' | H']; try lia.
  cbn [length]. rewrite Nat2Z.inj_succ, IH. lia.
Qed.

(** C4, as the code has it.  In every state the limiter can reach, with
    clock readings that are positive, [getInfo] returns as [remaining] the
    capacity minus the number of admission timestamps inside the window,
    and 0 when that is negative, and the capacity as [total]; [resetAt] is
    the oldest timestamp inside the window plus the window, and the
    current time plus the window when no timestamp is inside it. *)
Theorem getInfo_snapshot (cfg : RateLimitConfig) (l : RateLimiter) (now : Z) :
  reachable cfg l ->
  (forall t, In t (requests (state l)) -> 0 < t) ->
  let info := fst (getInfo now l) in
  let window := windowMs cfg in
  let timestamps := requests (state l) in
  remaining info = Z.max 0 (maxRequests cfg - count_inside_window window now timestamps)
  /\ total info = maxRequests cfg
  /\ (count_inside_window window now timestamps = 0 -> resetAt info = now + window)
  /\ (forall oldest,
        In oldest timestamps ->
        inside_window window now oldest = true ->
        (forall u, In u timestamps -> inside_window window now u = true -> oldest <= u) ->
        resetAt info = oldest + window).
Proof.
  intros Hreach Hpos info window timestamps.
  destruct (wf_reachable cfg l Hreach) as (Hcfg & _).
  destruct (wf_cleanOldRequests cfg now l (wf_reachable cfg l Hreach)) as (Hc & Ha & _).
  unfold info, getInfo. cbn [fst remaining total resetAt].
  set (l1 := cleanOldRequests now l) in *.
  assert (Hpruned : requests (state l1)
                    = filter (fun timestamp => now - window <? timestamp) timestamps).
  { unfold l1, cleanOldRequests, window, timestamps. rewrite Hcfg. reflexivity. }
  rewrite Hc. fold window.
  assert (Hlen : Z.of_nat (length (requests (state l1)))
                 = count_inside_window window now timestamps).
  { rewrite Hpruned. apply pruned_count. }
  repeat split.
  - rewrite Hlen. reflexivity.
  - intros E. rewrite E in Hlen.
    destruct (requests (state l1)) as [| t rest]; [reflexivity |].
    cbn [length] in Hlen. lia.
  - intros oldest Hin Hw Hleast.
    assert (Hin1 : In oldest (requests (state l1))).
    { rewrite Hpruned. apply pruned_inside_window. split; assumption. }
    destruct (requests (state l1)) as [| t rest] eqn:E; [destruct Hin1 |].
    assert (Ht : In t timestamps /\ inside_window window now t = true).
    { apply pruned_inside_window. rewrite <- Hpruned. left. reflexivity. }
    assert (Heq : t = oldest).
    { apply Z.le_antisymm.
      - apply (ascending_head_least t rest oldest Ha Hin1).
      - apply Hleast; apply Ht. }
    rewrite Heq.
    replace (oldest =? 0) with false; [reflexivity |].
    symmetry. apply Z.eqb_neq. specialize (Hpos oldest Hin). lia.
Qed.

(** Two admissions, at 5000 and at 5600, read at 6200 with a window of
    1000: the first has left the window and the second is the oldest
    inside it. *)
Lemma getInfo_snapshot_witness :
  let cfg := {| maxRequests := 5; windowMs := 1000 |} in
  let l := execute 5600 2 0 (set_clock 5600 (execute 5000 1 0 (set_clock 5000 (create cfg)))) in
  let info := fst (getInfo 6200 l) in
  requests (state l) = [5000; 5600]
  /\ count_inside_window 1000 6200 (requests (state l)) = 1
  /\ remaining info = 4
  /\ total info = 5
  /\ resetAt info = 6600.
Proof.
  intros cfg l info.
  assert (Hreach : reachable cfg l).
  { exists [Execute 5000 1%nat 0; Execute 5600 2%nat 0]. vm_compute. reflexivity. }
  assert (Hpos : forall t, In t (requests (state l)) -> 0 < t).
  { intros t Hin. vm_compute in Hin. destruct Hin as [E | [E | []]]; subst t; reflexivity. }
  destruct (getInfo_snapshot cfg l 6200 Hreach Hpos) as (Hrem & Htot & _ & Hold).
  split; [vm_compute; reflexivity |].
  split; [vm_compute; reflexivity |].
  split; [exact Hrem |].
  split; [exact Htot |].
  apply (Hold 5600).
  - vm_compute. right. left. reflexivity.
  - vm_compute. reflexivity.
  - intros u Hin Hw. vm_compute in Hin.
    destruct Hin as [E | [E | []]]; subst u; [vm_compute in Hw; discriminate | reflexivity].
Defined.

End LimiterSnapshot.

Section LimiterAdmission.
Import RateLimiter.

(** The immediate path of [execute] records a timestamp only under the
    capacity: the timestamps are then the survivors followed by the new
    one, and they do not outnumber the capacity. *)
Lemma execute_immediate_within_capacity (now : Z) (i : nat) (prio : Z) (l : RateLimiter) :
  fst (canMakeRequest now l) = true ->
  requests (state (execute now i prio l)) = survivors now l ++ [now]
  /\ Z.of_nat (length (requests (state (execute now i prio l)))) <= maxRequests (config l).
Proof.
  unfold execute, canMakeRequest, survivors. cbn [fst].
  set (l1 := cleanOldRequests now l).
  intros Hcan. rewrite Hcan. cbn.
  split; [reflexivity |].
  apply Z.ltb_lt in Hcan. rewrite length_app. cbn [length].
  change (config l1) with (config l) in Hcan.
  change (requests (state l1))
    with (filter (fun timestamp => now - windowMs (config l) <? timestamp)
            (requests (state l))) in Hcan.
  lia.
Qed.

(** C5.  Capacity 1, window 1000 ms.  A first request is admitted at 5000;
    a second, at 5010, is queued and the drain sleeps until 6000; a third
    arrives at 6000 and takes the slot that has just expired; the timer of
    the drain fires at 6001.  The drain then starts the second request
    although the limiter cannot admit one at that time, and two admission
    timestamps lie in the window. *)
Theorem drain_admits_beyond_capacity :
  let cfg := {| maxRequests := 1; windowMs := 1000 |} in
  exists before after,
    run (create cfg) [Execute 5000 1%nat 0; Execute 5010 2%nat 0; Execute 6000 3%nat 0]
      = Some before
    /\ step before (TimerFires 6001) = Some after
    /\ reachable cfg after
    /\ fst (canMakeRequest 6001 before) = false
    /\ started after = started before ++ [(2%nat, 6001)]
    /\ survivors 6001 after = [6000; 6001]
    /\ maxRequests cfg < active_count 6001 after.
Proof.
  intros cfg.
  exists {| config := cfg;
            state := {| requests := [6000];
                        queue := [{| id := 2; priority := 0; timestamp := 5010 |}] |};
            processing := true;
            drain := AwaitingReset 6000;
            clock := 6000;
            started := [(1%nat, 5000); (3%nat, 6000)] |}.
  exists {| config := cfg;
            state := {| requests := [6000; 6001]; queue := [] |};
            processing := true;
            drain := AwaitingWork {| id := 2; priority := 0; timestamp := 5010 |};
            clock := 6001;
            started := [(1%nat, 5000); (3%nat, 6000); (2%nat, 6001)] |}.
  split; [vm_compute; reflexivity |].
  split; [vm_compute; reflexivity |].
  split.
  - exists [Execute 5000 1%nat 0; Execute 5010 2%nat 0; Execute 6000 3%nat 0; TimerFires 6001].
    vm_compute. reflexivity.
  - repeat split; vm_compute; reflexivity.
Qed.

End LimiterAdmission.

(* ------------------------------------------------------------------ *)
(** ** Token manager *)

Section TokenFacts.
Import ErrorHandler RetryStrategy TokenManager Stubs.

(** A token that does not need a refresh has not expired. *)
Lemma not_needsRefresh_not_expired (nowMs : Z) (m : TokenManager) :
  needsRefresh nowMs m = false -> isTokenExpired nowMs m = false.
Proof.
  unfold needsRefresh, isTokenExpired, TOKEN_REFRESH_BUFFER_SECONDS.
  destruct (token m) as [t |]; [| discriminate].
  intros H. rewrite Z.geb_leb in H. apply Z.leb_gt in H.
  rewrite Z.geb_leb. apply Z.leb_gt. lia.
Qed.

(** [refreshToken] joins the refresh in progress: it starts nothing. *)
Lemma refreshToken_joins (m : TokenManager) (p : nat) :
  isRefreshing (refreshState m) = true -> promise (refreshState m) = Some p ->
  refreshToken m = (Awaits p, m).
Proof.
  intros H1 H2. unfold refreshToken. rewrite H1, H2. reflexivity.
Qed.

(** Two concurrent calls of [refreshToken] share one acquisition. *)
Lemma refreshToken_twice_single_flight :
  exists m,
    run create [RefreshToken 1; RefreshToken 2] = Some m
    /\ inflight m = [{| acq := 0; byRefresh := true |}]
    /\ replies m = [(1%nat, Awaits 0); (2%nat, Awaits 0)].
Proof. eexists. repeat split. Qed.

(** The endpoint that is down exhausts the three attempts of
    [acquireToken]. *)
Lemma endpoint_down_attempt (at_s : Z) (rnd : nat -> Q) :
  acquisition_attempt (endpoint_down at_s) rnd
  = Some (Thrown (AuthError "Authentication failed: 500 Internal Server Error" None)).
Proof.
  vm_compute. reflexivity.
Qed.

(** With no refresh in progress, [getToken] returns a held token that is
    outside the refresh buffer, and starts nothing. *)
Lemma getToken_returns_held (nowMs : Z) (m : TokenManager) (t : Token) :
  isRefreshing (refreshState m) = false ->
  token m = Some t ->
  needsRefresh nowMs m = false ->
  getToken nowMs m = (Ready t, m).
Proof.
  intros Hidle Htok Hfresh.
  pose proof (not_needsRefresh_not_expired nowMs m Hfresh) as Hexp.
  unfold getToken. rewrite Hidle, Htok, Hexp, Hfresh. reflexivity.
Qed.

(** With no refresh in progress, [getToken] on a held token inside the
    refresh buffer (or expired) starts a refresh. *)
Lemma getToken_starts_refresh (nowMs : Z) (m : TokenManager) (t : Token) :
  isRefreshing (refreshState m) = false ->
  token m = Some t ->
  needsRefresh nowMs m = true ->
  exists m'',
    getToken nowMs m = (Awaits (fresh m), m'')
    /\ token m'' = Some t
    /\ promise (refreshState m'') = Some (fresh m)
    /\ inflight m'' = inflight m ++ [{| acq := fresh m; byRefresh := true |}].
Proof.
  intros Hidle Htok Hstale.
  unfold getToken. rewrite Hidle, Htok, Hstale.
  assert (R : refreshToken m
              = (Awaits (fresh m),
                 {| token := token m;
                    refreshState := {| isRefreshing := true; promise := Some (fresh m) |};
                    inflight := inflight m ++ [{| acq := fresh m; byRefresh := true |}];
                    fresh := S (fresh m);
                    replies := replies m;
                    settled := settled m |})).
  { unfold refreshToken. rewrite Hidle. reflexivity. }
  eexists. split.
  - destruct (isTokenExpired nowMs m); exact R.
  - cbn. repeat split. exact Htok.
Qed.

(** With no token held and no refresh registered, [getToken] starts an
    acquisition of its own, whatever is already in flight, and registers
    nothing in the refresh state. *)
Lemma getToken_without_token_starts_acquisition (nowMs : Z) (m : TokenManager) :
  token m = None ->
  isRefreshing (refreshState m) = false ->
  exists m',
    getToken nowMs m = (Awaits (fresh m), m')
    /\ inflight m' = inflight m ++ [{| acq := fresh m; byRefresh := false |}]
    /\ refreshState m' = refreshState m
    /\ token m' = None.
Proof.
  intros Htok Hidle. unfold getToken. rewrite Hidle, Htok.
  eexists. cbn. repeat split. exact Htok.
Qed.

End TokenFacts.

Section SingleFlight.
Import ErrorHandler RetryStrategy TokenManager Stubs.

(** C7.  Two callers of [getToken] that arrive while no token is held
    each start an acquisition of their own: two requests against the
    authentication endpoint are in flight at once, neither is registered
    in the refresh state, and when the endpoint answers them with
    different tokens the two callers receive different tokens. *)
Theorem getToken_without_token_not_single_flight (rnd : nat -> Q) :
  exists m m',
    run create [GetToken 1 5000; GetToken 2 5001] = Some m
    /\ inflight m = [{| acq := 0; byRefresh := false |}; {| acq := 1; byRefresh := false |}]
    /\ promise (refreshState m) = None
    /\ run m [Settles 0 (endpoint_grants "token-A" 6) rnd;
              Settles 1 (endpoint_grants "token-B" 7) rnd] = Some m'
    /\ received 1 m' = Some (Returned (token_of "token-A" 6))
    /\ received 2 m' = Some (Returned (token_of "token-B" 7))
    /\ received 1 m' <> received 2 m'.
Proof.
  eexists. eexists.
  split; [vm_compute; reflexivity |].
  split; [reflexivity |].
  split; [reflexivity |].
  split; [vm_compute; reflexivity |].
  split; [vm_compute; reflexivity |].
  split; [vm_compute; reflexivity |].
  vm_compute. discriminate.
Qed.

End SingleFlight.

Section FailedRefresh.
Import ErrorHandler RetryStrategy TokenManager Stubs.

(** A token issued at second 0 for 3600 seconds is held; at second 3400
    it has not expired.  A refresh fails, and the next [getToken], one
    second later, does not return the held token: it starts another
    refresh, and when that fails too the caller receives the error. *)
Lemma failed_refresh_token_not_served_counterexample :
  exists m,
    run create [GetToken 0 0; Settles 0 (endpoint_grants "token-A" 0) (fun _ => 0%Q);
                GetToken 1 3400000; Settles 1 (endpoint_down 3400) (fun _ => 0%Q);
                GetToken 2 3401000; Settles 2 (endpoint_down 3401) (fun _ => 0%Q)] = Some m
    /\ token m = Some (token_of "token-A" 0)
    /\ isTokenExpired 3401000 m = false
    /\ received 2 m = Some (Thrown endpoint_down_error)
    /\ received 2 m <> Some (Returned (token_of "token-A" 0)).
Proof.
  eexists.
  split; [vm_compute; reflexivity |].
  split; [reflexivity |].
  split; [reflexivity |].
  split; [reflexivity |].
  discriminate.
Qed.

(** C8, as the code has it.  When a refresh of a manager that holds a
    token fails, the held token is unchanged, the refresh state is
    cleared and the callers of the refresh are given an [AuthError] that
    wraps the failure.  A later [getToken] returns the held token, without
    contacting the endpoint, when the token is more than 300 seconds from
    its expiry; otherwise it starts a new refresh and hands out the promise
    of that refresh. *)
Theorem failed_refresh_keeps_token
    (m : TokenManager) (t : Token) (k : nat) (a : Acquisition)
    (script : nat -> AuthFetch * Z) (rnd : nat -> Q) (e : Error) :
  token m = Some t ->
  find_acquisition k m = Some a ->
  byRefresh a = true ->
  acquisition_attempt script rnd = Some (Thrown e) ->
  exists m',
    step m (Settles k script rnd) = Some m'
    /\ token m' = Some t
    /\ refreshState m' = {| isRefreshing := false; promise := None |}
    /\ settled m'
       = settled m ++ [(k, Thrown (AuthError "Failed to authenticate with API" (Some e)))]
    /\ (forall nowMs, needsRefresh nowMs m' = false -> getToken nowMs m' = (Ready t, m'))
    /\ (forall nowMs, needsRefresh nowMs m' = true ->
          exists m'',
            getToken nowMs m' = (Awaits (fresh m'), m'')
            /\ token m'' = Some t
            /\ promise (refreshState m'') = Some (fresh m')
            /\ inflight m'' = inflight m' ++ [{| acq := fresh m'; byRefresh := true |}]).
Proof.
  intros Htok Hfind Hby Hattempt.
  unfold step. rewrite Hattempt. unfold settle. rewrite Hfind.
  cbn [acquireToken_finish]. rewrite Hby.
  eexists. split; [reflexivity |].
  split; [exact Htok |].
  split; [reflexivity |].
  split; [reflexivity |].
  split.
  - intros nowMs Hfresh. apply getToken_returns_held; [reflexivity | exact Htok | exact Hfresh].
  - intros nowMs Hstale.
    apply (getToken_starts_refresh nowMs _ t); [reflexivity | exact Htok | exact Hstale].
Qed.

Lemma failed_refresh_keeps_token_witness :
  exists m m',
    run create [GetToken 0 0; Settles 0 (endpoint_grants "token-A" 0) (fun _ => 0%Q);
                GetToken 1 3400000] = Some m
    /\ step m (Settles 1 (endpoint_down 3400) (fun _ => 0%Q)) = Some m'
    /\ token m' = Some (token_of "token-A" 0)
    /\ refreshState m' = {| isRefreshing := false; promise := None |}.
Proof.
  eexists.
  destruct (failed_refresh_keeps_token
              {| token := Some (token_of "token-A" 0);
                 refreshState := {| isRefreshing := true; promise := Some 1%nat |};
                 inflight := [{| acq := 1; byRefresh := true |}];
                 fresh := 2;
                 replies := [(0%nat, Awaits 0); (1%nat, Awaits 1)];
                 settled := [(0%nat, Returned (token_of "token-A" 0))] |}
              (token_of "token-A" 0) 1 {| acq := 1; byRefresh := true |}
              (endpoint_down 3400) (fun _ => 0%Q)
              (AuthError "Authentication failed: 500 Internal Server Error" None)
              eq_refl eq_refl eq_refl (endpoint_down_attempt 3400 (fun _ => 0%Q)))
    as (m' & Hstep & Htok & Hstate & _).
  exists m'. split; [vm_compute; reflexivity |].
  split; [exact Hstep |]. split; [exact Htok | exact Hstate].
Defined.

End FailedRefresh.

(* ------------------------------------------------------------------ *)
(** ** Campaign worker and report *)

Section WorkerFacts.
Import CampaignWorker SyncOrchestrator.
Variable World : Type.
Variable Date_now : World -> Z * World.
Variable syncCampaignFn : string -> Async World unit.
Variable saveCampaignFn : Campaign -> Async World unit.

Local Abbreviation worker := (syncCampaign World Date_now syncCampaignFn saveCampaignFn).

(** [syncCampaign] settles with a result for the campaign it was given and
    a retry count of 0, whatever the injected functions do. *)
Lemma syncCampaign_never_throws (campaign : Campaign) (w : World) :
  exists result w',
    worker campaign w = (Returned result, w')
    /\ campaignId result = c_id campaign
    /\ retries result = 0.
Proof.
  unfold syncCampaign, bind, try_catch, now, ret.
  destruct (Date_now w) as [t0 w0].
  destruct (syncCampaignFn (c_id campaign) w0) as [[[] | e1] w1].
  - destruct (saveCampaignFn campaign w1) as [[[] | e2] w2].
    + destruct (Date_now w2) as [t1 w3]. eexists. eexists. repeat split.
    + destruct (Date_now w2) as [t1 w3]. eexists. eexists. repeat split.
  - destruct (Date_now w1) as [t1 w2]. eexists. eexists. repeat split.
Qed.

(** The sum of the retry counts starts from the accumulator. *)
Lemma retry_sum_zero (rs : list SyncResult) (acc : Z) :
  Forall (fun r => retries r = 0) rs ->
  fold_left (fun sum r => sum + retries r) rs acc = acc.
Proof.
  revert acc. induction rs as [| r rest IH]; intros acc H; simpl; [reflexivity |].
  inversion H as [| r' rest' Hr Hrest]; subst.
  rewrite Hr, Z.add_0_r. apply IH. exact Hrest.
Qed.

(** The sequential [syncCampaigns] settles with one result per campaign,
    each a result of [syncCampaign]. *)
Lemma syncCampaigns_from_results (campaigns : list Campaign) (acc : list SyncResult) (w : World) :
  Forall (fun r => retries r = 0) acc ->
  exists rs w',
    syncCampaigns_from World Date_now syncCampaignFn saveCampaignFn campaigns acc w
      = (Returned rs, w')
    /\ Forall (fun r => retries r = 0) rs
    /\ map campaignId rs = map campaignId acc ++ map c_id campaigns.
Proof.
  revert acc w. induction campaigns as [| c rest IH]; intros acc w Hacc.
  - exists acc, w. simpl. rewrite app_nil_r. repeat split. exact Hacc.
  - cbn [syncCampaigns_from]. unfold bind at 1.
    destruct (syncCampaign_never_throws c w) as (r & w1 & E & Hid & Hr).
    rewrite E.
    destruct (IH (acc ++ [r]) w1) as (rs & w' & E' & Hrs & Hids).
    { apply Forall_app. split; [exact Hacc |]. constructor; [exact Hr | constructor]. }
    exists rs, w'. split; [exact E' |]. split; [exact Hrs |].
    rewrite Hids, map_app. cbn [map]. rewrite Hid, <- app_assoc. reflexivity.
Qed.

(** C10.  For every campaign and every behaviour of the injected sync
    and save functions, [syncCampaign] does not throw and returns a result
    whose [campaignId] is the campaign's id and whose [retries] is 0; and
    the report generated from any results the worker produced has
    [retryCount = 0]. *)
Theorem syncCampaign_reports_no_retries :
  (forall (campaign : Campaign) (w : World),
      exists result w',
        worker campaign w = (Returned result, w')
        /\ campaignId result = c_id campaign
        /\ retries result = 0)
  /\ (forall (startTime endTime totalCampaigns : Z) (rs : list SyncResult),
        Forall (fun r => exists campaign w, fst (worker campaign w) = Returned r) rs ->
        retryCount (generateReport startTime endTime totalCampaigns rs) = 0).
Proof.
  split.
  - exact syncCampaign_never_throws.
  - intros startTime endTime totalCampaigns rs Hrs.
    unfold generateReport. cbn [retryCount].
    apply retry_sum_zero.
    apply Forall_impl with (2 := Hrs).
    intros r (campaign & w & E).
    destruct (syncCampaign_never_throws campaign w) as (r' & w' & E' & _ & Hr).
    rewrite E' in E. cbn [fst] in E. inversion E. subst. exact Hr.
Qed.

End WorkerFacts.

Lemma syncCampaign_reports_no_retries_witness :
  retryCount
    (SyncOrchestrator.generateReport 0 10 1
       [{| campaignId := "campaign_1"; success := false;
           error := Some (PlainError "sync failed"); retries := 0; duration := 0 |}]) = 0.
Proof.
  apply (proj2 (syncCampaign_reports_no_retries unit
                  (fun w => (0, w))
                  (fun _ w => (Thrown (PlainError "sync failed"), w))
                  (fun _ w => (Returned tt, w)))).
  constructor; [| constructor].
  exists {| c_id := "campaign_1"; c_name := "Campaign 1" |}, tt. reflexivity.
Defined.

(* ------------------------------------------------------------------ *)
(** ** Helper functions *)

Section ChunkFacts.
Import Helpers.
Context {T : Type}.

Lemma slice_forward (array : list T) (i size : Z) :
  0 <= i -> i < Z.of_nat (length array) -> 1 <= size ->
  slice array i (i + size) = firstn (Z.to_nat size) (skipn (Z.to_nat i) array)
  /\ (1 <= length (slice array i (i + size)) <= Z.to_nat size)%nat.
Proof.
  intros Hi Hlen Hsize. unfold slice.
  replace (i <? 0) with false by (symmetry; apply Z.ltb_ge; lia).
  replace (i + size <? 0) with false by (symmetry; apply Z.ltb_ge; lia).
  rewrite (Z.min_l i) by lia.
  set (len := Z.of_nat (length array)) in *.
  assert (Hskip : length (skipn (Z.to_nat i) array) = Z.to_nat (len - i)).
  { rewrite length_skipn. unfold len. lia. }
  destruct (Z.min_spec (i + size) len) as [[Hlt E] | [Hge E]]; rewrite E.
  - replace (i + size - i) with size by lia. split; [reflexivity |].
    rewrite length_firstn, Hskip. lia.
  - split.
    + rewrite !firstn_all2; [reflexivity | rewrite Hskip; lia | rewrite Hskip; lia].
    + rewrite length_firstn, Hskip. lia.
Qed.

Lemma chunk_loop_spec (array : list T) (size : Z) :
  1 <= size ->
  forall (fuel : nat) (i : Z) (chunks : list (list T)),
    0 <= i ->
    (length array - Z.to_nat i <= fuel)%nat ->
    exists rest,
      chunk_loop fuel array size i chunks = Some (chunks ++ rest)
      /\ concat rest = skipn (Z.to_nat i) array
      /\ Forall (fun c => (1 <= length c <= Z.to_nat size)%nat) rest.
Proof.
  intros Hsize. induction fuel as [| fuel IH]; intros i chunks Hi Hfuel.
  - simpl. replace (i <? Z.of_nat (length array)) with false
      by (symmetry; apply Z.ltb_ge; lia).
    exists []. rewrite app_nil_r. repeat split; [| constructor].
    symmetry. apply skipn_all2. lia.
  - simpl. destruct (i <? Z.of_nat (length array)) eqn:Hlt.
    + apply Z.ltb_lt in Hlt.
      destruct (slice_forward array i size Hi Hlt Hsize) as [Hs Hl].
      destruct (IH (i + size) (chunks ++ [slice array i (i + size)])) as (rest & E & Hc & Hf);
        [lia | lia |].
      exists (slice array i (i + size) :: rest).
      rewrite E, <- app_assoc. split; [reflexivity |]. split.
      * simpl. rewrite Hc, Hs.
        replace (Z.to_nat (i + size)) with (Z.to_nat size + Z.to_nat i)%nat by lia.
        rewrite <- skipn_skipn. apply firstn_skipn.
      * constructor; assumption.
    + apply Z.ltb_ge in Hlt. exists []. rewrite app_nil_r. repeat split; [| constructor].
      symmetry. apply skipn_all2. lia.
Qed.

(** X1.  [chunk] with a size of at least 1 returns, within as many iterations
    as the array has elements, pieces that are never empty, never longer
    than [size], and that give the array back when concatenated. *)
Theorem chunk_partitions (array : list T) (size : Z) (fuel : nat) :
  1 <= size -> (length array <= fuel)%nat ->
  exists chunks,
    chunk fuel array size = Some chunks
    /\ concat chunks = array
    /\ Forall (fun c => (1 <= length c <= Z.to_nat size)%nat) chunks.
Proof.
  intros Hsize Hfuel. unfold chunk.
  destruct (chunk_loop_spec array size Hsize fuel 0 []) as (rest & E & Hc & Hf);
    [lia | simpl; lia |].
  exists rest. split; [exact E |]. split; [exact Hc | exact Hf].
Qed.

Lemma chunk_loop_stuck (array : list T) (size : Z) :
  size <= 0 -> array <> [] ->
  forall (fuel : nat) (i : Z) (chunks : list (list T)),
    i <= 0 -> chunk_loop fuel array size i chunks = None.
Proof.
  intros Hsize Hne.
  assert (Hlen : 0 < Z.of_nat (length array)).
  { destruct array; [congruence | simpl; lia]. }
  induction fuel as [| fuel IH]; intros i chunks Hi; simpl;
    replace (i <? Z.of_nat (length array)) with true by (symmetry; apply Z.ltb_lt; lia).
  - reflexivity.
  - apply IH. lia.
Qed.

(** X2.  With a size of 0 or less the loop of [chunk] over a non-empty array
    never ends: no number of iterations makes it return. *)
Theorem chunk_nonpositive_size_never_returns (array : list T) (size : Z) (fuel : nat) :
  size <= 0 -> array <> [] -> chunk fuel array size = None.
Proof.
  intros Hsize Hne. unfold chunk. apply chunk_loop_stuck; [assumption | assumption | lia].
Qed.

End ChunkFacts.

Lemma chunk_partitions_witness :
  exists chunks,
    Helpers.chunk 5 [1; 2; 3; 4; 5] 2 = Some chunks
    /\ concat chunks = [1; 2; 3; 4; 5]
    /\ Forall (fun c => (1 <= length c <= Z.to_nat 2)%nat) chunks.
Proof.
  apply (chunk_partitions [1; 2; 3; 4; 5] 2 5).
  - lia.
  - simpl. lia.
Defined.

Lemma chunk_nonpositive_size_never_returns_witness :
  Helpers.chunk 1000 [1; 2; 3] 0 = None.
Proof.
  apply (chunk_nonpositive_size_never_returns [1; 2; 3] 0 1000).
  - lia.
  - discriminate.
Defined.

Section ScalarHelpers.
Import Helpers.

(** [clamp] returns a value between the bounds when they are in order,
    the value itself when it already lies between them, and the upper
    bound when the bounds are crossed. *)
Theorem clamp_spec (value lo hi : Z) :
  (lo <= hi -> lo <= clamp value lo hi <= hi)
  /\ (lo <= value <= hi -> clamp value lo hi = value)
  /\ (hi < lo -> clamp value lo hi = hi).
Proof.
  unfold clamp. repeat split; intros; lia.
Qed.

(** [percentage] is 0 for a total of 0, and for a part of a positive total
    it lies between 0 and 100, with 100 for the whole. *)
Theorem percentage_bounds (value total : Z) :
  percentage value 0 = 0
  /\ (0 < total -> 0 <= value <= total ->
      0 <= percentage value total <= 100)
  /\ (0 < total -> percentage total total = 100).
Proof.
  split; [reflexivity |].
  assert (Hq : forall t, 0 < t -> (0 < inject_Z t)%Q).
  { intros t Ht. change (inject_Z 0 < inject_Z t)%Q. rewrite <- Zlt_Qlt. exact Ht. }
  split.
  - intros Ht [Hv0 Hv1]. unfold percentage.
    replace (total =? 0) with false by (symmetry; apply Z.eqb_neq; lia).
    pose proof (Hq total Ht) as Htq.
    assert (Hvq0 : (0 <= inject_Z value)%Q).
    { change (inject_Z 0 <= inject_Z value)%Q. rewrite <- Zle_Qle. exact Hv0. }
    assert (Hvq1 : (inject_Z value <= inject_Z total)%Q) by (rewrite <- Zle_Qle; exact Hv1).
    assert (Hlo : (0 <= inject_Z value / inject_Z total)%Q).
    { apply Qle_shift_div_l; [exact Htq |]. rewrite Qmult_0_l. exact Hvq0. }
    assert (Hhi : (inject_Z value / inject_Z total <= 1)%Q).
    { apply Qle_shift_div_r; [exact Htq |]. rewrite Qmult_1_l. exact Hvq1. }
    set (q := (inject_Z value / inject_Z total)%Q) in *. clearbody q.
    split.
    + rewrite <- (Math_round_Z 0). apply Math_round_mono.
      change (inject_Z 0) with 0%Q. lra.
    + assert (H : Math_round (q * 100) <= Math_round (inject_Z 100)).
      { apply Math_round_mono. change (inject_Z 100) with 100%Q. lra. }
      rewrite Math_round_Z in H. exact H.
  - intros Ht. unfold percentage.
    replace (total =? 0) with false by (symmetry; apply Z.eqb_neq; lia).
    pose proof (Hq total Ht) as Htq.
    transitivity (Math_round (inject_Z 100)); [| apply Math_round_Z].
    unfold Math_round. apply Qfloor_comp.
    change (inject_Z 100) with 100%Q.
    field. intros E. rewrite E in Htq. apply (Qlt_irrefl 0). exact Htq.
Qed.

Lemma length_substring0 (n : Z) (s : string) :
  String.length (substring0 n s) = Nat.min (Z.to_nat n) (String.length s).
Proof.
  unfold substring0. generalize (Z.to_nat n) as m. clear n.
  induction s as [| c s IH]; intros m.
  - destruct m; reflexivity.
  - destruct m as [| m]; [reflexivity |]. simpl. rewrite IH. reflexivity.
Qed.

Lemma length_append (a b : string) :
  String.length (a ++ b) = (String.length a + String.length b)%nat.
Proof.
  induction a as [| c a IH]; simpl; [reflexivity | rewrite IH; reflexivity].
Qed.

(** X3.  [truncate] returns a string that fits and is left alone; a longer one
    is cut so that, with the suffix, it has exactly [maxLength] characters,
    provided the suffix itself fits.  When the suffix does not fit, the
    result is the suffix alone, longer than [maxLength]. *)
Theorem truncate_length (str : string) (maxLength : Z) (suffix : string) :
  (Z.of_nat (String.length str) <= maxLength -> truncate str maxLength suffix = str)
  /\ (maxLength < Z.of_nat (String.length str) ->
      Z.of_nat (String.length suffix) <= maxLength ->
      Z.of_nat (String.length (truncate str maxLength suffix)) = maxLength)
  /\ (maxLength < Z.of_nat (String.length str) ->
      maxLength < Z.of_nat (String.length suffix) ->
      truncate str maxLength suffix = suffix).
Proof.
  unfold truncate. repeat split.
  - intros H. apply Z.leb_le in H. rewrite H. reflexivity.
  - intros Hlong Hfit.
    replace (Z.of_nat (String.length str) <=? maxLength) with false
      by (symmetry; apply Z.leb_gt; lia).
    rewrite length_append, length_substring0. lia.
  - intros Hlong Hbig.
    replace (Z.of_nat (String.length str) <=? maxLength) with false
      by (symmetry; apply Z.leb_gt; lia).
    unfold substring0.
    replace (Z.to_nat (maxLength - Z.of_nat (String.length suffix))) with 0%nat by lia.
    destruct str; reflexivity.
Qed.

End ScalarHelpers.

Lemma truncate_length_witness :
  Z.of_nat (String.length (Helpers.truncate "Campaign sync report" 10 "...")) = 10.
Proof.
  apply (proj1 (proj2 (truncate_length "Campaign sync report" 10 "..."))).
  - simpl. lia.
  - simpl. lia.
Defined.

Lemma percentage_bounds_witness : 0 <= Helpers.percentage 7 9 <= 100.
Proof.
  apply (proj1 (proj2 (percentage_bounds 7 9))); lia.
Defined.

Lemma clamp_spec_witness : 0 <= Helpers.clamp 15 0 10 <= 10.
Proof.
  apply (proj1 (clamp_spec 15 0 10)). lia.
Defined.

Section RetryWithDelayFacts.
Import Helpers.
Context {T : Type}.
Variable fn : nat -> Outcome Error T.
Variable delayMs : Z.

Lemma retryWithDelay_from_spec (budget k : nat) (slept : list Z) :
  let run := retryWithDelay_from fn delayMs budget k slept in
  fn (pred (d_invocations run)) = d_outcome run
  /\ (k < d_invocations run <= S (k + budget))%nat
  /\ d_sleeps run = slept ++ repeat delayMs (pred (d_invocations run) - k)
  /\ (forall j, (k <= j < pred (d_invocations run))%nat -> exists e, fn j = Thrown e)
  /\ ((exists e, d_outcome run = Thrown e) -> d_invocations run = S (k + budget)).
Proof.
  revert k slept. induction budget as [| budget IH]; intros k slept; simpl.
  - destruct (fn k) as [v | e] eqn:Hfn; simpl;
      rewrite Hfn, Nat.sub_diag, app_nil_r; repeat split; lia.
  - destruct (fn k) as [v | e] eqn:Hfn; simpl.
    + rewrite Hfn, Nat.sub_diag, app_nil_r. repeat split; try lia.
      intros [e He]. discriminate.
    + destruct (IH (S k) (slept ++ [delayMs])) as (H1 & H2 & H3 & H4 & H5).
      set (run := retryWithDelay_from fn delayMs budget (S k) (slept ++ [delayMs])) in *.
      split; [exact H1 |]. split; [lia |]. split.
      * rewrite H3, <- app_assoc. f_equal.
        replace (pred (d_invocations run) - k)%nat
          with (S (pred (d_invocations run) - S k)) by lia.
        reflexivity.
      * split.
        -- intros j Hj. destruct (Nat.eq_dec j k) as [-> | Hne].
           ++ exists e. exact Hfn.
           ++ apply H4. lia.
        -- intros He. rewrite (H5 He). lia.
Qed.

(** X4.  [retryWithDelay] settles the way its last invocation settled, after
    failures only; it invokes the function at most [retries + 1] times
    and sleeps [delayMs] between two invocations; and when it throws, it
    has used all [retries + 1] invocations. *)
Theorem retryWithDelay_spec (retries : Z) :
  0 <= retries ->
  let run := retryWithDelay fn retries delayMs in
  fn (pred (d_invocations run)) = d_outcome run
  /\ (1 <= Z.of_nat (d_invocations run) <= retries + 1)
  /\ d_sleeps run = repeat delayMs (pred (d_invocations run))
  /\ (forall j, (j < pred (d_invocations run))%nat -> exists e, fn j = Thrown e)
  /\ ((exists e, d_outcome run = Thrown e) -> Z.of_nat (d_invocations run) = retries + 1).
Proof.
  intros Hr. unfold retryWithDelay.
  destruct (retryWithDelay_from_spec (Z.to_nat retries) 0 []) as (H1 & H2 & H3 & H4 & H5).
  cbv zeta.
  set (run := retryWithDelay_from fn delayMs (Z.to_nat retries) 0 []) in *.
  split; [exact H1 |]. split; [lia |]. split.
  - rewrite H3, Nat.sub_0_r. reflexivity.
  - split.
    + intros j Hj. apply H4. lia.
    + intros He. rewrite (H5 He). lia.
Qed.

End RetryWithDelayFacts.

Lemma retryWithDelay_spec_witness :
  let run := Helpers.retryWithDelay (T := Z)
               (fun k => if (k <? 2)%nat then Thrown (PlainError "ECONNREFUSED")
                         else Returned 42) 3 500 in
  Helpers.d_invocations run = 3%nat /\ Helpers.d_sleeps run = [500; 500].
Proof.
  pose proof (retryWithDelay_spec (T := Z)
                (fun k => if (k <? 2)%nat then Thrown (PlainError "ECONNREFUSED")
                          else Returned 42) 500 3) as H.
  assert (Hr : 0 <= 3) by lia.
  specialize (H Hr). cbv zeta in H. destruct H as (_ & _ & Hs & _).
  split; [reflexivity | exact Hs].
Defined.

(* ------------------------------------------------------------------ *)
(** ** Retry engine: further properties *)

Section RetryAccounting.
Import ErrorHandler RetryStrategy.
Context {T : Type}.
Variable fn : nat -> Outcome Error T.
Variable rnd : nat -> Q.
Variable opts : RetryOptions.

Lemma retryLoop_counts (fuel attempt : nat) (lastError : option Error)
    (slept : list number) (run : RetryRun T) :
  Z.of_nat attempt < maxAttempts opts ->
  length slept = attempt ->
  retryLoop fn rnd opts fuel attempt lastError slept = Some run ->
  (attempt < invocations run)%nat
  /\ Z.of_nat (invocations run) <= maxAttempts opts
  /\ length (sleeps run) = pred (invocations run).
Proof.
  revert attempt lastError slept.
  induction fuel as [| fuel IH]; intros attempt lastError slept Hlt Hlen.
  - simpl. apply Z.ltb_lt in Hlt. rewrite Hlt. discriminate.
  - rewrite retryLoop_step. pose proof Hlt as Hb. apply Z.ltb_lt in Hb. rewrite Hb.
    destruct (fn attempt) as [v | e].
    + intros E. inversion E. simpl. repeat split; [lia | lia | exact Hlen].
    + destruct (shouldRetry e (Z.of_nat (S attempt)) (maxAttempts opts)
                  (retryableErrors opts)) eqn:Hretry; cbn [negb].
      * intros E. apply IH in E.
        -- destruct E as (H1 & H2 & H3). repeat split; [lia | exact H2 | exact H3].
        -- unfold shouldRetry in Hretry.
           destruct (Z.of_nat (S attempt) >=? maxAttempts opts) eqn:Hge; [discriminate |].
           rewrite Z.geb_leb in Hge. apply Z.leb_gt in Hge. exact Hge.
        -- rewrite length_app, Hlen. simpl. lia.
      * intros E. inversion E. simpl. repeat split; [lia | lia | exact Hlen].
Qed.

(** X5.  [withRetry] invokes the operation at least once and at most
    [maxAttempts] times, and sleeps exactly once between two consecutive
    invocations. *)
Theorem withRetry_invocations_and_sleeps (run : RetryRun T) :
  1 <= maxAttempts opts ->
  withRetry_body fn rnd opts = Some run ->
  1 <= Z.of_nat (invocations run) <= maxAttempts opts
  /\ length (sleeps run) = pred (invocations run).
Proof.
  intros Hmax E. unfold withRetry_body in E.
  destruct (retryLoop_counts (Z.to_nat (maxAttempts opts)) 0%nat None [] run)
    as (H1 & H2 & H3); [simpl; lia | reflexivity | exact E |].
  split; [lia | exact H3].
Qed.

Lemma retryLoop_success (errs : nat -> Error) (v : T) (k : nat) :
  Z.of_nat k < maxAttempts opts ->
  (forall j, (j < k)%nat ->
     fn j = Thrown (errs j)
     /\ shouldRetry (errs j) (Z.of_nat (S j)) (maxAttempts opts) (retryableErrors opts) = true) ->
  fn k = Returned v ->
  forall (d attempt fuel : nat) (lastError : option Error) (slept : list number),
    (attempt + d = k)%nat -> (d < fuel)%nat ->
    retryLoop fn rnd opts fuel attempt lastError slept
    = Some {| outcome := Returned v;
              sleeps := slept ++ map (fun j => getRetryDelay (rnd j) (errs j) j opts)
                                   (seq attempt d);
              invocations := S k |}.
Proof.
  intros Hk Hfail Hok.
  induction d as [| d IH]; intros attempt fuel lastError slept Hsum Hfuel.
  - destruct fuel as [| fuel]; [lia |]. rewrite retryLoop_step.
    assert (attempt = k) by lia. subst attempt.
    replace (Z.of_nat k <? maxAttempts opts) with true by (symmetry; apply Z.ltb_lt; lia).
    rewrite Hok. simpl. rewrite app_nil_r. reflexivity.
  - destruct fuel as [| fuel]; [lia |]. rewrite retryLoop_step.
    replace (Z.of_nat attempt <? maxAttempts opts) with true
      by (symmetry; apply Z.ltb_lt; lia).
    destruct (Hfail attempt) as [Hf Hr]; [lia |].
    rewrite Hf, Hr. cbn [negb].
    rewrite IH by lia.
    replace (S attempt - 1)%nat with attempt by lia.
    cbn [seq map]. rewrite <- app_assoc. reflexivity.
Qed.

(** X6.  When the first [k] invocations fail with errors the engine retries
    and invocation [k] succeeds below the ceiling, [withRetry] returns
    that value after [k + 1] invocations, having slept, after failure [j],
    the delay [getRetryDelay] gives for that error at attempt index [j]. *)
Theorem withRetry_returns_first_success (errs : nat -> Error) (v : T) (k : nat) :
  Z.of_nat k < maxAttempts opts ->
  (forall j, (j < k)%nat ->
     fn j = Thrown (errs j)
     /\ shouldRetry (errs j) (Z.of_nat (S j)) (maxAttempts opts) (retryableErrors opts) = true) ->
  fn k = Returned v ->
  withRetry_body fn rnd opts
  = Some {| outcome := Returned v;
            sleeps := map (fun j => getRetryDelay (rnd j) (errs j) j opts) (seq 0 k);
            invocations := S k |}.
Proof.
  intros Hk Hfail Hok. unfold withRetry_body.
  rewrite (retryLoop_success errs v k Hk Hfail Hok k 0%nat); [reflexivity | lia | lia].
Qed.

(** X7.  An error that is not retryable is rethrown at once: one invocation,
    no sleep. *)
Theorem withRetry_rethrows_unretryable (e : Error) :
  1 <= maxAttempts opts ->
  fn 0%nat = Thrown e ->
  isRetryableError e = false ->
  withRetry_body fn rnd opts
  = Some {| outcome := Thrown e; sleeps := []; invocations := 1 |}.
Proof.
  intros Hmax Hfn Hno. unfold withRetry_body.
  destruct (Z.to_nat (maxAttempts opts)) as [| fuel] eqn:F; [lia |].
  rewrite retryLoop_step.
  replace (Z.of_nat 0 <? maxAttempts opts) with true
    by (symmetry; apply Z.ltb_lt; simpl; lia).
  rewrite Hfn.
  assert (Hstop : shouldRetry e (Z.of_nat 1) (maxAttempts opts) (retryableErrors opts) = false).
  { unfold shouldRetry. rewrite Hno. destruct (Z.of_nat 1 >=? maxAttempts opts); reflexivity. }
  rewrite Hstop. reflexivity.
Qed.

(** X8.  With a ceiling of 0 or less [withRetry] never invokes the operation:
    it throws a [MaxRetriesExceededError] that wraps no error. *)
Theorem withRetry_without_attempts :
  maxAttempts opts <= 0 ->
  withRetry_body fn rnd opts
  = Some {| outcome :=
              Thrown (MaxRetriesExceededError
                        ("Operation failed after " ++ show (maxAttempts opts) ++ " attempts")
                        (maxAttempts opts) None);
            sleeps := [];
            invocations := 0 |}.
Proof.
  intros Hmax. unfold withRetry_body.
  replace (Z.to_nat (maxAttempts opts)) with 0%nat by lia. simpl.
  replace (0 <? maxAttempts opts) with false by (symmetry; apply Z.ltb_ge; lia).
  reflexivity.
Qed.

End RetryAccounting.

Section DelaySign.
Import RetryStrategy.


End DelaySign.

Section ContextFacts.
Import ErrorHandler RetryStrategy RetryContexts.

Lemma update_all_fields (failures : list (Q * Error)) (options : RetryOptions)
    (context : RetryContext) :
  attempt (update_all context failures options) = (attempt context + length failures)%nat
  /\ ctx_maxAttempts (update_all context failures options) = ctx_maxAttempts context.
Proof.
  revert context. induction failures as [| [r e] rest IH]; intros context; simpl.
  - split; [lia | reflexivity].
  - destruct (IH (updateRetryContext r context e options)) as [H1 H2].
    rewrite H1, H2. simpl. split; [lia | reflexivity].
Qed.

(** A retry context counts its updates: after one update per failure its
    [attempt] is the number of failures, and once that number has reached
    [maxAttempts], [shouldContinueRetry] refuses, whatever the last error
    is. *)
Theorem context_stops_at_ceiling (maxAttempts : Z) (first : Error)
    (failures : list (Q * Error)) (options : RetryOptions) (codes : list ErrorCode) :
  maxAttempts <= Z.of_nat (length failures) ->
  let context := update_all (createRetryContext maxAttempts first) failures options in
  attempt context = length failures
  /\ shouldContinueRetry context codes = false.
Proof.
  intros Hmax context.
  destruct (update_all_fields failures options (createRetryContext maxAttempts first))
    as [H1 H2].
  fold context in H1, H2. simpl in H1, H2.
  split; [exact H1 |].
  unfold shouldContinueRetry, shouldRetry. rewrite H1, H2.
  replace (Z.of_nat (length failures) >=? maxAttempts) with true; [reflexivity |].
  symmetry. rewrite Z.geb_leb. apply Z.leb_le. exact Hmax.
Qed.

End ContextFacts.

(* ------------------------------------------------------------------ *)
(** ** Rate limiter: further properties *)

Section QueueOrder.
Import RateLimiter RateLimiterViews.

Lemma precedes_spec (a b : QueuedRequest) :
  precedes a b <->
  priority b < priority a \/ (priority a = priority b /\ timestamp a <= timestamp b).
Proof.
  unfold precedes, compareRequests.
  destruct (priority a =? priority b) eqn:E; cbn [negb].
  - apply Z.eqb_eq in E. lia.
  - apply Z.eqb_neq in E. lia.
Qed.

Lemma precedes_total (a b : QueuedRequest) : precedes a b \/ precedes b a.
Proof. rewrite !precedes_spec. lia. Qed.

Lemma precedes_trans (a b c : QueuedRequest) :
  precedes a b -> precedes b c -> precedes a c.
Proof. rewrite !precedes_spec. lia. Qed.

Lemma In_insert_by (x y : QueuedRequest) (q : list QueuedRequest) :
  In y (insert_by compareRequests x q) <-> y = x \/ In y q.
Proof.
  induction q as [| z q IH]; simpl.
  - intuition congruence.
  - destruct (compareRequests x z <=? 0); simpl; [intuition congruence |].
    rewrite IH. intuition congruence.
Qed.

Lemma ordered_insert_by (x : QueuedRequest) (q : list QueuedRequest) :
  ordered q -> ordered (insert_by compareRequests x q).
Proof.
  induction q as [| z q IH]; simpl.
  - intros _. split; [intros b [] | exact I].
  - intros [Hz Hq]. destruct (compareRequests x z <=? 0) eqn:E.
    + apply Z.leb_le in E. simpl. split; [| split; assumption].
      intros b [Hb | Hb]; [subst b; exact E |].
      apply precedes_trans with z; [exact E | apply Hz; exact Hb].
    + apply Z.leb_gt in E. simpl. split; [| apply IH; exact Hq].
      intros b Hb. apply In_insert_by in Hb. destruct Hb as [Hb | Hb].
      * subst b. destruct (precedes_total z x) as [H | H]; [exact H |].
        unfold precedes in H. lia.
      * apply Hz. exact Hb.
Qed.

Lemma ordered_sort_by (q : list QueuedRequest) : ordered (sort_by compareRequests q).
Proof.
  unfold sort_by. induction q as [| x q IH]; simpl; [exact I |].
  apply ordered_insert_by. exact IH.
Qed.

Lemma In_sort_by (y : QueuedRequest) (q : list QueuedRequest) :
  In y (sort_by compareRequests q) <-> In y q.
Proof.
  unfold sort_by. induction q as [| x q IH]; simpl; [tauto |].
  rewrite In_insert_by, IH. intuition congruence.
Qed.

Lemma ordered_processQueue_shift (now : Z) (l : RateLimiter) :
  ordered (queue (state l)) -> ordered (queue (state (processQueue_shift now l))).
Proof.
  unfold processQueue_shift. destruct (queue (state l)) as [| request rest] eqn:E.
  - intros _. simpl. rewrite E. exact I.
  - intros [_ H]. simpl. exact H.
Qed.

Lemma ordered_processQueue_loop (now : Z) (l : RateLimiter) :
  ordered (queue (state l)) -> ordered (queue (state (processQueue_loop now l))).
Proof.
  intros H. unfold processQueue_loop.
  destruct (queue (state l)) as [| request rest] eqn:E.
  - simpl. rewrite E. exact I.
  - unfold canMakeRequest.
    set (l1 := cleanOldRequests now l).
    assert (H1 : ordered (queue (state l1))) by (simpl; rewrite E; exact H).
    destruct (Z.of_nat (length (requests (state l1))) <? maxRequests (config l1)); cbn [negb].
    + apply ordered_processQueue_shift. exact H1.
    + unfold waitForReset, getInfo.
      set (l2 := cleanOldRequests now l1).
      assert (H2 : ordered (queue (state l2))) by exact H1.
      cbn [remaining resetAt].
      destruct (0 <? Z.max 0 _).
      * apply ordered_processQueue_shift. exact H2.
      * destruct (0 <? Z.max 0 _).
        -- exact H2.
        -- apply ordered_processQueue_shift. exact H2.
Qed.

Lemma ordered_step (l l' : RateLimiter) (e : Event) :
  ordered (queue (state l)) -> step l e = Some l' -> ordered (queue (state l')).
Proof.
  intros H. unfold step.
  destruct (time_of e <? clock l); [discriminate |].
  set (l0 := set_clock (time_of e) l).
  assert (H0 : ordered (queue (state l0))) by exact H.
  destruct e as [now i prio | now | now]; simpl in l0 |- *.
  - intros E. inversion E as [E']. clear E E'. unfold execute, canMakeRequest.
    set (l1 := cleanOldRequests now l0).
    destruct (Z.of_nat (length (requests (state l1))) <? maxRequests (config l1)).
    + exact H0.
    + unfold queueRequest.
      set (l2 := set_queue _ l1).
      assert (Hl2 : ordered (queue (state l2))) by (simpl; apply ordered_sort_by).
      destruct (processing l2) eqn:P; cbn [negb]; [exact Hl2 |].
      unfold processQueue. rewrite P.
      apply ordered_processQueue_loop. exact Hl2.
  - destruct (drain l) as [| wake | request]; try discriminate.
    destruct (wake <=? now); [| discriminate].
    intros E. inversion E. apply ordered_processQueue_shift. exact H0.
  - destruct (drain l) as [| wake | request]; try discriminate.
    intros E. inversion E. apply ordered_processQueue_loop. exact H0.
Qed.

Lemma ordered_run (trace : list Event) (l l' : RateLimiter) :
  ordered (queue (state l)) -> run l trace = Some l' -> ordered (queue (state l')).
Proof.
  revert l. induction trace as [| e rest IH]; simpl; intros l H E.
  - inversion E. subst. exact H.
  - destruct (step l e) as [l1 |] eqn:S; [| discriminate].
    apply (IH l1); [apply (ordered_step l l1 e); assumption | exact E].
Qed.

(** X10.  In every state the limiter can reach, the request at the head of the
    queue, which is the one the drain takes next, has the highest priority
    of all queued requests, and among those of its priority the earliest
    enqueue time. *)
Theorem queue_head_is_next_in_line (cfg : RateLimitConfig) (l : RateLimiter)
    (head : QueuedRequest) (rest : list QueuedRequest) :
  reachable cfg l ->
  queue (state l) = head :: rest ->
  forall r, In r rest ->
    priority r <= priority head
    /\ (priority r = priority head -> timestamp head <= timestamp r).
Proof.
  intros [trace E] Hq r Hr.
  assert (H : ordered (queue (state l))).
  { apply (ordered_run trace (create cfg) l); [exact I | exact E]. }
  rewrite Hq in H. destruct H as [H _].
  specialize (H r Hr). apply precedes_spec in H. lia.
Qed.

End QueueOrder.

Section WindowCount.
Import RateLimiter RateLimiterViews.

Lemma filter_twice {A : Type} (f : A -> bool) (l : list A) :
  filter f (filter f l) = filter f l.
Proof.
  induction l as [| x l IH]; simpl; [reflexivity |].
  destruct (f x) eqn:E; simpl; [rewrite E, IH; reflexivity | exact IH].
Qed.

Lemma survivors_cleanOldRequests (now : Z) (l : RateLimiter) :
  survivors now (cleanOldRequests now l) = survivors now l.
Proof. unfold survivors, cleanOldRequests. simpl. apply filter_twice. Qed.

Lemma requests_cleanOldRequests (now : Z) (l : RateLimiter) :
  requests (state (cleanOldRequests now l)) = survivors now l.
Proof. reflexivity. Qed.

(** Later, fewer timestamps survive. *)
Lemma active_count_mono (now now' : Z) (l : RateLimiter) :
  now <= now' -> active_count now' l <= active_count now l.
Proof.
  intros Hle. unfold active_count, survivors, cleanOldRequests. simpl.
  induction (requests (state l)) as [| t rest IH]; simpl; [lia |].
  destruct (now' - windowMs (config l) <? t) eqn:E'.
  - apply Z.ltb_lt in E'.
    replace (now - windowMs (config l) <? t) with true by (symmetry; apply Z.ltb_lt; lia).
    simpl length. lia.
  - destruct (now - windowMs (config l) <? t); simpl length; lia.
Qed.

Lemma active_count_recordRequest (now : Z) (l : RateLimiter) :
  active_count now (recordRequest now l) <= active_count now l + 1.
Proof.
  unfold active_count, survivors, cleanOldRequests, recordRequest. simpl.
  rewrite filter_app, length_app. simpl.
  destruct (now - windowMs (config l) <? now); simpl; lia.
Qed.

(** [waitForReset] sleeps when the window is full, and then until the
    reset instant that [getInfo] reports, which lies ahead. *)
Lemma waitForReset_sleeps (now : Z) (l : RateLimiter) :
  0 < windowMs (config l) ->
  maxRequests (config l) <= active_count now l ->
  exists waitTime,
    waitForReset now l = (Some waitTime, cleanOldRequests now l)
    /\ 0 < waitTime
    /\ now + waitTime = resetAt (fst (getInfo now l)).
Proof.
  intros Hw Hfull. unfold waitForReset, getInfo.
  set (l1 := cleanOldRequests now l).
  cbn [remaining resetAt fst].
  change (requests (state l1)) with (survivors now l).
  change (config l1) with (config l).
  unfold active_count in Hfull.
  replace (0 <? Z.max 0 (maxRequests (config l) - Z.of_nat (length (survivors now l))))
    with false by (symmetry; apply Z.ltb_ge; lia).
  set (oldest := match survivors now l with
                 | [] => now
                 | t :: _ => if t =? 0 then now else t
                 end).
  assert (Hold : now - windowMs (config l) < oldest).
  { unfold oldest. destruct (survivors now l) as [| t rest] eqn:E; [lia |].
    destruct (t =? 0); [lia |].
    assert (Hin : In t (survivors now l)) by (rewrite E; left; reflexivity).
    unfold survivors, cleanOldRequests in Hin. simpl in Hin.
    apply filter_In in Hin. destruct Hin as [_ Hin]. apply Z.ltb_lt in Hin. exact Hin. }
  replace (0 <? Z.max 0 (oldest + windowMs (config l) - now)) with true
    by (symmetry; apply Z.ltb_lt; lia).
  eexists. split; [reflexivity |]. lia.
Qed.

Lemma active_count_processQueue_shift (now : Z) (l : RateLimiter) :
  active_count now l < maxRequests (config l) ->
  active_count now (processQueue_shift now l) <= maxRequests (config l).
Proof.
  intros H. unfold processQueue_shift.
  destruct (queue (state l)) as [| request rest].
  - change (active_count now (set_drain false NotSuspended l)) with (active_count now l). lia.
  - match goal with
    | |- active_count now ?x <= _ =>
        change (active_count now x)
          with (active_count now (recordRequest now (set_queue rest l)))
    end.
    pose proof (active_count_recordRequest now (set_queue rest l)) as Hr.
    change (active_count now (set_queue rest l)) with (active_count now l) in Hr. lia.
Qed.

Lemma config_processQueue_shift (now : Z) (l : RateLimiter) :
  config (processQueue_shift now l) = config l.
Proof. unfold processQueue_shift. destruct (queue (state l)); reflexivity. Qed.

Lemma clock_processQueue_shift (now : Z) (l : RateLimiter) :
  clock (processQueue_shift now l) = clock l.
Proof. unfold processQueue_shift. destruct (queue (state l)); reflexivity. Qed.

Lemma processQueue_loop_cases (now : Z) (l : RateLimiter) :
  0 < windowMs (config l) ->
  processQueue_loop now l = set_drain false NotSuspended l
  \/ (active_count now l < maxRequests (config l)
      /\ processQueue_loop now l = processQueue_shift now (cleanOldRequests now l))
  \/ (exists wake,
        processQueue_loop now l
        = set_drain (processing l) (AwaitingReset wake)
            (cleanOldRequests now (cleanOldRequests now l))).
Proof.
  intros Hw. unfold processQueue_loop.
  destruct (queue (state l)) as [| request rest]; [left; reflexivity |].
  unfold canMakeRequest. set (l1 := cleanOldRequests now l).
  change (requests (state l1)) with (survivors now l).
  change (config l1) with (config l).
  destruct (Z.of_nat (length (survivors now l)) <? maxRequests (config l)) eqn:B; cbn [negb].
  - right. left. apply Z.ltb_lt in B. split; [exact B | reflexivity].
  - right. right. apply Z.ltb_ge in B.
    destruct (waitForReset_sleeps now l1) as (waitTime & E & _ & _).
    + exact Hw.
    + unfold active_count, l1. rewrite survivors_cleanOldRequests. exact B.
    + rewrite E. exists (now + waitTime). reflexivity.
Qed.

Lemma active_count_processQueue_loop (now : Z) (l : RateLimiter) :
  0 < windowMs (config l) ->
  active_count now l <= maxRequests (config l) ->
  active_count now (processQueue_loop now l) <= maxRequests (config l)
  /\ config (processQueue_loop now l) = config l
  /\ clock (processQueue_loop now l) = clock l.
Proof.
  intros Hw H.
  destruct (processQueue_loop_cases now l Hw) as [E | [[Hfree E] | [wake E]]]; rewrite E.
  - repeat split. exact H.
  - rewrite config_processQueue_shift, clock_processQueue_shift. repeat split.
    apply (active_count_processQueue_shift now (cleanOldRequests now l)).
    unfold active_count. rewrite survivors_cleanOldRequests. exact Hfree.
  - repeat split.
    change (active_count now (cleanOldRequests now (cleanOldRequests now l)) <= maxRequests (config l)).
    unfold active_count. rewrite !survivors_cleanOldRequests. exact H.
Qed.

Lemma active_count_execute (now : Z) (i : nat) (prio : Z) (l : RateLimiter) :
  0 < windowMs (config l) ->
  active_count now l <= maxRequests (config l) ->
  active_count now (execute now i prio l) <= maxRequests (config l)
  /\ config (execute now i prio l) = config l
  /\ clock (execute now i prio l) = clock l.
Proof.
  intros Hw H. unfold execute, canMakeRequest.
  set (l1 := cleanOldRequests now l).
  change (requests (state l1)) with (survivors now l).
  change (config l1) with (config l).
  assert (H1 : active_count now l1 = active_count now l).
  { unfold active_count, l1. rewrite survivors_cleanOldRequests. reflexivity. }
  destruct (Z.of_nat (length (survivors now l)) <? maxRequests (config l)) eqn:B.
  - apply Z.ltb_lt in B. repeat split.
    change (active_count now (recordRequest now l1) <= maxRequests (config l)).
    pose proof (active_count_recordRequest now l1) as Hr.
    unfold active_count in H1 at 2. lia.
  - unfold queueRequest.
    set (l2 := set_queue _ l1).
    destruct (processing l2) eqn:P; cbn [negb].
    + repeat split. change (active_count now l1 <= maxRequests (config l)). lia.
    + unfold processQueue. rewrite P.
      apply (active_count_processQueue_loop now (set_drain true (drain l2) l2)); [exact Hw |].
      change (active_count now l1 <= maxRequests (config l)). lia.
Qed.

Lemma capacity_step (cfg : RateLimitConfig) (l l' : RateLimiter) (e : Event) :
  0 < windowMs cfg ->
  config l = cfg ->
  active_count (clock l) l <= maxRequests cfg ->
  match e with
  | TimerFires now => fst (canMakeRequest now l) = true
  | _ => True
  end ->
  step l e = Some l' ->
  config l' = cfg /\ active_count (clock l') l' <= maxRequests cfg.
Proof.
  intros Hw Hc H Hguard. unfold step.
  destruct (time_of e <? clock l) eqn:Hclock; [discriminate |].
  apply Z.ltb_ge in Hclock.
  set (l0 := set_clock (time_of e) l).
  assert (H0 : active_count (time_of e) l0 <= maxRequests (config l0)).
  { change (active_count (time_of e) l <= maxRequests (config l)).
    pose proof (active_count_mono (clock l) (time_of e) l Hclock). rewrite Hc. lia. }
  assert (Hw0 : 0 < windowMs (config l0)) by (change (0 < windowMs (config l)); rewrite Hc; exact Hw).
  assert (Hc0 : config l0 = cfg) by exact Hc.
  assert (Hk0 : clock l0 = time_of e) by reflexivity.
  destruct e as [now i prio | now | now]; cbn [time_of] in *.
  - intros E. inversion E as [E']. clear E E'.
    destruct (active_count_execute now i prio l0 Hw0 H0) as (A & B & C).
    rewrite B, C, Hk0. split; [exact Hc0 |]. rewrite <- Hc0. exact A.
  - change (drain l0) with (drain l).
    destruct (drain l) as [| wake | request]; try discriminate.
    destruct (wake <=? now); [| discriminate].
    intros E. inversion E as [E']. clear E E'.
    rewrite config_processQueue_shift, clock_processQueue_shift, Hk0.
    split; [exact Hc0 |]. rewrite <- Hc0.
    apply active_count_processQueue_shift.
    unfold canMakeRequest in Hguard. cbn [fst] in Hguard. apply Z.ltb_lt in Hguard.
    exact Hguard.
  - change (drain l0) with (drain l).
    destruct (drain l) as [| wake | request]; try discriminate.
    intros E. inversion E as [E']. clear E E'.
    destruct (active_count_processQueue_loop now l0 Hw0 H0) as (A & B & C).
    rewrite B, C, Hk0. split; [exact Hc0 |]. rewrite <- Hc0. exact A.
Qed.

Lemma capacity_run (cfg : RateLimitConfig) (trace : list Event) (l l' : RateLimiter) :
  0 < windowMs cfg ->
  config l = cfg ->
  active_count (clock l) l <= maxRequests cfg ->
  timers_find_slot l trace ->
  run l trace = Some l' ->
  config l' = cfg /\ active_count (clock l') l' <= maxRequests cfg.
Proof.
  intros Hw. revert l. induction trace as [| e rest IH]; simpl; intros l Hc H Hg E.
  - inversion E as [E']. rewrite <- E'. split; assumption.
  - destruct Hg as [Hg1 Hg2].
    destruct (step l e) as [l1 |] eqn:S; [| discriminate].
    destruct (capacity_step cfg l l1 e Hw Hc H Hg1 S) as [Hc1 H1].
    apply (IH l1); assumption.
Qed.

(** X11.  The sliding window holds as long as the drain is never overtaken: if,
    along a trace, every timer of the drain fires at a moment at which the
    limiter can admit a request, then in the state reached at most
    [maxRequests] admission timestamps lie in the window, now and at any
    later time. *)
Theorem window_respected_when_timers_find_slot
    (cfg : RateLimitConfig) (trace : list Event) (l : RateLimiter) (now : Z) :
  0 <= maxRequests cfg ->
  0 < windowMs cfg ->
  run (create cfg) trace = Some l ->
  timers_find_slot (create cfg) trace ->
  clock l <= now ->
  active_count now l <= maxRequests cfg.
Proof.
  intros Hcap Hw E Hg Hnow.
  destruct (capacity_run cfg trace (create cfg) l Hw) as [_ H];
    [reflexivity | simpl; exact Hcap | exact Hg | exact E |].
  pose proof (active_count_mono (clock l) now l Hnow). lia.
Qed.

Lemma canMakeRequest_after_clean (now' now : Z) (l : RateLimiter) :
  fst (canMakeRequest now' (cleanOldRequests now l))
  = (Z.of_nat (length (filter (fun u => now' - windowMs (config l) <? u) (survivors now l)))
     <? maxRequests (config l)).
Proof. reflexivity. Qed.

Lemma resetAt_getInfo (now : Z) (l : RateLimiter) :
  resetAt (fst (getInfo now l))
  = match survivors now l with
    | [] => now
    | t :: _ => if t =? 0 then now else t
    end + windowMs (config l).
Proof. reflexivity. Qed.

(** Once the instant [oldest + window] is reached, the oldest timestamp of
    an ascending list has left the window. *)
Lemma head_expires (t : Z) (rest : list Z) (now window : Z) :
  (forall u, In u (t :: rest) -> u <= now) ->
  let oldest := if t =? 0 then now else t in
  (length (filter (fun u => (oldest + window - window <? u)%Z) (t :: rest))
   <= length rest)%nat.
Proof.
  intros Hall oldest.
  destruct (t =? 0) eqn:Et; subst oldest.
  - replace (filter (fun u => now + window - window <? u) (t :: rest)) with (@nil Z);
      [simpl; lia |].
    symmetry. generalize (t :: rest) Hall. clear.
    induction l as [| u us IH]; intros Hall; simpl; [reflexivity |].
    replace (now + window - window <? u) with false.
    + apply IH. intros v Hv. apply Hall. right. exact Hv.
    + symmetry. apply Z.ltb_ge. specialize (Hall u (or_introl eq_refl)). lia.
  - simpl. replace (t + window - window <? t) with false
      by (symmetry; apply Z.ltb_ge; lia).
    apply filter_length_le.
Qed.

(** X12.  When [waitForReset] decides to sleep in a state that holds no more
    than [maxRequests] timestamps in the window, the limiter can admit a
    request at the moment the sleep ends, provided nothing was admitted in
    between. *)
Theorem waitForReset_sleep_frees_a_slot
    (cfg : RateLimitConfig) (l l1 : RateLimiter) (now waitTime : Z) :
  reachable cfg l ->
  1 <= maxRequests cfg ->
  0 < windowMs cfg ->
  clock l <= now ->
  active_count now l <= maxRequests cfg ->
  waitForReset now l = (Some waitTime, l1) ->
  0 < waitTime /\ fst (canMakeRequest (now + waitTime) l1) = true.
Proof.
  intros Hreach Hcap Hw Hnow Hcount Hwait.
  destruct (wf_reachable cfg l Hreach) as (Hc & _ & Hb).
  assert (Hfull : maxRequests (config l) <= active_count now l).
  { unfold waitForReset, getInfo in Hwait. cbn [remaining resetAt] in Hwait.
    change (requests (state (cleanOldRequests now l))) with (survivors now l) in Hwait.
    change (config (cleanOldRequests now l)) with (config l) in Hwait.
    unfold active_count.
    destruct (0 <? Z.max 0 (maxRequests (config l) - Z.of_nat (length (survivors now l))))
      eqn:B; [discriminate |].
    apply Z.ltb_ge in B. lia. }
  destruct (waitForReset_sleeps now l) as (w & E & Hpos & Hwake);
    [rewrite Hc; exact Hw | exact Hfull |].
  rewrite E in Hwait. inversion Hwait. subst waitTime l1. clear Hwait.
  split; [exact Hpos |].
  rewrite canMakeRequest_after_clean, Hwake, resetAt_getInfo. apply Z.ltb_lt.
  unfold active_count in Hcount, Hfull. rewrite Hc in *.
  destruct (survivors now l) as [| t rest] eqn:Es; [simpl in Hfull; lia |].
  assert (Hall : forall u, In u (t :: rest) -> u <= now).
  { intros u Hu. rewrite <- Es in Hu. unfold survivors, cleanOldRequests in Hu.
    simpl in Hu. apply filter_In in Hu. destruct Hu as [Hu _].
    specialize (Hb u Hu). lia. }
  pose proof (head_expires t rest now (windowMs cfg) Hall) as Hexp.
  cbv zeta in Hexp. simpl length in Hcount. lia.
Qed.

End WindowCount.

(* ------------------------------------------------------------------ *)
(** ** Token manager: further properties *)

Section ExpiryFacts.
Import TokenManager TokenExpiry.

(** X13.  The expiry tests agree with the remaining lifetime that
    [getTimeUntilExpiry] reports: a held token is expired exactly when no
    time is left, and needs a refresh exactly when at most 300000 ms are
    left. *)
Theorem expiry_tests_match_remaining_time (nowMs : Z) (m : TokenManager) (t : Token) :
  token m = Some t ->
  exists left,
    getTimeUntilExpiry nowMs m = Some left
    /\ (isTokenExpired nowMs m = true <-> left <= 0)
    /\ (needsRefresh nowMs m = true <-> left <= 300000)
    /\ isTokenValid nowMs m = negb (isTokenExpired nowMs m).
Proof.
  intros Ht.
  unfold getTimeUntilExpiry, getExpiryTime, isTokenExpired, needsRefresh, isTokenValid,
    isTokenExpired, TOKEN_REFRESH_BUFFER_SECONDS.
  rewrite Ht. eexists. split; [reflexivity |].
  rewrite !Z.geb_leb, !Z.leb_le.
  pose proof (Z.div_mod nowMs 1000) as D.
  pose proof (Z.mod_pos_bound nowMs 1000) as B.
  repeat split; intros; lia.
Qed.

End ExpiryFacts.

Section JoinFacts.
Import TokenManager TokenExpiry.

Lemma step_call_joins (m : TokenManager) (p : nat) (e : Event) :
  isRefreshing (refreshState m) = true ->
  promise (refreshState m) = Some p ->
  is_call e ->
  step m e = Some (add_reply (caller_of e) (Awaits p) m).
Proof.
  intros H1 H2 Hcall. destruct e as [caller nowMs | caller | k script rnd]; simpl.
  - unfold getToken. rewrite H1, H2. reflexivity.
  - unfold refreshToken. rewrite H1, H2. reflexivity.
  - destruct Hcall.
Qed.

(** X14.  While a refresh is registered, every call of [getToken] and of
    [refreshToken] joins it: whatever the number of callers, each is handed
    the promise of that refresh, no acquisition is started and the token
    and the refresh state are left as they are. *)
Theorem calls_during_refresh_join (m : TokenManager) (p : nat) (calls : list Event) :
  isRefreshing (refreshState m) = true ->
  promise (refreshState m) = Some p ->
  Forall is_call calls ->
  exists m',
    run m calls = Some m'
    /\ replies m' = replies m ++ map (fun e => (caller_of e, Awaits p)) calls
    /\ inflight m' = inflight m
    /\ token m' = token m
    /\ refreshState m' = refreshState m
    /\ fresh m' = fresh m.
Proof.
  intros H1 H2 Hcalls. revert m H1 H2.
  induction Hcalls as [| e rest He _ IH]; intros m H1 H2.
  - exists m. simpl. rewrite app_nil_r. repeat split.
  - cbn [run]. rewrite (step_call_joins m p e H1 H2 He).
    destruct (IH (add_reply (caller_of e) (Awaits p) m) H1 H2)
      as (m' & E & Hr & Hi & Ht & Hs & Hf).
    exists m'. split; [exact E |]. split.
    + rewrite Hr. simpl. rewrite <- app_assoc. reflexivity.
    + repeat split; assumption.
Qed.

End JoinFacts.

Section AcquisitionFacts.
Import ErrorHandler RetryStrategy TokenManager.


(** X16.  A login that the endpoint rejects is retried: when every POST is
    answered with a failure status, [acquireToken] issues exactly three
    POSTs, sleeps twice, and fails with the error of the third. *)
Theorem rejected_login_is_tried_three_times
    (script : nat -> AuthFetch * Z) (rnd : nat -> Q)
    (status : nat -> Z) (text : nat -> string) :
  (forall j, fst (script j) = AuthNotOk (status j) (text j)) ->
  exists run,
    withRetry (fun j => authenticateWithApi (fst (script j)) (snd (script j)))
      rnd acquire_options = Some run
    /\ invocations run = 3%nat
    /\ length (sleeps run) = 2%nat
    /\ outcome run
       = Thrown (AuthError ("Authentication failed: " ++ show (status 2%nat) ++ " "
                            ++ text 2%nat) None)
    /\ acquisition_attempt script rnd = Some (outcome run).
Proof.
  intros Hscript.
  set (errs := fun j => AuthError ("Authentication failed: " ++ show (status j) ++ " "
                                   ++ text j) None).
  assert (Hfn : forall j, authenticateWithApi (fst (script j)) (snd (script j))
                          = Thrown (errs j)).
  { intros j. rewrite Hscript. reflexivity. }
  unfold acquisition_attempt, withRetry, withRetry_body.
  set (opts := merge_options acquire_options).
  change (Z.to_nat (maxAttempts opts)) with 3%nat.
  rewrite retryLoop_step. change (Z.of_nat 0 <? maxAttempts opts) with true.
  rewrite Hfn. cbn [negb shouldRetry isRetryableError errs AuthError].
  change (Z.of_nat 1 >=? maxAttempts opts) with false. cbn [negb length retryableErrors opts].
  change (0 <? Z.of_nat (length (retryableErrors opts))) with false. cbn [negb].
  rewrite retryLoop_step. change (Z.of_nat 1 <? maxAttempts opts) with true.
  rewrite Hfn. cbn [negb shouldRetry isRetryableError errs AuthError].
  change (Z.of_nat 2 >=? maxAttempts opts) with false.
  change (0 <? Z.of_nat (length (retryableErrors opts))) with false. cbn [negb].
  rewrite retryLoop_step. change (Z.of_nat 2 <? maxAttempts opts) with true.
  rewrite Hfn. cbn [negb shouldRetry isRetryableError errs AuthError].
  change (Z.of_nat 3 >=? maxAttempts opts) with true. cbn [negb].
  eexists. repeat split.
Qed.

End AcquisitionFacts.

(* ------------------------------------------------------------------ *)
(** ** Request pipeline: further properties *)

Section Classification.
Import ErrorHandler RetryStrategy ApiClient.
Context {T : Type}.
Variable getTime : string -> number.

(** X17.  A response that is not ok is always turned into a thrown error, and
    that error is retryable exactly for the statuses 401, 429 and 503; a
    successful response whose body cannot be decoded gives an error that
    is not retryable. *)
Theorem handleResponse_retryable_statuses (now : Z) (response : Response T) (url : string) :
  (ok response = false ->
   exists e,
     handleResponse getTime now response url = Thrown e
     /\ isRetryableError e
        = ((status response =? 401) || (status response =? 429)
           || (status response =? 503))%bool)
  /\ (ok response = true ->
      forall cause, json response = Thrown cause ->
      exists e,
        handleResponse getTime now response url = Thrown e
        /\ isRetryableError e = false
        /\ isErrorCode e API_ERROR = true).
Proof.
  split.
  - intros Hok. unfold handleResponse. rewrite Hok.
    destruct (status response =? 401) eqn:E1; [eexists; split; reflexivity |].
    destruct (status response =? 429) eqn:E2; [eexists; split; reflexivity |].
    destruct (status response =? 503) eqn:E3; eexists; split; reflexivity.
  - intros Hok cause Hjson. unfold handleResponse. rewrite Hok, Hjson.
    eexists. repeat split.
Qed.

(** X18.  A request that is answered with a failure status other than 401, 429
    and 503 is not retried: [request] makes one attempt, does not sleep,
    and throws the [ApiError] of that response. *)
Theorem request_does_not_retry_client_errors
    (now : Z) (response : Response T) (url : string)
    (attemptOutcome : nat -> Outcome Error T) (rnd : nat -> Q) :
  ok response = false ->
  status response <> 401 -> status response <> 429 -> status response <> 503 ->
  attemptOutcome 0%nat = handleResponse getTime now response url ->
  exists e,
    request attemptOutcome rnd
    = Some {| outcome := Thrown e; sleeps := []; invocations := 1 |}
    /\ handleResponse getTime now response url = Thrown e
    /\ isErrorCode e API_ERROR = true.
Proof.
  intros Hok H401 H429 H503 Hfirst.
  assert (Hh : exists e, handleResponse getTime now response url = Thrown e
                         /\ isRetryableError e = false
                         /\ isErrorCode e API_ERROR = true).
  { unfold handleResponse. rewrite Hok.
    apply Z.eqb_neq in H401, H429, H503. rewrite H401, H429, H503.
    eexists. repeat split. }
  destruct Hh as (e & He & Hno & Hcode).
  exists e. split; [| split; assumption].
  unfold request, withRetry, withRetry_body.
  set (opts := merge_options request_options).
  change (Z.to_nat (maxAttempts opts)) with 5%nat.
  rewrite retryLoop_step. change (Z.of_nat 0 <? maxAttempts opts) with true.
  rewrite Hfirst, He.
  unfold shouldRetry. rewrite Hno.
  destruct (Z.of_nat 1 >=? maxAttempts opts); reflexivity.
Qed.

End Classification.

Section DateHint.
Import ErrorHandler RetryStrategy ApiClient Stubs.

Lemma Qceiling_div_1000 (a : Z) :
  Qceiling (inject_Z a / 1000) = - ((- a) / 1000).
Proof.
  unfold Qceiling. f_equal.
  rewrite (Zdiv_Qdiv (- a) 1000). apply Qfloor_comp.
  rewrite inject_Z_opp. change (inject_Z 1000) with 1000%Q. field.
Qed.

(** X19.  [parseInt] is tried first: a [Retry-After] header in which it finds
    a leading integer is returned as that integer, whatever the date
    parser makes of the header.  Only a header in which [parseInt] finds
    none is read as a date; the hint is then the number of seconds until
    that date, rounded up, and never negative: a date that is not in the
    future gives 0. *)
Theorem getRetryAfter_date_hint
    (getTime : string -> number) (now st : Z) (h : string) :
  h <> EmptyString ->
  (forall leading,
     parseInt h = Int leading ->
     getRetryAfter getTime now (response_with_retry_after st (Some h)) = Int leading)
  /\ (forall time,
        parseInt h = NaN -> getTime h = Int time ->
        exists seconds,
          getRetryAfter getTime now (response_with_retry_after st (Some h)) = Int seconds
          /\ 0 <= seconds
          /\ (time <= now -> seconds = 0)
          /\ (now < time -> 1000 * (seconds - 1) < time - now <= 1000 * seconds)).
Proof.
  intros Hne. split.
  - intros leading Hp. unfold getRetryAfter. simpl.
    destruct h as [| c h']; [congruence |]. rewrite Hp. reflexivity.
  - intros time Hp Hd.
    rewrite (getRetryAfter_date getTime now st h time Hne Hp Hd).
    eexists. split; [reflexivity |].
    rewrite Qceiling_div_1000.
    pose proof (Z.div_mod (- Z.max 0 (time - now)) 1000) as D.
    pose proof (Z.mod_pos_bound (- Z.max 0 (time - now)) 1000) as B.
    repeat split; intros; lia.
Qed.

End DateHint.

(* ------------------------------------------------------------------ *)
(** ** Concurrency queue *)

Section QueueInvariant.
Import ConcurrencyQueue.

Lemma In_insert_priority (x y : QueueTask) (q : list QueueTask) :
  In y (RateLimiter.insert_by comparePriority x q) <-> y = x \/ In y q.
Proof.
  induction q as [| z q IH]; simpl.
  - intuition congruence.
  - destruct (comparePriority x z <=? 0); simpl; [intuition congruence |].
    rewrite IH. intuition congruence.
Qed.

Lemma In_sort_priority (y : QueueTask) (q : list QueueTask) :
  In y (RateLimiter.sort_by comparePriority q) <-> In y q.
Proof.
  unfold RateLimiter.sort_by. induction q as [| x q IH]; simpl; [tauto |].
  rewrite In_insert_priority, IH. intuition congruence.
Qed.

Lemma length_insert_priority (x : QueueTask) (q : list QueueTask) :
  length (RateLimiter.insert_by comparePriority x q) = S (length q).
Proof.
  induction q as [| z q IH]; simpl; [reflexivity |].
  destruct (comparePriority x z <=? 0); simpl; [reflexivity | rewrite IH; reflexivity].
Qed.

Lemma in_line_insert (a : QueueTask) (q : list QueueTask) :
  in_line q ->
  (forall b, In b q -> priority b = priority a -> (arrival a < arrival b)%nat) ->
  in_line (RateLimiter.insert_by comparePriority a q).
Proof.
  induction q as [| y q IH]; simpl; intros Hq Hnew.
  - split; [intros b [] | exact I].
  - destruct Hq as [Hy Hq]. unfold comparePriority at 1.
    destruct (priority y - priority a <=? 0) eqn:E.
    + apply Z.leb_le in E. simpl. split; [| split; assumption].
      intros b [Hb | Hb].
      * subst b. destruct (Z.eq_dec (priority y) (priority a)) as [Heq | Hne].
        -- right. split; [exact Heq |]. apply Hnew; [left; reflexivity | exact Heq].
        -- left. lia.
      * destruct (Hy b Hb) as [Hlt | [Heq Harr]].
        -- destruct (Z.eq_dec (priority b) (priority a)) as [Heq' | Hne]; [| left; lia].
           right. split; [exact Heq' |]. apply Hnew; [right; exact Hb | exact Heq'].
        -- destruct (Z.eq_dec (priority b) (priority a)) as [Heq' | Hne]; [| left; lia].
           right. split; [exact Heq' |]. apply Hnew; [right; exact Hb | exact Heq'].
    + apply Z.leb_gt in E. simpl. split.
      * intros b Hb. apply In_insert_priority in Hb. destruct Hb as [Hb | Hb].
        -- subst b. left. lia.
        -- apply Hy. exact Hb.
      * apply IH; [exact Hq |]. intros b Hb. apply Hnew. right. exact Hb.
Qed.

Lemma in_line_sort_snoc (q : list QueueTask) (x : QueueTask) :
  in_line q ->
  (forall b, In b q -> (arrival b < arrival x)%nat) ->
  in_line (RateLimiter.sort_by comparePriority (q ++ [x])).
Proof.
  unfold RateLimiter.sort_by.
  induction q as [| a q IH]; simpl; intros Hq Hx.
  - split; [intros b [] | exact I].
  - destruct Hq as [Ha Hq]. apply in_line_insert.
    + apply IH; [exact Hq |]. intros b Hb. apply Hx. right. exact Hb.
    + intros b Hb Heq.
      change (In b (RateLimiter.sort_by comparePriority (q ++ [x]))) in Hb.
      apply (proj1 (In_sort_priority b (q ++ [x]))) in Hb. apply in_app_or in Hb.
      destruct Hb as [Hb | [Hb | []]].
      * destruct (Ha b Hb) as [Hlt | [_ Harr]]; [lia | exact Harr].
      * subst b. apply Hx. left. reflexivity.
Qed.

Lemma in_line_suffix (p q : list QueueTask) : in_line (p ++ q) -> in_line q.
Proof.
  induction p as [| a p IH]; simpl; [trivial |]. intros [_ H]. apply IH. exact H.
Qed.

(** What one round of [processNext] does. *)
Lemma processNext_go_spec (n : Z) (q : list QueueTask) :
  forall (act : Z) (st : QueueStats) (started : list QueueTask),
    act <= n ->
    exists q' act' st' newly,
      processNext_go n q act st started = (q', act', st', started ++ newly)
      /\ q = newly ++ q'
      /\ act' = act + Z.of_nat (length newly)
      /\ act' <= n
      /\ (q' = [] \/ act' = n)
      /\ completed st' = completed st
      /\ failed st' = failed st
      /\ (active st = act -> pending st = Z.of_nat (length q) ->
          active st' = act' /\ pending st' = Z.of_nat (length q')).
Proof.
  induction q as [| task rest IH]; intros act st started Hact; simpl.
  - exists [], act, st, []. rewrite app_nil_r. simpl.
    repeat split; try lia; tauto.
  - destruct (act >=? n) eqn:E.
    + rewrite Z.geb_leb in E. apply Z.leb_le in E.
      exists (task :: rest), act, st, []. rewrite app_nil_r. simpl.
      repeat split; try lia; tauto.
    + rewrite Z.geb_leb in E. apply Z.leb_gt in E.
      destruct (IH (act + 1)
                  {| pending := Z.of_nat (length rest); active := act + 1;
                     completed := completed st; failed := failed st |}
                  (started ++ [task])) as (q' & act' & st' & newly & H1 & H2 & H3 & H4 & H5 & H6 & H7 & H8);
        [lia |].
      exists q', act', st', (task :: newly).
      rewrite H1, <- app_assoc. simpl.
      split; [reflexivity |]. split; [rewrite H2; reflexivity |].
      split; [lia |]. split; [exact H4 |]. split; [exact H5 |].
      split; [exact H6 |]. split; [exact H7 |].
      intros _ _. apply H8; reflexivity.
Qed.

Lemma invariant_processNext (c : ConcurrencyQueue) :
  1 <= maxConcurrent c ->
  active_count c = Z.of_nat (length (running c)) ->
  active_count c <= maxConcurrent c ->
  active (stats c) = active_count c ->
  pending (stats c) = Z.of_nat (length (queue c)) ->
  0 <= completed (stats c) /\ 0 <= failed (stats c) ->
  completed (stats c) + failed (stats c) + active_count c
    = Z.of_nat (length (startOrder c)) ->
  in_line (queue c) ->
  (forall t, In t (queue c) -> (arrival t < arrivals c)%nat) ->
  invariant (processNext c).
Proof.
  intros Hb Hr Ha Hsa Hsp Hs Hst Hl Har. unfold processNext.
  destruct (processNext_go_spec (maxConcurrent c) (queue c) (active_count c) (stats c) [] Ha)
    as (q' & act' & st' & newly & H1 & H2 & H3 & H4 & H5 & H6 & H7 & H8).
  rewrite H1. simpl app. destruct (H8 Hsa Hsp) as [H9 H10].
  constructor; cbn [maxConcurrent queue active_count stats running startOrder arrivals].
  - exact Hb.
  - rewrite length_app. lia.
  - exact H4.
  - exact H9.
  - exact H10.
  - exact H5.
  - rewrite H6, H7. exact Hs.
  - rewrite H6, H7, length_app. lia.
  - rewrite H2 in Hl. apply (in_line_suffix newly q'). exact Hl.
  - intros t Ht. apply Har. rewrite H2. apply in_or_app. right. exact Ht.
Qed.

Lemma invariant_add (i : nat) (prio : Z) (c : ConcurrencyQueue) :
  invariant c -> invariant (add i prio c).
Proof.
  intros [Hb Hr Ha Hsa Hsp Hbusy Hs Hst Hl Har]. unfold add.
  apply invariant_processNext;
    cbn [maxConcurrent queue active_count stats running startOrder arrivals
         pending active completed failed]; try assumption; try reflexivity.
  - apply in_line_sort_snoc; [exact Hl |]. intros b Hb'. simpl. apply Har. exact Hb'.
  - intros t Ht. apply (proj1 (In_sort_priority t _)) in Ht. apply in_app_or in Ht.
    destruct Ht as [Ht | [Ht | []]].
    + specialize (Har t Ht). lia.
    + subst t. simpl. lia.
Qed.

Lemma length_remove_first (f : QueueTask -> bool) (l : list QueueTask) :
  existsb f l = true -> S (length (remove_first f l)) = length l.
Proof.
  induction l as [| x l IH]; simpl; [discriminate |].
  destruct (f x); simpl; [reflexivity |]. intros H. rewrite IH by exact H. reflexivity.
Qed.

Lemma invariant_finish (i : nat) (succeeded : bool) (c : ConcurrencyQueue) :
  existsb (fun t => Nat.eqb (id t) i) (running c) = true ->
  invariant c -> invariant (finish i succeeded c).
Proof.
  intros Hrun [Hb Hr Ha Hsa Hsp Hbusy Hs Hst Hl Har]. unfold finish.
  pose proof (length_remove_first _ _ Hrun) as Hlen.
  apply invariant_processNext;
    cbn [maxConcurrent queue active_count stats running startOrder arrivals
         pending active completed failed]; try assumption; try reflexivity; try lia.
  - destruct succeeded; exact Hsp.
  - destruct succeeded; cbn [completed failed]; lia.
  - destruct succeeded; cbn [completed failed]; lia.
Qed.

Lemma invariant_clear (c : ConcurrencyQueue) : invariant c -> invariant (clear c).
Proof.
  intros [Hb Hr Ha Hsa Hsp Hbusy Hs Hst Hl Har]. unfold clear.
  constructor;
    cbn [maxConcurrent queue active_count stats running startOrder arrivals
         pending active completed failed]; try assumption; try reflexivity.
  - left. reflexivity.
  - intros t [].
Qed.

Lemma invariant_step (c c' : ConcurrencyQueue) (e : Event) :
  invariant c -> step c e = Some c' -> invariant c'.
Proof.
  intros H. destruct e as [i prio | i succeeded |]; simpl.
  - intros E. inversion E. apply invariant_add. exact H.
  - destruct (existsb _ (running c)) eqn:R; [| discriminate].
    intros E. inversion E. apply invariant_finish; assumption.
  - intros E. inversion E. apply invariant_clear. exact H.
Qed.

Lemma invariant_reachable (n : Z) (c : ConcurrencyQueue) :
  reachable n c -> invariant c /\ maxConcurrent c = n.
Proof.
  intros (c0 & trace & Hcreate & Hrun).
  unfold create in Hcreate. destruct (n <? 1) eqn:E; [discriminate |].
  apply Z.ltb_ge in E. inversion Hcreate as [Hc0]. clear Hcreate.
  assert (H0 : invariant c0 /\ maxConcurrent c0 = n).
  { rewrite <- Hc0. split; [| reflexivity].
    constructor; simpl; try lia; try tauto. }
  clear Hc0. revert c0 H0 Hrun.
  induction trace as [| e rest IH]; simpl; intros c0 [H0 Hn] Hrun.
  - inversion Hrun as [Hc]. rewrite <- Hc. split; assumption.
  - destruct (step c0 e) as [c1 |] eqn:S; [| discriminate].
    apply (IH c1); [| exact Hrun].
    split; [apply (invariant_step c0 c1 e); assumption |].
    destruct e as [i prio | i succeeded |]; simpl in S.
    + inversion S. unfold add, processNext. simpl.
      destruct (processNext_go _ _ _ _ _) as [[[q a] s] st]. exact Hn.
    + destruct (existsb _ (running c0)); [| discriminate].
      inversion S. unfold finish, processNext. simpl.
      destruct (processNext_go _ _ _ _ _) as [[[q a] s] st]. exact Hn.
    + inversion S. exact Hn.
Qed.

(** X20.  The constructor rejects a bound below 1, and in every state of a
    queue it accepted the number of running tasks, which is what [active]
    and [stats.active] hold, never exceeds the bound. *)
Theorem active_never_exceeds_bound (n : Z) :
  (n < 1 -> create n = Thrown (PlainError "maxConcurrent must be at least 1"))
  /\ (forall c, reachable n c ->
        1 <= n
        /\ 0 <= getActiveCount c <= n
        /\ getActiveCount c = Z.of_nat (length (running c))
        /\ active (getStats c) = getActiveCount c).
Proof.
  split.
  - intros Hn. unfold create. apply Z.ltb_lt in Hn. rewrite Hn. reflexivity.
  - intros c Hreach. destruct (invariant_reachable n c Hreach) as [H Hn].
    destruct H as [Hb Hr Ha Hsa Hsp Hbusy Hs Hst Hl Har].
    unfold getActiveCount, getStats. rewrite <- Hn. repeat split; try assumption; lia.
Qed.

(** X21.  The queue never lets a task wait beside a free slot: in every state,
    either nothing is pending or as many tasks run as the bound allows.
    [stats.pending] is the number of tasks waiting. *)
Theorem no_task_waits_beside_a_free_slot (n : Z) (c : ConcurrencyQueue) :
  reachable n c ->
  (getQueueLength c = 0 \/ getActiveCount c = n)
  /\ pending (getStats c) = getQueueLength c.
Proof.
  intros Hreach. destruct (invariant_reachable n c Hreach) as [H Hn].
  destruct H as [Hb Hr Ha Hsa Hsp Hbusy Hs Hst Hl Har].
  unfold getQueueLength, getActiveCount, getStats. split; [| exact Hsp].
  destruct Hbusy as [Hq | Hfull]; [left; rewrite Hq; reflexivity | right; lia].
Qed.

(** Every task that was started is running, completed or failed: the
    counters [completed] and [failed] and the number of running tasks add
    up to the number of tasks started. *)
Theorem started_tasks_are_accounted_for (n : Z) (c : ConcurrencyQueue) :
  reachable n c ->
  completed (getStats c) + failed (getStats c) + getActiveCount c
  = Z.of_nat (length (startOrder c))
  /\ 0 <= completed (getStats c)
  /\ 0 <= failed (getStats c).
Proof.
  intros Hreach. destruct (invariant_reachable n c Hreach) as [H Hn].
  destruct H as [Hb Hr Ha Hsa Hsp Hbusy Hs Hst Hl Har].
  unfold getActiveCount, getStats. split; [exact Hst | exact Hs].
Qed.

(** X22.  The task at the head of the queue, which is started next, has the
    highest priority of the pending tasks and, among those of its
    priority, arrived first. *)
Theorem next_task_is_first_in_line (n : Z) (c : ConcurrencyQueue)
    (head : QueueTask) (rest : list QueueTask) :
  reachable n c ->
  queue c = head :: rest ->
  forall t, In t rest ->
    priority t <= priority head
    /\ (priority t = priority head -> (arrival head < arrival t)%nat).
Proof.
  intros Hreach Hq t Ht. destruct (invariant_reachable n c Hreach) as [H _].
  destruct H as [Hb Hr Ha Hsa Hsp Hbusy Hs Hst Hl Har].
  rewrite Hq in Hl. destruct Hl as [Hl _].
  destruct (Hl t Ht) as [Hlt | [Heq Harr]]; split; lia.
Qed.


End QueueInvariant.

(* ------------------------------------------------------------------ *)
(** ** Campaign service *)

Section Pagination.
Import CampaignService.
Variable fetch : Z -> Outcome Error Page.

Lemma fetchAll_loop_collects (n : nat) :
  forall (first : Z) (acc : list Campaign) (fuel : nat) (last : Page),
    (forall p, first <= p < first + Z.of_nat n ->
       exists response, fetch p = Returned response /\ has_more response = true) ->
    fetch (first + Z.of_nat n) = Returned last ->
    has_more last = false ->
    (n < fuel)%nat ->
    fetchAll_loop fuel fetch first acc
    = Some (Returned (acc ++ campaigns_of fetch (page_numbers first (S n)))).
Proof.
  induction n as [| n IH]; intros first acc fuel last Hmore Hlast Hstop Hfuel.
  - destruct fuel as [| fuel]; [lia |]. simpl.
    change (Z.of_nat 0) with 0 in Hlast. rewrite Z.add_0_r in Hlast.
    unfold campaigns_of. simpl. rewrite Hlast, Hstop, app_nil_r. reflexivity.
  - destruct fuel as [| fuel]; [lia |]. simpl.
    destruct (Hmore first) as (response & Hf & Hm); [lia |].
    rewrite Hf, Hm.
    rewrite (IH (first + 1) (acc ++ data response) fuel last).
    + unfold campaigns_of. simpl. rewrite ?Hf, <- app_assoc. reflexivity.
    + intros p Hp. apply Hmore. lia.
    + replace (first + 1 + Z.of_nat n) with (first + Z.of_nat (S n)) by lia. exact Hlast.
    + exact Hstop.
    + lia.
Qed.

(** X24.  When pages 1 to [n] announce more and page [n + 1] is the first that
    does not, [fetchAllCampaigns] returns the campaigns of pages 1 to
    [n + 1], in page order, after [n + 1] fetches. *)
Theorem fetchAllCampaigns_collects_every_page (n fuel : nat) (last : Page) :
  (forall p, 1 <= p < 1 + Z.of_nat n ->
     exists response, fetch p = Returned response /\ has_more response = true) ->
  fetch (1 + Z.of_nat n) = Returned last ->
  has_more last = false ->
  (n < fuel)%nat ->
  fetchAllCampaigns fuel fetch
  = Some (Returned (campaigns_of fetch (page_numbers 1 (S n)))).
Proof.
  intros Hmore Hlast Hstop Hfuel. unfold fetchAllCampaigns.
  rewrite (fetchAll_loop_collects n 1 [] fuel last Hmore Hlast Hstop Hfuel). reflexivity.
Qed.

Lemma fetchAll_loop_fails (n : nat) :
  forall (first : Z) (acc : list Campaign) (fuel : nat) (error : Error),
    (forall p, first <= p < first + Z.of_nat n ->
       exists response, fetch p = Returned response /\ has_more response = true) ->
    fetch (first + Z.of_nat n) = Thrown error ->
    (n < fuel)%nat ->
    fetchAll_loop fuel fetch first acc = Some (Thrown error).
Proof.
  induction n as [| n IH]; intros first acc fuel error Hmore Hfail Hfuel.
  - destruct fuel as [| fuel]; [lia |]. simpl.
    change (Z.of_nat 0) with 0 in Hfail. rewrite Z.add_0_r in Hfail.
    rewrite Hfail. reflexivity.
  - destruct fuel as [| fuel]; [lia |]. simpl.
    destruct (Hmore first) as (response & Hf & Hm); [lia |].
    rewrite Hf, Hm. apply IH.
    + intros p Hp. apply Hmore. lia.
    + replace (first + 1 + Z.of_nat n) with (first + Z.of_nat (S n)) by lia. exact Hfail.
    + lia.
Qed.

(** When a page cannot be fetched, [fetchAllCampaigns] throws the error of
    that page: the campaigns of the pages fetched before it are not
    returned. *)
Theorem fetchAllCampaigns_fails_with_the_page (n fuel : nat) (error : Error) :
  (forall p, 1 <= p < 1 + Z.of_nat n ->
     exists response, fetch p = Returned response /\ has_more response = true) ->
  fetch (1 + Z.of_nat n) = Thrown error ->
  (n < fuel)%nat ->
  fetchAllCampaigns fuel fetch = Some (Thrown error).
Proof.
  intros Hmore Hfail Hfuel. unfold fetchAllCampaigns.
  apply (fetchAll_loop_fails n 1 [] fuel error Hmore Hfail Hfuel).
Qed.

Lemma fetchAll_loop_runs_on (fuel : nat) :
  forall (first : Z) (acc : list Campaign),
    (forall p, first <= p ->
       exists response, fetch p = Returned response /\ has_more response = true) ->
    fetchAll_loop fuel fetch first acc = None.
Proof.
  induction fuel as [| fuel IH]; intros first acc Hmore; simpl; [reflexivity |].
  destruct (Hmore first) as (response & Hf & Hm); [lia |].
  rewrite Hf, Hm. apply IH. intros p Hp. apply Hmore. lia.
Qed.

(** X25.  Against a server whose every page announces more, the loop of
    [fetchAllCampaigns] has no end: no number of pages makes it return. *)
Theorem fetchAllCampaigns_never_returns_without_last_page (fuel : nat) :
  (forall p, 1 <= p ->
     exists response, fetch p = Returned response /\ has_more response = true) ->
  fetchAllCampaigns fuel fetch = None.
Proof.
  intros Hmore. unfold fetchAllCampaigns. apply fetchAll_loop_runs_on. exact Hmore.
Qed.

End Pagination.

(* ------------------------------------------------------------------ *)
(** ** Campaign worker and report: further properties *)

Section WorkerOutcome.
Import CampaignWorker CampaignService.
Variable World : Type.
Variable Date_now : World -> Z * World.

(** X26.  The worker reports success exactly when both injected calls return.
    When the sync call throws, the result carries that error and the save
    function is not run: the result and the world left behind are the same
    for every save function.  When the sync call returns and the save call
    throws, the result carries the error of the save. *)
Theorem syncCampaign_outcome
    (syncCampaignFn : string -> Async World unit)
    (saveCampaignFn : Campaign -> Async World unit)
    (campaign : Campaign) (w : World) :
  let w0 := snd (Date_now w) in
  let synced := syncCampaignFn (c_id campaign) w0 in
  (forall e, fst synced = Thrown e ->
     (exists r w',
        CampaignWorker.syncCampaign World Date_now syncCampaignFn saveCampaignFn campaign w = (Returned r, w')
        /\ success r = false /\ error r = Some e)
     /\ forall otherSave,
          CampaignWorker.syncCampaign World Date_now syncCampaignFn otherSave campaign w
          = CampaignWorker.syncCampaign World Date_now syncCampaignFn saveCampaignFn campaign w)
  /\ (fst synced = Returned tt ->
      let saved := saveCampaignFn campaign (snd synced) in
      (forall e, fst saved = Thrown e ->
         exists r w',
           CampaignWorker.syncCampaign World Date_now syncCampaignFn saveCampaignFn campaign w
           = (Returned r, w')
           /\ success r = false /\ error r = Some e)
      /\ (fst saved = Returned tt ->
          exists r w',
            CampaignWorker.syncCampaign World Date_now syncCampaignFn saveCampaignFn campaign w
            = (Returned r, w')
            /\ success r = true /\ error r = None)).
Proof.
  unfold CampaignWorker.syncCampaign, bind, try_catch, now, ret. cbv zeta.
  destruct (Date_now w) as [t0 w0]. cbn [snd].
  destruct (syncCampaignFn (c_id campaign) w0) as [[[] | e1] w1]; cbn [fst snd].
  - split; [intros e He; discriminate |]. intros _.
    destruct (saveCampaignFn campaign w1) as [[[] | e2] w2]; cbn [fst].
    + split; [intros e He; discriminate |]. intros _.
      destruct (Date_now w2) as [t1 w3]. eexists. eexists. repeat split.
    + split; [| intros He; discriminate]. intros e He. inversion He. subst e.
      destruct (Date_now w2) as [t1 w3]. eexists. eexists. repeat split.
  - split; [| intros He; discriminate]. intros e He. inversion He. subst e.
    split; [| reflexivity].
    destruct (Date_now w1) as [t1 w2]. eexists. eexists. repeat split.
Qed.

(** X27.  A sync call answered with [success: false] is a failure of the
    worker: the result carries a plain error with the server's message, or
    with [Failed to sync campaign <id>] when there is none. *)
Theorem unsuccessful_sync_response_fails_the_campaign
    (post : string -> World -> Outcome Error SyncResponse * World)
    (saveCampaignFn : Campaign -> Async World unit)
    (campaign : Campaign) (w : World) (response : SyncResponse) :
  let syncCampaignFn : string -> Async World unit :=
    fun campaignId world =>
      match CampaignService.syncCampaign (fst (post campaignId world)) campaignId with
      | Returned _ => (Returned tt, snd (post campaignId world))
      | Thrown e => (Thrown e, snd (post campaignId world))
      end in
  fst (post (c_id campaign) (snd (Date_now w))) = Returned response ->
  s_success response = false ->
  exists r w',
    CampaignWorker.syncCampaign World Date_now syncCampaignFn saveCampaignFn campaign w
    = (Returned r, w')
    /\ success r = false
    /\ error r = Some (PlainError (or_string (s_message response)
                                     ("Failed to sync campaign " ++ c_id campaign))).
Proof.
  intros syncCampaignFn Hpost Hfail.
  unfold CampaignWorker.syncCampaign, bind, try_catch, now, ret.
  destruct (Date_now w) as [t0 w0]. cbn [snd] in Hpost.
  unfold syncCampaignFn, CampaignService.syncCampaign. rewrite Hpost, Hfail. cbn [negb].
  destruct (Date_now (snd (post (c_id campaign) w0))) as [t1 w2].
  eexists. eexists. repeat split.
Qed.

(** The sequential [syncCampaigns] never throws and returns one result
    per campaign, in the order of the campaigns. *)
Theorem syncCampaigns_one_result_per_campaign
    (syncCampaignFn : string -> Async World unit)
    (saveCampaignFn : Campaign -> Async World unit)
    (campaigns : list Campaign) (w : World) :
  exists rs w',
    syncCampaigns World Date_now syncCampaignFn saveCampaignFn campaigns w = (Returned rs, w')
    /\ map campaignId rs = map c_id campaigns
    /\ length rs = length campaigns.
Proof.
  destruct (syncCampaigns_from_results World Date_now syncCampaignFn saveCampaignFn
              campaigns [] w) as (rs & w' & E & _ & Hids); [constructor |].
  exists rs, w'. split; [exact E |]. simpl in Hids. split; [exact Hids |].
  rewrite <- (length_map campaignId rs), Hids, length_map. reflexivity.
Qed.

End WorkerOutcome.

Section ReportFacts.
Import SyncOrchestrator.

Lemma filter_partition_length {A : Type} (f : A -> bool) (l : list A) :
  (length (filter f l) + length (filter (fun x => negb (f x)) l) = length l)%nat.
Proof.
  induction l as [| x l IH]; simpl; [reflexivity |].
  destruct (f x); simpl; lia.
Qed.

(** X28.  In a report every result is counted once, as a success or as a
    failure; the failure list has one entry per failed result, in the
    order of the results, each with a message that is not empty; and the
    duration is the difference of the two times. *)
Theorem generateReport_counts (startTime endTime totalCampaigns : Z) (rs : list SyncResult) :
  let report := generateReport startTime endTime totalCampaigns rs in
  successCount report + failureCount report = Z.of_nat (length rs)
  /\ Z.of_nat (length (failures report)) = failureCount report
  /\ map f_campaignId (failures report)
     = map campaignId (filter (fun r => negb (success r)) rs)
  /\ Forall (fun f => f_error f <> EmptyString) (failures report)
  /\ rep_duration report = endTime - startTime.
Proof.
  unfold generateReport. cbn [successCount failureCount failures rep_duration].
  split; [pose proof (filter_partition_length (fun r => success r) rs); lia |].
  split; [rewrite length_map; reflexivity |].
  split; [rewrite map_map; reflexivity |].
  split; [| reflexivity].
  apply Forall_forall. intros f Hf. apply in_map_iff in Hf.
  destruct Hf as (r & Hr & _). rewrite <- Hr. cbn [f_error].
  destruct (error r) as [e |]; [| discriminate].
  destruct (message_of e); discriminate.
Qed.

End ReportFacts.

(* ------------------------------------------------------------------ *)
(** ** Configuration *)

Section ConfigFacts.
Import Config.
Variable env : string -> option string.
Variable URL_accepts : string -> bool.
Variable emailRegex_test : string -> bool.
Variable toUpperCase : string -> string.

Lemma andThen_returned {A B : Type} (m : Outcome Error A) (k : A -> Outcome Error B) (b : B) :
  andThen m k = Returned b -> exists a, m = Returned a /\ k a = Returned b.
Proof.
  destruct m as [a | e]; simpl; [| discriminate]. intros H. exists a. split; [reflexivity | exact H].
Qed.

Lemma andThen_thrown {A B : Type} (m : Outcome Error A) (k : A -> Outcome Error B) (e : Error) :
  andThen m k = Thrown e -> m = Thrown e \/ exists a, m = Returned a /\ k a = Thrown e.
Proof.
  destruct m as [a | e']; simpl; intros H.
  - right. exists a. split; [reflexivity | exact H].
  - left. inversion H. reflexivity.
Qed.

Lemma validatePositive_returned (value : Z) (name : string) (n : Z) :
  validatePositive value name = Returned n -> n = value /\ 1 <= n.
Proof.
  unfold validatePositive. destruct (value <=? 0) eqn:E; [discriminate |].
  apply Z.leb_gt in E. intros H. inversion H. lia.
Qed.

Lemma positiveEnv_returned (e : string -> option string) (key : string) (d n : Z) :
  positiveEnv e key d = Returned n -> 1 <= n.
Proof.
  unfold positiveEnv. intros H. apply andThen_returned in H.
  destruct H as (v & _ & H). apply validatePositive_returned in H. lia.
Qed.

Lemma getEnvVar_throws (key : string) (d : option string) (e : Error) :
  getEnvVar env key d = Thrown e -> isConfigError e = true.
Proof.
  unfold getEnvVar. destruct (env key); [discriminate |].
  destruct d; [discriminate |]. intros H. inversion H. reflexivity.
Qed.

Lemma getEnvNumber_throws (key : string) (d : Z) (e : Error) :
  getEnvNumber env key d = Thrown e -> isConfigError e = true.
Proof.
  unfold getEnvNumber. destruct (env key) as [v |]; [| discriminate].
  destruct (ApiClient.parseInt v); [discriminate |]. intros H. inversion H. reflexivity.
Qed.

Lemma positiveEnv_throws (key : string) (d : Z) (e : Error) :
  positiveEnv env key d = Thrown e -> isConfigError e = true.
Proof.
  unfold positiveEnv. intros H. apply andThen_thrown in H.
  destruct H as [H | (v & _ & H)].
  - apply getEnvNumber_throws in H. exact H.
  - unfold validatePositive in H. destruct (v <=? 0); [| discriminate].
    inversion H. reflexivity.
Qed.

Ltac open_bind H :=
  let a := fresh "v" in
  let Ha := fresh "Hv" in
  apply andThen_returned in H; destruct H as (a & Ha & H).

(** X29.  A configuration that [loadConfig] returns satisfies the limits of the
    loader: every timeout, size, count and port is at least 1, at most 10
    syncs run at once, at most 20 attempts are made, and the base retry
    delay does not exceed the maximum delay; the URL and the e-mail address
    passed their checks. *)
Theorem loadConfig_enforces_limits (config : Config) :
  loadConfig env URL_accepts emailRegex_test toUpperCase = Returned config ->
  1 <= maxConcurrent (sync config) <= 10
  /\ 1 <= pageSize (sync config)
  /\ 1 <= retry_maxAttempts (retry config) <= 20
  /\ 1 <= retry_baseDelay (retry config) <= retry_maxDelay (retry config)
  /\ 1 <= rl_maxRequests (rateLimit config)
  /\ 1 <= rl_windowMs (rateLimit config)
  /\ 1 <= fetchTimeout (api config)
  /\ 1 <= syncTimeout (api config)
  /\ 1 <= port (db config)
  /\ 1 <= db_max (db config)
  /\ 1 <= idleTimeoutMillis (db config)
  /\ 1 <= connectionTimeoutMillis (db config)
  /\ URL_accepts (baseUrl (api config)) = true
  /\ emailRegex_test (email (api config)) = true.
Proof.
  unfold loadConfig.
  destruct (loadConfig_body env URL_accepts emailRegex_test toUpperCase) as [c | e] eqn:B;
    [| destruct (isConfigError e); discriminate].
  intros H. inversion H. subst c. clear H.
  unfold loadConfig_body in B.
  do 26 open_bind B.
  cbn [sync retry maxConcurrent retry_maxAttempts retry_maxDelay retry_baseDelay] in B.
  destruct (10 <? _) eqn:E1; [discriminate |].
  destruct (20 <? _) eqn:E2; [discriminate |].
  destruct (_ <? _) eqn:E3 in B; [discriminate |].
  inversion B. subst config. clear B.
  apply Z.ltb_ge in E1, E2, E3.
  cbn.
  repeat match goal with
         | H : positiveEnv _ _ _ = Returned _ |- _ => apply positiveEnv_returned in H
         end.
  unfold validateUrl in Hv0. destruct (URL_accepts v) eqn:U; [| discriminate].
  inversion Hv0. subst v0.
  unfold validateEmail in Hv2. destruct (emailRegex_test v1) eqn:M; [| discriminate].
  inversion Hv2. subst v2.
  repeat split; try lia; assumption.
Qed.

(** Every error [loadConfig] throws is a [ConfigError]. *)
Theorem loadConfig_throws_ConfigError (e : Error) :
  loadConfig env URL_accepts emailRegex_test toUpperCase = Thrown e ->
  isConfigError e = true.
Proof.
  unfold loadConfig.
  destruct (loadConfig_body env URL_accepts emailRegex_test toUpperCase) as [c | e'];
    [discriminate |].
  destruct (isConfigError e') eqn:C; intros H; inversion H; [subst; exact C | reflexivity].
Qed.

(** [validateConfig] accepts a configuration exactly when none of the
    seven required settings is the empty string. *)
Theorem validateConfig_requires_settings (config : Config) :
  validateConfig config = Returned tt
  <-> (baseUrl (api config) <> EmptyString
       /\ email (api config) <> EmptyString
       /\ api_password (api config) <> EmptyString
       /\ host (db config) <> EmptyString
       /\ database (db config) <> EmptyString
       /\ user (db config) <> EmptyString
       /\ db_password (db config) <> EmptyString).
Proof.
  unfold validateConfig. cbn [find snd].
  assert (E : forall s, String.eqb s EmptyString = true <-> s = EmptyString)
    by (intros s; apply String.eqb_eq).
  destruct (baseUrl (api config)) eqn:E1; cbn; [split; [discriminate | intros H; exfalso; tauto] |].
  destruct (email (api config)) eqn:E2; cbn; [split; [discriminate | intros H; exfalso; tauto] |].
  destruct (api_password (api config)) eqn:E3; cbn;
    [split; [discriminate | intros H; exfalso; tauto] |].
  destruct (host (db config)) eqn:E4; cbn; [split; [discriminate | intros H; exfalso; tauto] |].
  destruct (database (db config)) eqn:E5; cbn;
    [split; [discriminate | intros H; exfalso; tauto] |].
  destruct (user (db config)) eqn:E6; cbn; [split; [discriminate | intros H; exfalso; tauto] |].
  destruct (db_password (db config)) eqn:E7; cbn;
    [split; [discriminate | intros H; exfalso; tauto] |].
  split; [intros _; repeat split; discriminate | reflexivity].
Qed.

End ConfigFacts.

Section JitterSetting.
Import Config.
Variable env : string -> option string.
Variable URL_accepts : string -> bool.
Variable emailRegex_test : string -> bool.
Variable toUpperCase : string -> string.

Lemma getEnvVar_set_other (key k v : string) (d : option string) :
  String.eqb key k = false ->
  getEnvVar (set_env k v env) key d = getEnvVar env key d.
Proof. intros H. unfold getEnvVar, set_env. rewrite H. reflexivity. Qed.

Lemma getEnvNumber_set_other (key k v : string) (d : Z) :
  String.eqb key k = false ->
  getEnvNumber (set_env k v env) key d = getEnvNumber env key d.
Proof. intros H. unfold getEnvNumber, set_env. rewrite H. reflexivity. Qed.

Lemma positiveEnv_set_other (key k v : string) (d : Z) :
  String.eqb key k = false ->
  positiveEnv (set_env k v env) key d = positiveEnv env key d.
Proof. intros H. unfold positiveEnv. rewrite getEnvNumber_set_other by exact H. reflexivity. Qed.

(** X30.  The jitter is the one retry setting the loader does not check: when an
    environment is accepted, the same environment with
    [RETRY_JITTER_MS=-250] is accepted too, and gives the same
    configuration with a jitter of -250. *)
Theorem loadConfig_accepts_negative_jitter (config : Config) :
  loadConfig env URL_accepts emailRegex_test toUpperCase = Returned config ->
  loadConfig (set_env "RETRY_JITTER_MS" "-250" env) URL_accepts emailRegex_test toUpperCase
  = Returned {| api := api config;
                sync := sync config;
                retry := {| retry_maxAttempts := retry_maxAttempts (retry config);
                            retry_baseDelay := retry_baseDelay (retry config);
                            retry_jitter := -250;
                            retry_maxDelay := retry_maxDelay (retry config) |};
                rateLimit := rateLimit config;
                db := db config;
                logging := logging config |}.
Proof.
  unfold loadConfig.
  destruct (loadConfig_body env URL_accepts emailRegex_test toUpperCase) as [c | e] eqn:B;
    [| destruct (isConfigError e); discriminate].
  intros H. inversion H. subst c. clear H.
  unfold loadConfig_body in B |- *.
  rewrite !getEnvVar_set_other by reflexivity.
  rewrite !positiveEnv_set_other by reflexivity.
  replace (getEnvNumber (set_env "RETRY_JITTER_MS" "-250" env) "RETRY_JITTER_MS" 250)
    with (@Returned Error Z (-250)) by reflexivity.
  do 26 (let a := fresh "v" in
         let Ha := fresh "Hv" in
         apply andThen_returned in B; destruct B as (a & Ha & B);
         try (rewrite Ha; cbn [andThen])).
  cbn [andThen].
  cbn [sync retry maxConcurrent retry_maxAttempts retry_maxDelay retry_baseDelay] in B |- *.
  destruct (10 <? _) eqn:E1; [discriminate |].
  destruct (20 <? _) eqn:E2; [discriminate |].
  destruct (_ <? _) eqn:E3 in B; [discriminate |].
  rewrite E3. inversion B. reflexivity.
Qed.

End JitterSetting.

(* ------------------------------------------------------------------ *)
(** ** Instances *)

Section Instances.
Import ErrorHandler RetryStrategy Fixtures.

Lemma withRetry_invocations_and_sleeps_witness :
  exists run,
    withRetry_body always_times_out no_jitter_draw DEFAULT_RETRY_OPTIONS = Some run
    /\ 1 <= Z.of_nat (invocations run) <= maxAttempts DEFAULT_RETRY_OPTIONS
    /\ length (sleeps run) = pred (invocations run).
Proof.
  eexists. split; [vm_compute; reflexivity |].
  apply (@withRetry_invocations_and_sleeps unit always_times_out no_jitter_draw
           DEFAULT_RETRY_OPTIONS).
  - vm_compute. discriminate.
  - vm_compute. reflexivity.
Defined.

Lemma withRetry_returns_first_success_witness :
  withRetry_body third_time_lucky no_jitter_draw DEFAULT_RETRY_OPTIONS
  = Some {| outcome := Returned 42;
            sleeps := map (fun j => getRetryDelay (no_jitter_draw j)
                                      (TimeoutError "Request timeout after 5000ms" None) j
                                      DEFAULT_RETRY_OPTIONS) (seq 0 2);
            invocations := 3 |}.
Proof.
  apply (@withRetry_returns_first_success Z third_time_lucky no_jitter_draw
           DEFAULT_RETRY_OPTIONS
           (fun _ => TimeoutError "Request timeout after 5000ms" None) 42 2).
  - vm_compute. reflexivity.
  - intros j Hj. destruct j as [| [| j]]; [split; reflexivity | split; reflexivity | lia].
  - reflexivity.
Defined.

Lemma withRetry_rethrows_unretryable_witness :
  withRetry_body not_found no_jitter_draw DEFAULT_RETRY_OPTIONS
  = Some {| outcome := Thrown (ApiError "HTTP 404: Not Found" (Some 404) None None);
            sleeps := []; invocations := 1 |}.
Proof.
  apply (@withRetry_rethrows_unretryable unit not_found no_jitter_draw DEFAULT_RETRY_OPTIONS).
  - vm_compute. discriminate.
  - reflexivity.
  - reflexivity.
Defined.

Lemma withRetry_without_attempts_witness :
  withRetry_body always_times_out no_jitter_draw no_attempts
  = Some {| outcome :=
              Thrown (MaxRetriesExceededError
                        ("Operation failed after " ++ show (maxAttempts no_attempts)
                         ++ " attempts")
                        (maxAttempts no_attempts) None);
            sleeps := []; invocations := 0 |}.
Proof.
  apply (@withRetry_without_attempts unit always_times_out no_jitter_draw no_attempts).
  vm_compute. discriminate.
Defined.

End Instances.

Section LimiterInstances.
Import RateLimiter Fixtures.

Lemma queue_head_is_next_in_line_witness :
  let head := {| id := 3; priority := 5; timestamp := 5020 |} in
  let r := {| id := 2; priority := 0; timestamp := 5010 |} in
  priority r <= priority head
  /\ (priority r = priority head -> timestamp head <= timestamp r).
Proof.
  intros head r.
  apply (queue_head_is_next_in_line small_limiter limiter_with_queue head [r]).
  - exists limiter_trace. vm_compute. reflexivity.
  - vm_compute. reflexivity.
  - left. reflexivity.
Defined.

Lemma window_respected_when_timers_find_slot_witness :
  exists l,
    run (create small_limiter) undisturbed_trace = Some l
    /\ active_count 6050 l <= maxRequests small_limiter.
Proof.
  eexists. split; [vm_compute; reflexivity |].
  apply (window_respected_when_timers_find_slot small_limiter undisturbed_trace).
  - vm_compute. discriminate.
  - vm_compute. reflexivity.
  - vm_compute. reflexivity.
  - vm_compute. repeat split.
  - vm_compute. discriminate.
Defined.

Lemma waitForReset_sleep_frees_a_slot_witness :
  0 < 990
  /\ fst (canMakeRequest (5010 + 990) (cleanOldRequests 5010 limiter_after_one)) = true.
Proof.
  apply (waitForReset_sleep_frees_a_slot small_limiter limiter_after_one
           (cleanOldRequests 5010 limiter_after_one) 5010 990).
  - exists [Execute 5000 1%nat 0]. vm_compute. reflexivity.
  - vm_compute. discriminate.
  - vm_compute. reflexivity.
  - vm_compute. discriminate.
  - vm_compute. discriminate.
  - vm_compute. reflexivity.
Defined.

End LimiterInstances.

Section TokenInstances.
Import TokenManager TokenExpiry Stubs Fixtures.

Lemma expiry_tests_match_remaining_time_witness :
  exists left,
    getTimeUntilExpiry 3400000 manager_with_token = Some left
    /\ (isTokenExpired 3400000 manager_with_token = true <-> left <= 0)
    /\ (needsRefresh 3400000 manager_with_token = true <-> left <= 300000)
    /\ isTokenValid 3400000 manager_with_token
       = negb (isTokenExpired 3400000 manager_with_token).
Proof.
  apply (expiry_tests_match_remaining_time 3400000 manager_with_token (token_of "token-A" 0)).
  reflexivity.
Defined.

Lemma calls_during_refresh_join_witness :
  exists m',
    run manager_refreshing [GetToken 2 0; RefreshToken 3] = Some m'
    /\ replies m'
       = replies manager_refreshing
         ++ map (fun e => (caller_of e, Awaits 0)) [GetToken 2 0; RefreshToken 3]
    /\ inflight m' = inflight manager_refreshing
    /\ token m' = token manager_refreshing
    /\ refreshState m' = refreshState manager_refreshing
    /\ fresh m' = fresh manager_refreshing.
Proof.
  apply (calls_during_refresh_join manager_refreshing 0 [GetToken 2 0; RefreshToken 3]).
  - reflexivity.
  - reflexivity.
  - repeat constructor.
Defined.


Lemma rejected_login_is_tried_three_times_witness :
  exists run,
    RetryStrategy.withRetry
      (fun j => authenticateWithApi (fst (endpoint_down 0 j)) (snd (endpoint_down 0 j)))
      (fun _ => 0%Q) acquire_options = Some run
    /\ RetryStrategy.invocations run = 3%nat.
Proof.
  destruct (rejected_login_is_tried_three_times (endpoint_down 0) (fun _ => 0%Q)
              (fun _ => 500) (fun _ => "Internal Server Error"%string))
    as (run & Hrun & Hinv & _).
  - intros j. reflexivity.
  - exists run. split; assumption.
Defined.

End TokenInstances.

Section PipelineInstances.
Import ErrorHandler RetryStrategy ApiClient Stubs Fixtures.

Lemma handleResponse_retryable_statuses_witness :
  exists e,
    handleResponse (fun _ => NaN) 0 (response_with_retry_after 404 None) "/api/campaigns"
    = Thrown e
    /\ isRetryableError e = false.
Proof.
  destruct (proj1 (@handleResponse_retryable_statuses unit (fun _ => NaN) 0
                     (response_with_retry_after 404 None) "/api/campaigns") eq_refl)
    as (e & He & Hr).
  exists e. split; [exact He | exact Hr].
Defined.

Lemma request_does_not_retry_client_errors_witness :
  exists e,
    request (fun _ => handleResponse (fun _ => NaN) 0 (response_with_retry_after 404 None)
                        "/api/campaigns")
      no_jitter_draw
    = Some {| outcome := Thrown e; sleeps := []; invocations := 1 |}.
Proof.
  destruct (@request_does_not_retry_client_errors unit (fun _ => NaN) 0
              (response_with_retry_after 404 None) "/api/campaigns"
              (fun _ => handleResponse (fun _ => NaN) 0 (response_with_retry_after 404 None)
                          "/api/campaigns")
              no_jitter_draw)
    as (e & He & _).
  - reflexivity.
  - vm_compute. discriminate.
  - vm_compute. discriminate.
  - vm_compute. discriminate.
  - reflexivity.
  - exists e. exact He.
Defined.

Lemma getRetryAfter_date_hint_witness :
  getRetryAfter (fun _ => Int 7500) 5000
    (response_with_retry_after 429 (Some "2015-10-21T07:28:00Z"%string))
  = Int 2015
  /\ exists seconds,
       getRetryAfter (fun _ => Int 7500) 5000
         (response_with_retry_after 429 (Some "Wed, 21 Oct 2015 07:28:00 GMT"%string))
       = Int seconds
       /\ 0 <= seconds.
Proof.
  split.
  - apply (getRetryAfter_date_hint (fun _ => Int 7500) 5000 429 "2015-10-21T07:28:00Z").
    + discriminate.
    + vm_compute. reflexivity.
  - destruct (getRetryAfter_date_hint (fun _ => Int 7500) 5000 429
                "Wed, 21 Oct 2015 07:28:00 GMT")
      as (_ & Hdate); [discriminate |].
    destruct (Hdate 7500) as (seconds & Hs & Hpos & _).
    + vm_compute. reflexivity.
    + reflexivity.
    + exists seconds. split; assumption.
Defined.

End PipelineInstances.

Section QueueInstances.
Import ConcurrencyQueue Fixtures.

Lemma active_never_exceeds_bound_witness :
  1 <= 2
  /\ 0 <= getActiveCount busy_queue <= 2
  /\ getActiveCount busy_queue = Z.of_nat (length (running busy_queue))
  /\ active (getStats busy_queue) = getActiveCount busy_queue.
Proof.
  apply (proj2 (active_never_exceeds_bound 2) busy_queue).
  exists queue_of_two, queue_trace. split; vm_compute; reflexivity.
Defined.

Lemma no_task_waits_beside_a_free_slot_witness :
  (getQueueLength busy_queue = 0 \/ getActiveCount busy_queue = 2)
  /\ pending (getStats busy_queue) = getQueueLength busy_queue.
Proof.
  apply (no_task_waits_beside_a_free_slot 2 busy_queue).
  exists queue_of_two, queue_trace. split; vm_compute; reflexivity.
Defined.

Lemma next_task_is_first_in_line_witness :
  let head := {| id := 4; priority := 5; arrival := 3 |} in
  let t := {| id := 3; priority := 0; arrival := 2 |} in
  priority t <= priority head
  /\ (priority t = priority head -> (arrival head < arrival t)%nat).
Proof.
  intros head t.
  apply (next_task_is_first_in_line 2 busy_queue head [t]).
  - exists queue_of_two, queue_trace. split; vm_compute; reflexivity.
  - vm_compute. reflexivity.
  - left. reflexivity.
Defined.

End QueueInstances.

Section ServiceInstances.
Import CampaignService CampaignWorker Fixtures.

Lemma fetchAllCampaigns_collects_every_page_witness :
  fetchAllCampaigns 10 three_pages
  = Some (Returned (campaigns_of three_pages (page_numbers 1 3))).
Proof.
  apply (fetchAllCampaigns_collects_every_page three_pages 2 10
           {| data := [campaign_number 3]; has_more := false; total := 3 |}).
  - intros p Hp. exists {| data := [campaign_number p]; has_more := true; total := 3 |}.
    unfold three_pages. replace (p <? 3) with true by (symmetry; apply Z.ltb_lt; lia).
    split; reflexivity.
  - reflexivity.
  - reflexivity.
  - lia.
Defined.

Lemma fetchAllCampaigns_never_returns_without_last_page_witness :
  fetchAllCampaigns 1000 endless_pages = None.
Proof.
  apply (fetchAllCampaigns_never_returns_without_last_page endless_pages 1000).
  intros p Hp. eexists. split; reflexivity.
Defined.

Lemma syncCampaign_outcome_witness :
  exists r w',
    CampaignWorker.syncCampaign unit (fun w => (0, w))
      (fun _ w => (Thrown (PlainError "sync failed"), w))
      (fun _ w => (Returned tt, w))
      (campaign_number 1) tt = (Returned r, w')
    /\ success r = false /\ error r = Some (PlainError "sync failed").
Proof.
  apply (proj1 (syncCampaign_outcome unit (fun w => (0, w))
                  (fun _ w => (Thrown (PlainError "sync failed"), w))
                  (fun _ w => (Returned tt, w))
                  (campaign_number 1) tt)).
  reflexivity.
Defined.

Lemma unsuccessful_sync_response_fails_the_campaign_witness :
  exists r w',
    CampaignWorker.syncCampaign unit (fun w => (0, w))
      (fun campaignId world =>
         match CampaignService.syncCampaign (fst (refusing_post campaignId world)) campaignId with
         | Returned _ => (Returned tt, snd (refusing_post campaignId world))
         | Thrown e => (Thrown e, snd (refusing_post campaignId world))
         end)
      (fun _ w => (Returned tt, w))
      (campaign_number 1) tt = (Returned r, w')
    /\ success r = false
    /\ error r = Some (PlainError "Campaign is archived").
Proof.
  destruct (unsuccessful_sync_response_fails_the_campaign unit (fun w => (0, w))
              refusing_post (fun _ w => (Returned tt, w)) (campaign_number 1) tt
              {| s_success := false; s_campaign_id := c_id (campaign_number 1);
                 s_synced_at := ""; s_message := "Campaign is archived" |}
              eq_refl eq_refl)
    as (r & w' & H1 & H2 & H3).
  exists r, w'. split; [exact H1 |]. split; [exact H2 | exact H3].
Defined.

End ServiceInstances.

Section ConfigInstances.
Import Config Fixtures.

Lemma loadConfig_enforces_limits_witness :
  exists config,
    loadConfig minimal_env accept_all accept_all same_text = Returned config
    /\ 1 <= maxConcurrent (sync config) <= 10
    /\ 1 <= retry_baseDelay (retry config) <= retry_maxDelay (retry config).
Proof.
  eexists. split; [vm_compute; reflexivity |].
  match goal with
  | |- context [maxConcurrent (sync ?c)] =>
      pose proof (loadConfig_enforces_limits minimal_env accept_all accept_all same_text c) as H
  end.
  assert (E : loadConfig minimal_env accept_all accept_all same_text = Returned _)
    by (vm_compute; reflexivity).
  specialize (H E). destruct H as (H1 & _ & _ & H4 & _).
  split; [exact H1 | exact H4].
Defined.

Lemma loadConfig_accepts_negative_jitter_witness :
  exists config,
    loadConfig (set_env "RETRY_JITTER_MS" "-250" minimal_env) accept_all accept_all same_text
    = Returned config
    /\ retry_jitter (retry config) = -250.
Proof.
  eexists. split.
  - apply (loadConfig_accepts_negative_jitter minimal_env accept_all accept_all same_text).
    vm_compute. reflexivity.
  - reflexivity.
Defined.

End ConfigInstances.
